(** * Promise.js v0.2.2: a shallow embedding of [www/Promise.js]

    The library keeps every Promise's [fate], [queue] and [status] in the
    closure of its constructor and defers all callbacks through
    [window.setImmediate].  The embedding makes both explicit: a [world]
    holds the Promise objects by allocation index, the closure environments
    of the [Promise.all] calls, and the list of callbacks handed to
    [setImmediate] that have not run yet.  Library code is a computation in
    a state-and-exception monad over worlds.

    Covered: the constructor with [envoy], [enlighten], [resolver],
    [rejector] and [chain]; [Promise.resolve], [Promise.reject],
    [Promise.all]; [then] and [catch]; the callbacks given to
    [setImmediate]; of [Promise.race] the two handlers it passes to [then],
    not the loop that passes them.  Left out: the guard of the constructor
    (line 38), the [setImmediate] fallback and the registration of the
    library (lines 330-369).  Handlers supplied by the caller return a value
    or throw and do nothing else; the only values with a [then] method are
    Promises of this library. *)

From Stdlib Require Import ZArith String List Lia.
From stdpp Require Import base list.

Open Scope Z_scope.
Open Scope string_scope.
Open Scope list_scope.

(** ** Values *)

(** [PENDING], [RESOLVED], [REJECTED] (lines 9-24). *)
Inductive status : Type := PENDING | RESOLVED | REJECTED.

(** The two property names ["resolve"] and ["reject"] that [envoy] and
    [enlighten] receive as [operation]. *)
Inductive operation : Type := op_resolve | op_reject.

(** A Promise object is named by its allocation index. *)
Abbreviation pid := nat (only parsing).

(** Function values.  The closures the library itself creates are listed
    with the variables they capture; [Handler h] is the [h]-th function
    supplied by the caller. *)
Inductive func : Type :=
| Resolver (p : pid)                 (* [resolver] of Promise [p], line 98 *)
| Rejector (p : pid)                 (* [rejector] of Promise [p], line 113 *)
| AllResolved (c : nat) (index : nat)  (* line 233, in the [Promise.all] call [c] *)
| AllRejected (c : nat)              (* line 241, in the [Promise.all] call [c] *)
| Handler (h : nat).

(** JavaScript values.  Numbers are integers; [VArray c] is a reference
    to the [results] array of the [Promise.all] call [c]; the only objects
    with a [then] method are Promises. *)
Inductive value : Type :=
| VUndefined
| VNull
| VBool (b : bool)
| VNum (n : Z)
| VStr (s : string)
| VTypeError (msg : string)
| VFun (f : func)
| VPromise (p : pid)
| VArray (c : nat).

(** What a call of a caller-supplied handler does: return or throw. *)
Inductive result : Type := Returns (v : value) | Throws (ex : value).

(** [typeof v === "function"] *)
Definition is_function (v : value) : bool :=
  match v with VFun _ => true | _ => false end.

(** [v instanceof Promise] *)
Definition is_promise (v : value) : bool :=
  match v with VPromise _ => true | _ => false end.

(** [v === null] *)
Definition is_null (v : value) : bool :=
  match v with VNull => true | _ => false end.

(** Truthiness, as [value && ...] tests it. *)
Definition truthy (v : value) : bool :=
  match v with
  | VUndefined | VNull => false
  | VBool b => b
  | VNum n => negb (Z.eqb n 0)
  | VStr s => negb (String.eqb s "")
  | _ => true
  end.

(** [typeof v.then === "function"], for a [v] that is not [null] or
    [undefined]. *)
Definition has_then (v : value) : bool := is_promise v.

(** The object literal [{resolve, reject, promise}] of lines 293-297. *)
Record link : Type := Link {
  link_resolve : value;
  link_reject : value;
  link_promise : value
}.

(** The object literal [{resolve, reject, link}] of lines 290-298: one
    reaction. *)
Record args : Type := Args {
  args_resolve : value;
  args_reject : value;
  args_link : link
}.

(** [args[operation]] *)
Definition args_get (a : args) (op : operation) : value :=
  match op with op_resolve => args_resolve a | op_reject => args_reject a end.

(** [args.link[operation]] *)
Definition link_get (l : link) (op : operation) : value :=
  match op with op_resolve => link_resolve l | op_reject => link_reject l end.

(** The variables [fate], [queue], [status] of one constructor call
    (line 37). *)
Record promise : Type := MkPromise {
  fate : value;
  queue : list args;
  state : status
}.

(** Lines 41-43. *)
Definition fresh_promise : promise :=
  {| fate := VUndefined; queue := []; state := PENDING |}.

#[export] Instance promise_inhabited : Inhabited promise := populate fresh_promise.

(** The variables [results], [remaining], [status] of one [Promise.all]
    call (line 222), with the Promise whose [resolver] and [rejector] the
    call received as [onResolved] and [onRejected]. *)
Record all_vars : Type := AllVars {
  results : list (option value);
  remaining : Z;
  all_status : bool;
  all_owner : pid
}.

#[export] Instance all_vars_inhabited : Inhabited all_vars :=
  populate {| results := []; remaining := 0; all_status := true; all_owner := 0%nat |}.

(** One statement of a caller-supplied producer: a call of one of the two
    settlement functions it received, or a [throw]. *)
Inductive stmt : Type :=
| call_resolve (v : value)
| call_reject (v : value)
| throw_stmt (ex : value).

(** The function given to [new Promise]. *)
Inductive producer : Type :=
| caller_producer (body : list stmt)
| resolve_producer (v : value)                                 (* line 185 *)
| reject_producer (reason : value)                             (* line 203 *)
| all_producer (iterable : list value)                         (* line 221 *)
| then_producer (that : pid) (onResolved onRejected : value)   (* line 289 *)
| catch_producer (that : pid) (onRejected : value).            (* line 314 *)

(** The callbacks handed to [window.setImmediate]. *)
Inductive task : Type :=
| producer_task (p : pid) (f : producer)           (* line 165 *)
| handler_task (p : pid) (a : args) (op : operation) (* line 64; reads [fate] of [p] when it runs *)
| apply_task (f : value) (v : value).              (* line 72: [setImmediate(f, v)] *)

Record world : Type := World {
  heap : list promise;
  cells : list all_vars;
  tasks : list task;
  (* ghost: the calls of caller-supplied handlers so far, oldest first *)
  log : list (nat * value)
}.

Definition empty_world : world :=
  {| heap := []; cells := []; tasks := []; log := [] |}.

Definition set_heap (f : list promise -> list promise) (w : world) : world :=
  {| heap := f (heap w); cells := cells w; tasks := tasks w; log := log w |}.

Definition set_cells (f : list all_vars -> list all_vars) (w : world) : world :=
  {| heap := heap w; cells := f (cells w); tasks := tasks w; log := log w |}.

Definition set_tasks (f : list task -> list task) (w : world) : world :=
  {| heap := heap w; cells := cells w; tasks := f (tasks w); log := log w |}.

Definition set_log (f : list (nat * value) -> list (nat * value)) (w : world) : world :=
  {| heap := heap w; cells := cells w; tasks := tasks w; log := f (log w) |}.

(** Reads of a Promise's private variables. *)
Definition fate_of (w : world) (p : pid) : value := fate (heap w !!! p).
Definition queue_of (w : world) (p : pid) : list args := queue (heap w !!! p).
Definition status_of (w : world) (p : pid) : status := state (heap w !!! p).

(** ** The monad: state, exceptions, and a bound on recursion depth *)

(** A computation returns, throws, or is not followed to its end.
    [OutOfFuel] is no behaviour of the library: it marks a run on which
    [chain] and [envoy] call each other more deeply than the bound the
    embedding was given, and of which the embedding says nothing.  The
    library goes on there; when the fates run in a circle the engine ends
    the calls with a [RangeError] that the [try]/[catch] of lines 65-69 and
    166-170 catches like any other exception.  That is not modelled, so
    [OutOfFuel] carries no world, nothing catches it, and every statement
    below either gives its result with fuel enough for the fates at hand or
    speaks only of runs that return or throw. *)
Inductive outcome (A : Type) : Type :=
| Ok (a : A) (w : world)
| Throw (ex : value) (w : world)
| OutOfFuel.
Arguments Ok {A} a w.
Arguments Throw {A} ex w.
Arguments OutOfFuel {A}.

Definition M (A : Type) : Type := world -> outcome A.

Definition ret {A} (a : A) : M A := fun w => Ok a w.

Definition bind {A B} (m : M A) (k : A -> M B) : M B :=
  fun w => match m w with
           | Ok a w' => k a w'
           | Throw ex w' => Throw ex w'
           | OutOfFuel => OutOfFuel
           end.

Definition throw {A} (ex : value) : M A := fun w => Throw ex w.

(** [try { m } catch (ex) { h ex }].  A run that is not followed to its
    end stays so: there is no exception at hand to give to [h]. *)
Definition try_catch {A} (m : M A) (h : value -> M A) : M A :=
  fun w => match m w with
           | Ok a w' => Ok a w'
           | Throw ex w' => h ex w'
           | OutOfFuel => OutOfFuel
           end.

Definition out_of_fuel {A} : M A := fun _ => OutOfFuel.

Notation "x <- m ;; k" := (bind m (fun x => k))
  (at level 100, m at next level, right associativity).
Notation "m ;;; k" := (bind m (fun _ => k))
  (at level 100, right associativity).

Definition modify (f : world -> world) : M unit := fun w => Ok tt (f w).

(** [window.setImmediate(callback)]: the callback joins the pending ones. *)
Definition setImmediate (t : task) : M unit :=
  modify (set_tasks (fun ts => ts ++ [t])).

Definition update_promise (p : pid) (f : promise -> promise) : M unit :=
  modify (set_heap (alter f p)).

Definition set_fate (v : value) (pr : promise) : promise :=
  {| fate := v; queue := queue pr; state := state pr |}.
Definition set_state (s : status) (pr : promise) : promise :=
  {| fate := fate pr; queue := queue pr; state := s |}.
Definition push (a : args) (pr : promise) : promise :=
  {| fate := fate pr; queue := queue pr ++ [a]; state := state pr |}.

(** ** The library *)

Section Model.

(** What the caller's [h]-th handler does when called with a value. *)
Variable handlers : nat -> value -> result.

(** The type of [this.chain] with the Promise made explicit. *)
Definition chain_fn : Type := pid -> args -> M unit.

(** [envoy], lines 60-74, in the constructor call of Promise [p]; [chain]
    is the method the first branch calls on [fate]. *)
Definition envoy (chain : chain_fn) (p : pid) (a : args) (operation : operation) : M unit :=
  fun w =>
    match fate_of w p with
    | VPromise q => chain q a w
    | fate =>
        if is_function (args_get a operation)
        then setImmediate (handler_task p a operation) w
        else setImmediate (apply_task (link_get (args_link a) operation) fate) w
    end.

(** The [for] loop of lines 86-88 from index [i], with [n] iterations left
    ([maxI] is read once, [queue[i]] in every iteration). *)
Fixpoint enlighten_loop (chain : chain_fn) (p : pid) (operation : operation)
    (i n : nat) : M unit :=
  match n with
  | O => ret tt
  | S n' => fun w =>
      match queue_of w p !! i with
      | Some a => (envoy chain p a operation ;;;
                   enlighten_loop chain p operation (S i) n') w
      | None => Throw (VTypeError "Cannot read properties of undefined") w
      end
  end.

(** [enlighten], lines 84-89. *)
Definition enlighten (chain : chain_fn) (p : pid) (operation : operation) : M unit :=
  fun w => enlighten_loop chain p operation 0 (length (queue_of w p)) w.

(** [resolver], lines 98-104. *)
Definition resolver (chain : chain_fn) (p : pid) (v : value) : M unit :=
  fun w =>
    match status_of w p with
    | PENDING =>
        (update_promise p (set_fate v) ;;;
         update_promise p (set_state RESOLVED) ;;;
         enlighten chain p op_resolve) w
    | _ => Ok tt w
    end.

(** [rejector], lines 113-119. *)
Definition rejector (chain : chain_fn) (p : pid) (reason : value) : M unit :=
  fun w =>
    match status_of w p with
    | PENDING =>
        (update_promise p (set_fate reason) ;;;
         update_promise p (set_state REJECTED) ;;;
         enlighten chain p op_reject) w
    | _ => Ok tt w
    end.

Definition check (b : bool) (msg : string) : M unit :=
  if b then ret tt else throw (VTypeError msg).

(** The guards of [this.chain], lines 138-152.  The guard of line 135
    holds for every [args] record. *)
Definition validate (a : args) : M unit :=
  check (is_null (args_resolve a) || is_function (args_resolve a))
        "The given resolve argument is invalid, null or function" ;;;
  check (is_null (args_reject a) || is_function (args_reject a))
        "The given reject argument is invalid, null or function" ;;;
  check (is_function (link_resolve (args_link a)))
        "The given resolve link argument is invalid, null or function" ;;;
  check (is_function (link_reject (args_link a)))
        "The given reject link argument is invalid, null or function" ;;;
  check (is_promise (link_promise (args_link a)))
        "The given promise link argument, must be an instance of Promise".

(** [this.chain], lines 134-164, of Promise [p].  [chain] and [envoy] call
    each other along Promise-valued fates; [fuel] bounds the number of
    such nested calls the embedding follows.  Along fates that go on for
    longer, or that run in a circle, the result is [OutOfFuel]: what the
    library does there, up to the [RangeError] of an exhausted stack, is
    outside the embedding. *)
Fixpoint chain (fuel : nat) (p : pid) (a : args) : M unit :=
  let fate_chain : chain_fn :=
    match fuel with
    | O => fun _ _ => out_of_fuel
    | S k => chain k
    end in
  validate a ;;;
  fun w =>
    match status_of w p with
    | PENDING => update_promise p (push a) w
    | RESOLVED => envoy fate_chain p a op_resolve w
    | REJECTED => envoy fate_chain p a op_reject w
    end.

(** [results[index] = value] on an array that may be too short. *)
Definition array_set (index : nat) (v : value) (l : list (option value)) :
    list (option value) :=
  if decide (index < length l)%nat then <[index := Some v]> l
  else l ++ replicate (index - length l) None ++ [Some v].

Definition set_results (f : list (option value) -> list (option value))
    (c : all_vars) : all_vars :=
  {| results := f (results c); remaining := remaining c;
     all_status := all_status c; all_owner := all_owner c |}.
Definition set_remaining (f : Z -> Z) (c : all_vars) : all_vars :=
  {| results := results c; remaining := f (remaining c);
     all_status := all_status c; all_owner := all_owner c |}.
Definition set_all_status (b : bool) (c : all_vars) : all_vars :=
  {| results := results c; remaining := remaining c;
     all_status := b; all_owner := all_owner c |}.

Definition update_cell (c : nat) (f : all_vars -> all_vars) : M unit :=
  modify (set_cells (alter f c)).

(** The fulfilment handler of [Promise.all], lines 233-240. *)
Definition all_resolved (chain : chain_fn) (c index : nat) (v : value) : M unit :=
  fun w =>
    if all_status (cells w !!! c) then
      (update_cell c (set_results (array_set index v)) ;;;
       update_cell c (set_remaining (fun r => r - 1)) ;;;
       fun w' =>
         if Z.eqb (remaining (cells w' !!! c)) 0
         then resolver chain (all_owner (cells w' !!! c)) (VArray c) w'
         else Ok tt w') w
    else Ok tt w.

(** The rejection handler of [Promise.all], lines 241-244. *)
Definition all_rejected (chain : chain_fn) (c : nat) (reason : value) : M unit :=
  update_cell c (set_all_status false) ;;;
  fun w => rejector chain (all_owner (cells w !!! c)) reason w.

(** A call [f(v)]. *)
Definition call (chain : chain_fn) (f v : value) : M value :=
  match f with
  | VFun (Resolver p) => resolver chain p v ;;; ret VUndefined
  | VFun (Rejector p) => rejector chain p v ;;; ret VUndefined
  | VFun (AllResolved c index) => all_resolved chain c index v ;;; ret VUndefined
  | VFun (AllRejected c) => all_rejected chain c v ;;; ret VUndefined
  | VFun (Handler h) =>
      modify (set_log (fun l => l ++ [(h, v)])) ;;;
      match handlers h v with
      | Returns r => ret r
      | Throws ex => throw ex
      end
  | _ => throw (VTypeError "is not a function")
  end.

(** [new Promise(func)], lines 36-172.  The guard of line 38 holds for
    every [producer]. *)
Definition new_Promise (func : producer) : M pid :=
  fun w =>
    let p := length (heap w) in
    (modify (set_heap (fun h => h ++ [fresh_promise])) ;;;
     setImmediate (producer_task p func) ;;;
     ret p) w.

(** [Promise.prototype.then], lines 286-301, called on [that]. *)
Definition Promise_then (that : pid) (onResolved onRejected : value) : M value :=
  p <- new_Promise (then_producer that onResolved onRejected) ;;
  ret (VPromise p).

(** [Promise.prototype.catch], lines 311-326, called on [that]. *)
Definition Promise_catch (that : pid) (onRejected : value) : M value :=
  p <- new_Promise (catch_producer that onRejected) ;;
  ret (VPromise p).

(** A method call [v.then(onResolved, onRejected)] on any value. *)
Definition call_then (v onResolved onRejected : value) : M value :=
  match v with
  | VPromise p => Promise_then p onResolved onRejected
  | _ => throw (VTypeError "then is not a function")
  end.

(** [Promise.resolve], lines 184-192. *)
Definition Promise_resolve (v : value) : M value :=
  p <- new_Promise (resolve_producer v) ;;
  ret (VPromise p).

(** [Promise.reject], lines 202-206. *)
Definition Promise_reject (reason : value) : M value :=
  p <- new_Promise (reject_producer reason) ;;
  ret (VPromise p).

(** [Promise.all], lines 220-247. *)
Definition Promise_all (iterable : list value) : M value :=
  p <- new_Promise (all_producer iterable) ;;
  ret (VPromise p).

(** [iterable.forEach(body)] from index [index]. *)
Fixpoint forEach (body : value -> nat -> M unit) (iterable : list value)
    (index : nat) : M unit :=
  match iterable with
  | [] => ret tt
  | v :: rest => body v index ;;; forEach body rest (S index)
  end.

(** The callback of [forEach] in [Promise.all], lines 226-245. *)
Definition all_each (c : nat) (v : value) (index : nat) : M unit :=
  promise <- (if truthy v && negb (has_then v) then ret v
              else Promise_resolve v) ;;
  call_then promise (VFun (AllResolved c index)) (VFun (AllRejected c)) ;;;
  ret tt.

(** The reaction built by [then], lines 290-298, for the new Promise [p]. *)
Definition then_args (p : pid) (onResolved onRejected : value) : args :=
  {| args_resolve := if is_function onResolved then onResolved else VNull;
     args_reject := if is_function onRejected then onRejected else VNull;
     args_link := {| link_resolve := VFun (Resolver p);
                     link_reject := VFun (Rejector p);
                     link_promise := VPromise p |} |}.

(** The reaction built by [catch], lines 315-323, for the new Promise [p]. *)
Definition catch_args (p : pid) (onRejected : value) : args :=
  {| args_resolve := VNull;
     args_reject := if is_function onRejected then onRejected else VNull;
     args_link := {| link_resolve := VFun (Resolver p);
                     link_reject := VFun (Rejector p);
                     link_promise := VPromise p |} |}.

(** The statements of a caller-supplied producer, in order. *)
Fixpoint run_body (chain : chain_fn) (p : pid) (body : list stmt) : M unit :=
  match body with
  | [] => ret tt
  | call_resolve v :: rest => resolver chain p v ;;; run_body chain p rest
  | call_reject v :: rest => rejector chain p v ;;; run_body chain p rest
  | throw_stmt ex :: _ => throw ex
  end.

(** [func(resolver, rejector)] for the Promise [p] under construction. *)
Definition run_producer (fuel : nat) (p : pid) (func : producer) : M unit :=
  match func with
  | caller_producer body => run_body (chain fuel) p body
  | resolve_producer v =>
      if truthy v && has_then v
      then call_then v (VFun (Resolver p)) (VFun (Rejector p)) ;;; ret tt
      else resolver (chain fuel) p v
  | reject_producer reason => rejector (chain fuel) p reason
  | all_producer iterable =>
      fun w =>
        let c := length (cells w) in
        (modify (set_cells (fun cs => cs ++
           [{| results := []; remaining := Z.of_nat (length iterable);
               all_status := true; all_owner := p |}])) ;;;
         forEach (all_each c) iterable 0) w
  | then_producer that onResolved onRejected =>
      chain fuel that (then_args p onResolved onRejected)
  | catch_producer that onRejected =>
      chain fuel that (catch_args p onRejected)
  end.

(** The body of a callback given to [setImmediate]. *)
Definition run_task (fuel : nat) (t : task) : M unit :=
  match t with
  | producer_task p func =>
      (* lines 165-171 *)
      try_catch (run_producer fuel p func)
                (fun ex => rejector (chain fuel) p ex)
  | handler_task p a operation =>
      (* lines 64-70 *)
      try_catch
        (fun w =>
           (r <- call (chain fuel) (args_get a operation) (fate_of w p) ;;
            call (chain fuel) (link_resolve (args_link a)) r ;;;
            ret tt) w)
        (fun ex => call (chain fuel) (link_reject (args_link a)) ex ;;; ret tt)
  | apply_task f v => call (chain fuel) f v ;;; ret tt
  end.

(** ** The scheduler *)

(** The host runs the [i]-th pending callback.  An exception that escapes
    the callback is reported by the host and does not stop the loop.  [None]
    when there is no such callback, or when the callback is not followed to
    its end. *)
Definition step (fuel : nat) (i : nat) (w : world) : option world :=
  match tasks w !! i with
  | None => None
  | Some t =>
      match run_task fuel t (set_tasks (delete i) w) with
      | Ok _ w' => Some w'
      | Throw _ w' => Some w'
      | OutOfFuel => None
      end
  end.

(** At most [n] callbacks in submission order, stopping when none is left. *)
Fixpoint run (fuel : nat) (n : nat) (w : world) : option world :=
  match n with
  | O => Some w
  | S n' =>
      match tasks w with
      | [] => Some w
      | _ => match step fuel 0 w with
             | Some w' => run fuel n' w'
             | None => None
             end
      end
  end.

(** The callbacks at the given positions, one after the other. *)
Fixpoint run_schedule (fuel : nat) (schedule : list nat) (w : world) : option world :=
  match schedule with
  | [] => Some w
  | i :: rest => match step fuel i w with
                 | Some w' => run_schedule fuel rest w'
                 | None => None
                 end
  end.

(** The world after a computation, whatever its completion. *)
Definition world_after {A} (r : outcome A) (w0 : world) : world :=
  match r with
  | Ok _ w => w
  | Throw _ w => w
  | OutOfFuel => w0
  end.

End Model.

(** ** Vocabulary of the statements *)

(** All guards of [this.chain] pass. *)
Definition valid (a : args) : bool :=
  (is_null (args_resolve a) || is_function (args_resolve a)) &&
  (is_null (args_reject a) || is_function (args_reject a)) &&
  is_function (link_resolve (args_link a)) &&
  is_function (link_reject (args_link a)) &&
  is_promise (link_promise (args_link a)).

(** The status a settlement under [operation] leaves. *)
Definition settled_as (operation : operation) : status :=
  match operation with op_resolve => RESOLVED | op_reject => REJECTED end.

(** The callback [envoy] hands to [setImmediate] for a reaction when the
    fate is not a Promise (lines 63-73). *)
Definition dispatch_task (p : pid) (a : args) (operation : operation)
    (fate : value) : task :=
  if is_function (args_get a operation) then handler_task p a operation
  else apply_task (link_get (args_link a) operation) fate.

(** The Promise a reaction attached to [p] ends at: the first one along
    the Promise-valued fates that is pending or has an ordinary fate. *)
Fixpoint anchor (fuel : nat) (w : world) (p : pid) : option pid :=
  match status_of w p, fate_of w p with
  | PENDING, _ => Some p
  | _, VPromise q =>
      match fuel with
      | O => None
      | S k => anchor k w q
      end
  | _, _ => Some p
  end.

(** A reaction reaches Promise [t]: it joins the end of the queue while
    [t] is pending, and otherwise becomes one more pending callback. *)
Definition deliver (t : pid) (a : args) (w : world) : world :=
  match status_of w t with
  | PENDING =>
      set_heap (alter (fun pr => {| fate := fate pr; queue := queue pr ++ [a];
                                    state := state pr |}) t) w
  | RESOLVED =>
      set_tasks (fun ts => ts ++ [dispatch_task t a op_resolve (fate_of w t)]) w
  | REJECTED =>
      set_tasks (fun ts => ts ++ [dispatch_task t a op_reject (fate_of w t)]) w
  end.

(** One call of a settlement function of Promise [p]. *)
Definition settle (chain : chain_fn) (p : pid) (c : operation * value) : M unit :=
  match fst c with
  | op_resolve => resolver chain p (snd c)
  | op_reject => rejector chain p (snd c)
  end.

(** A sequence of calls of the settlement functions of Promise [p]. *)
Fixpoint settle_all (chain : chain_fn) (p : pid) (cs : list (operation * value)) :
    M unit :=
  match cs with
  | [] => ret tt
  | c :: rest => settle chain p c ;;; settle_all chain p rest
  end.

(** The world in which the pending Promise [p] has just recorded its
    outcome (lines 100-101 and 115-116). *)
Definition record_outcome (p : pid) (c : operation * value) (w : world) : world :=
  set_heap (alter (set_state (settled_as (fst c))) p)
    (set_heap (alter (set_fate (snd c)) p) w).

(** What one input of a [Promise.all] call tells the call. *)
Inductive notice : Type :=
| fulfilled (index : nat) (v : value)
| rejected (reason : value).

Definition notify (chain : chain_fn) (c : nat) (n : notice) : M unit :=
  match n with
  | fulfilled index v => all_resolved chain c index v
  | rejected reason => all_rejected chain c reason
  end.

Fixpoint notify_all (chain : chain_fn) (c : nat) (ns : list notice) : M unit :=
  match ns with
  | [] => ret tt
  | n :: rest => notify chain c n ;;; notify_all chain c rest
  end.

Definition is_fulfilled (n : notice) : bool :=
  match n with fulfilled _ _ => true | rejected _ => false end.

(** A property of the world a computation ends in, when it ends. *)
Definition ends_in {A} (P : world -> Prop) (r : outcome A) : Prop :=
  match r with
  | Ok _ w => P w
  | Throw _ w => P w
  | OutOfFuel => True
  end.

(** The calls so far changed no Promise's status or fate, no variable of a
    [Promise.all] call, and called no handler. *)
Definition settlement_kept (w w' : world) : Prop :=
  length (heap w') = length (heap w) /\
  (forall q, status_of w' q = status_of w q /\ fate_of w' q = fate_of w q) /\
  cells w' = cells w /\
  log w' = log w.

(** A downstream Promise settled like its source. *)
Definition settles_identically (w : world) (source downstream : pid) : Prop :=
  status_of w downstream = status_of w source /\
  fate_of w downstream = fate_of w source.

(** Every reaction of the list reaches Promise [t], in order. *)
Definition deliver_all (t : pid) (reactions : list args) (w : world) : world :=
  foldl (fun w' a => deliver t a w') w reactions.

(** The world right after [new Promise(func)]: one more Promise, one more
    pending callback. *)
Definition with_new_promise (func : producer) (w : world) : world :=
  set_tasks (fun ts => ts ++ [producer_task (length (heap w)) func])
    (set_heap (fun h => h ++ [fresh_promise]) w).

(** The world with one more, fresh Promise. *)
Definition grown (w : world) : world := set_heap (fun h => h ++ [fresh_promise]) w.

(** A truthy value without a [then] method: the test of line 228. *)
Definition plain_truthy (v : value) : bool := truthy v && negb (has_then v).

(** ** Vocabulary for [Promise.all] over settled Promises *)

(** The closed form of a settlement with an ordinary outcome. *)
Definition settled (p : pid) (c : operation * value) (w : world) : world :=
  set_tasks (fun ts => ts ++
    map (fun a => dispatch_task p a (fst c) (snd c)) (queue_of w p))
    (record_outcome p c w).

(** The operation under which a settled Promise was settled. *)
Definition operation_of (s : status) : operation :=
  match s with REJECTED => op_reject | _ => op_resolve end.

(** The reason of the first rejected Promise of the list. *)
Fixpoint first_rejection (w : world) (ins : list pid) : option value :=
  match ins with
  | [] => None
  | i :: rest =>
      match status_of w i with
      | REJECTED => Some (fate_of w i)
      | _ => first_rejection w rest
      end
  end.

(** Settled, with an outcome that is not a Promise. *)
Definition settled_plain (w : world) (p : pid) : Prop :=
  (p < length (heap w))%nat /\ status_of w p <> PENDING /\
  is_promise (fate_of w p) = false.

(** The reaction [Promise.all] attaches for the input at [index], whose
    wrapper Promise is [wrapper]; the downstream Promise is the next one. *)
Definition all_args (c index : nat) (wrapper : pid) : args :=
  then_args (S wrapper) (VFun (AllResolved c index)) (VFun (AllRejected c)).

(** The reaction [Promise.resolve(i)] attaches to the Promise [i]. *)
Definition relay_args (wrapper downstream : pid) : args :=
  then_args downstream (VFun (Resolver wrapper)) (VFun (Rejector wrapper)).

(** The world after the loop of [Promise.all] over Promises, from [index]. *)
Fixpoint subscribed (c : nat) (ins : list pid) (index : nat) (w : world) : world :=
  match ins with
  | [] => w
  | i :: rest =>
      subscribed c rest (S index)
        (with_new_promise
           (then_producer (length (heap w))
              (VFun (AllResolved c index)) (VFun (AllRejected c)))
           (with_new_promise (resolve_producer (VPromise i)) w))
  end.

(** The callbacks that loop schedules, with the first wrapper at [wrapper]. *)
Fixpoint subscribe_tasks (c : nat) (ins : list pid) (index : nat) (wrapper : pid) :
    list task :=
  match ins with
  | [] => []
  | i :: rest =>
      producer_task wrapper (resolve_producer (VPromise i)) ::
      producer_task (S wrapper)
        (then_producer wrapper (VFun (AllResolved c index)) (VFun (AllRejected c))) ::
      subscribe_tasks c rest (S index) (S (S wrapper))
  end.

(** The producers of the [then] calls of the wrappers on their inputs. *)
Fixpoint relay_tasks (ins : list pid) (wrapper downstream : pid) : list task :=
  match ins with
  | [] => []
  | i :: rest =>
      producer_task downstream
        (then_producer i (VFun (Resolver wrapper)) (VFun (Rejector wrapper))) ::
      relay_tasks rest (S (S wrapper)) (S downstream)
  end.

(** The callbacks that pass the outcome of each input to its wrapper. *)
Fixpoint input_tasks (w : world) (ins : list pid) (wrapper downstream : pid) :
    list task :=
  match ins with
  | [] => []
  | i :: rest =>
      handler_task i (relay_args wrapper downstream)
        (operation_of (status_of w i)) ::
      input_tasks w rest (S (S wrapper)) (S downstream)
  end.

(** The callbacks that pass the outcome of each wrapper to [Promise.all]. *)
Fixpoint wrapper_tasks (w : world) (c : nat) (ins : list pid) (index : nat)
    (wrapper : pid) : list task :=
  match ins with
  | [] => []
  | i :: rest =>
      handler_task wrapper (all_args c index wrapper)
        (operation_of (status_of w i)) ::
      wrapper_tasks w c rest (S index) (S (S wrapper))
  end.

(** What the input at [index], settled under [op] with [v], tells the call. *)
Definition notice_of (op : operation) (index : nat) (v : value) : notice :=
  match op with
  | op_resolve => fulfilled index v
  | op_reject => rejected v
  end.

(** The variables of the [Promise.all] call [c] over [total] inputs and its
    result, once the inputs of [reported] have told the call their outcomes
    in [w0], in this order. *)
Definition all_state_after (w0 : world) (c total : nat) (reported : list pid)
    (w : world) : Prop :=
  match first_rejection w0 reported with
  | Some r =>
      all_status (cells w !!! c) = false /\
      status_of w (all_owner (cells w !!! c)) = REJECTED /\
      fate_of w (all_owner (cells w !!! c)) = r
  | None =>
      all_status (cells w !!! c) = true /\
      remaining (cells w !!! c) = (Z.of_nat total - Z.of_nat (length reported))%Z /\
      results (cells w !!! c) = map (fun i => Some (fate_of w0 i)) reported /\
      queue_of w (all_owner (cells w !!! c)) = [] /\
      if decide (length reported = total /\ (0 < total)%nat)
      then status_of w (all_owner (cells w !!! c)) = RESOLVED /\
           fate_of w (all_owner (cells w !!! c)) = VArray c
      else status_of w (all_owner (cells w !!! c)) = PENDING
  end.

(** ** Handlers and programs used in the examples *)

Definition demo_handlers (h : nat) (v : value) : result :=
  match h with
  | O => Returns v
  | S O => Throws (VStr "boom")
  | _ => Returns VUndefined
  end.

(** The world a script leaves behind for the scheduler. *)
Definition exec {A} (m : M A) (w : world) : world := world_after (m w) w.

(** The world a finished run leaves. *)
Definition finished (o : option world) : world := default empty_world o.

(** [p = new Promise(function () {})] and [q = new Promise(function () {})],
    then [p.then(h0)]; all callbacks have run.  Promise 0 is pending with one
    reaction queued, Promise 1 is pending with none. *)
Definition waiting_world : world :=
  Eval vm_compute in
    finished (run demo_handlers 1 10
      (exec (p <- new_Promise (caller_producer []) ;;
             new_Promise (caller_producer []) ;;;
             Promise_then p (VFun (Handler 0)) VUndefined) empty_world)).

(** [Promise.resolve(7)], settled. *)
Definition settled_world : world :=
  Eval vm_compute in
    finished (run demo_handlers 1 10 (exec (Promise_resolve (VNum 7)) empty_world)).

(** [Promise.resolve(1).then(h1)] with a throwing [h1], just before the
    callback that calls [h1] runs. *)
Definition throwing_world : world :=
  Eval vm_compute in
    set_tasks (delete 0%nat)
      (finished (run demo_handlers 1 2
        (exec (Promise_resolve (VNum 1) ;;;
               Promise_then 0%nat (VFun (Handler 1)) VUndefined) empty_world))).

(** [Promise.resolve(1)], [Promise.reject("x")] and [Promise.resolve(3)],
    settled. *)
Definition three_settled_world : world :=
  Eval vm_compute in
    finished (run demo_handlers 1 10
      (exec (Promise_resolve (VNum 1) ;;;
             Promise_reject (VStr "x") ;;;
             Promise_resolve (VNum 3)) empty_world)).

(** [Promise.reject(Promise.resolve(5)).then()]. *)
Definition nested_rejection : M value :=
  Promise_resolve (VNum 5) ;;;
  Promise_reject (VPromise 0%nat) ;;;
  Promise_then 1%nat VUndefined VUndefined.

(** [Promise.all([Promise.reject(Promise.resolve(5))])]. *)
Definition all_of_nested_rejection : M value :=
  Promise_resolve (VNum 5) ;;;
  Promise_reject (VPromise 0%nat) ;;;
  Promise_all [VPromise 1%nat].

(** [Promise.all([Promise.resolve(1), Promise.reject("x"), Promise.resolve(3)])]
    after its producer and the producers of the three inputs have run. *)
Definition all_subscribed_world : world :=
  Eval vm_compute in
    finished (run demo_handlers 1 4
      (exec (Promise_resolve (VNum 1) ;;;
             Promise_reject (VStr "x") ;;;
             Promise_resolve (VNum 3) ;;;
             Promise_all [VPromise 0%nat; VPromise 1%nat; VPromise 2%nat])
            empty_world)).

(** ** What no call takes back *)

(** From [w] to [w']: no Promise was removed, every Promise that was
    settled has the status, fate and queue it had, every queue kept its
    reactions in front, and the record of handler calls kept its entries in
    front. *)
Definition history_kept (w w' : world) : Prop :=
  (length (heap w) <= length (heap w'))%nat /\
  (forall p, status_of w p <> PENDING -> heap w' !!! p = heap w !!! p) /\
  (forall p, queue_of w p `prefix_of` queue_of w' p) /\
  log w `prefix_of` log w'.

(** ** Programs that use the library *)

(** One thing the caller or the host does. *)
Inductive action : Type :=
| new_promise (body : list stmt)      (* [new Promise(function (resolve, reject) { body })] *)
| settle_later (p : pid) (c : operation * value)
                                      (* a later call of [resolve] or [reject] of Promise [p] *)
| resolve_value (v : value)           (* [Promise.resolve(v)] *)
| reject_value (reason : value)       (* [Promise.reject(reason)] *)
| all_of (iterable : list value)      (* [Promise.all(iterable)] *)
| then_on (p : pid) (f g : value)     (* [p.then(f, g)] *)
| catch_on (p : pid) (g : value)      (* [p.catch(g)] *)
| run_callback (i : nat).             (* the host runs the [i]-th pending callback *)

(** The world a computation leaves when it returns or throws. *)
Definition completed {A} (r : outcome A) : option world :=
  match r with
  | Ok _ w => Some w
  | Throw _ w => Some w
  | OutOfFuel => None
  end.

Section Programs.

Variable handlers : nat -> value -> result.

(** One action; [None] when the callback does not exist or the bound on the
    depth of calls is hit. *)
Definition perform (fuel : nat) (a : action) (w : world) : option world :=
  match a with
  | new_promise body => completed (new_Promise (caller_producer body) w)
  | settle_later p c => completed (settle (chain fuel) p c w)
  | resolve_value v => completed (Promise_resolve v w)
  | reject_value reason => completed (Promise_reject reason w)
  | all_of iterable => completed (Promise_all iterable w)
  | then_on p f g => completed (Promise_then p f g w)
  | catch_on p g => completed (Promise_catch p g w)
  | run_callback i => step handlers fuel i w
  end.

(** The actions of a script, one after the other. *)
Fixpoint play (fuel : nat) (script : list action) (w : world) : option world :=
  match script with
  | [] => Some w
  | a :: rest =>
      match perform fuel a w with
      | Some w' => play fuel rest w'
      | None => None
      end
  end.

End Programs.

(** A reaction as [then] and [catch] build it (lines 290-298, 315-323). *)
Definition built_by_then (a : args) : Prop :=
  exists d f g, a = then_args d f g.

(** One of the two settlement functions of some Promise. *)
Definition settlement_function (f : value) : Prop :=
  exists d, f = VFun (Resolver d) \/ f = VFun (Rejector d).

(** A pending callback as the library creates it: the callback of a
    reaction belongs to a Promise that is settled with an outcome that is
    not a Promise. *)
Definition task_ok (w : world) (t : task) : Prop :=
  match t with
  | producer_task _ _ => True
  | handler_task p a op =>
      built_by_then a /\ status_of w p = settled_as op /\
      is_promise (fate_of w p) = false
  | apply_task f v => settlement_function f /\ is_promise v = false
  end.

(** Every queued reaction was built by [then] or [catch], every pending
    callback is one the library creates, and no handler call so far had a
    Promise as its argument. *)
Definition well_formed (w : world) : Prop :=
  Forall (fun pr => Forall built_by_then (queue pr)) (heap w) /\
  Forall (task_ok w) (tasks w) /\
  Forall (fun e => is_promise (snd e) = false) (log w).

(** The computation does not throw, and the world it returns has [P]. *)
Definition returns_in {A} (P : world -> Prop) (r : outcome A) : Prop :=
  match r with
  | Ok _ w => P w
  | Throw _ _ => False
  | OutOfFuel => True
  end.

(** The first statement of a producer's body that settles the Promise: a
    call of a settlement function, or a [throw], which the constructor
    turns into a rejection (lines 166-170). *)
Definition first_outcome (body : list stmt) : option (operation * value) :=
  match body with
  | [] => None
  | call_resolve v :: _ => Some (op_resolve, v)
  | call_reject v :: _ => Some (op_reject, v)
  | throw_stmt ex :: _ => Some (op_reject, ex)
  end.

(** ** Chains of [then] *)

(** [v.then(f1, g1).then(f2, g2)...]: one [then] per pair of handlers, each
    on what the one before returned. *)
Fixpoint then_chain (v : value) (stages : list (value * value)) : M value :=
  match stages with
  | [] => ret v
  | (f, g) :: rest => d <- call_then v f g ;; then_chain d rest
  end.

(** A stage of a chain: the caller's handler for a fulfilment and the one
    for a rejection, each of which may be left out. *)
Definition stage : Type := option nat * option nat.

(** The argument of [then] for a handler, [undefined] when it is left out. *)
Definition handler_value (h : option nat) : value :=
  match h with
  | Some h => VFun (Handler h)
  | None => VUndefined
  end.

(** The two arguments of [then] for a stage. *)
Definition stage_values (s : stage) : value * value :=
  (handler_value (fst s), handler_value (snd s)).

(** The handler of a stage for an operation. *)
Definition stage_handler (s : stage) (op : operation) : option nat :=
  match op with op_resolve => fst s | op_reject => snd s end.

(** The reaction of a stage whose new Promise is [d]. *)
Definition stage_args (d : pid) (s : stage) : args :=
  then_args d (handler_value (fst s)) (handler_value (snd s)).

Section Pipeline.
Variable handlers : nat -> value -> result.

(** What a stage makes of an outcome: its handler for the operation
    fulfils with what it returns and rejects with what it throws; without
    one the outcome is passed on. *)
Definition stage_outcome (s : stage) (c : operation * value) : operation * value :=
  match stage_handler s (fst c) with
  | Some h =>
      match handlers h (snd c) with
      | Returns r => (op_resolve, r)
      | Throws ex => (op_reject, ex)
      end
  | None => c
  end.

(** The handler call a stage makes for an outcome. *)
Definition stage_calls (s : stage) (c : operation * value) : list (nat * value) :=
  match stage_handler s (fst c) with
  | Some h => [(h, snd c)]
  | None => []
  end.

(** The outcome after all stages. *)
Fixpoint pipeline (stages : list stage) (c : operation * value) : operation * value :=
  match stages with
  | [] => c
  | s :: rest => pipeline rest (stage_outcome s c)
  end.

(** The handler calls of all stages, in order. *)
Fixpoint pipeline_calls (stages : list stage) (c : operation * value) :
    list (nat * value) :=
  match stages with
  | [] => []
  | s :: rest => stage_calls s c ++ pipeline_calls rest (stage_outcome s c)
  end.

(** Every stage receives an outcome that is not a Promise. *)
Fixpoint flows (stages : list stage) (c : operation * value) : Prop :=
  match stages with
  | [] => True
  | s :: rest => is_promise (snd c) = false /\ flows rest (stage_outcome s c)
  end.

End Pipeline.

(** The producers the calls of a chain schedule: the first [then] is called
    on [src] and returns [d]. *)
Fixpoint chain_tasks (src d : pid) (stages : list stage) : list task :=
  match stages with
  | [] => []
  | s :: rest =>
      producer_task d (then_producer src (handler_value (fst s))
                         (handler_value (snd s))) ::
      chain_tasks d (S d) rest
  end.

(** Promise [d] is pending and the reactions of the stages wait in line
    behind it. *)
Fixpoint waiting (w : world) (d : pid) (stages : list stage) : Prop :=
  (d < length (heap w))%nat /\ status_of w d = PENDING /\
  match stages with
  | [] => queue_of w d = []
  | s :: rest => queue_of w d = [stage_args (S d) s] /\ waiting w (S d) rest
  end.

(** The Promises from [d] on are settled with the outcomes of the stages. *)
Fixpoint settled_chain (handlers : nat -> value -> result) (w : world) (d : pid)
    (stages : list stage) (c : operation * value) : Prop :=
  match stages with
  | [] => True
  | s :: rest =>
      status_of w d = settled_as (fst (stage_outcome handlers s c)) /\
      fate_of w d = snd (stage_outcome handlers s c) /\
      settled_chain handlers w (S d) rest (stage_outcome handlers s c)
  end.

(** ** The [results] array of [Promise.all] *)

(** [results[index]]: [None] stands for [undefined], which is also what a
    hole and an index beyond the end give. *)
Definition array_get (index : nat) (l : list (option value)) : option value :=
  default None (l !! index).

(** The assignments [results[index] = value] of a list of reports, in order. *)
Definition fill (l : list (option value)) (reports : list (nat * value)) :
    list (option value) :=
  foldl (fun l r => array_set (fst r) (snd r) l) l reports.

(** The notices of a list of fulfilments. *)
Definition fulfilments (reports : list (nat * value)) : list notice :=
  map (fun r => fulfilled (fst r) (snd r)) reports.

(** ** [Promise.race] *)

(** The two handlers [Promise.race] passes to [then] (lines 262-272) share
    the variable [found] of the call (line 260); [onResolved] and
    [onRejected] are the settlement functions of [owner], the Promise the
    call returns.  A handler is given with the value of [found] after the
    call and what the call does to the world. *)
Definition race_resolved (chain : chain_fn) (owner : pid) (v : value)
    (found : bool) : bool * M unit :=
  if found then (found, ret tt) else (true, resolver chain owner v).

(** Lines 267-272. *)
Definition race_rejected (chain : chain_fn) (owner : pid) (reason : value)
    (found : bool) : bool * M unit :=
  if found then (found, ret tt) else (true, rejector chain owner reason).

(** The handler an input calls when it is settled under [fst c] with
    [snd c]. *)
Definition race_handler (chain : chain_fn) (owner : pid) (c : operation * value)
    (found : bool) : bool * M unit :=
  match fst c with
  | op_resolve => race_resolved chain owner (snd c) found
  | op_reject => race_rejected chain owner (snd c) found
  end.

(** The reports of the inputs, each in a callback of its own. *)
Fixpoint race_reports (chain : chain_fn) (owner : pid)
    (reports : list (operation * value)) (found : bool) (w : world) :
    option (bool * world) :=
  match reports with
  | [] => Some (found, w)
  | c :: rest =>
      match completed (snd (race_handler chain owner c found) w) with
      | Some w' =>
          race_reports chain owner rest (fst (race_handler chain owner c found)) w'
      | None => None
      end
  end.

(** ** Several reactions of one Promise *)

(** [p.then(f1, g1); p.then(f2, g2); ...]: every [then] on the same
    Promise. *)
Fixpoint then_each (p : pid) (stages : list (value * value)) : M unit :=
  match stages with
  | [] => ret tt
  | (f, g) :: rest => Promise_then p f g ;;; then_each p rest
  end.

(** The producers these calls schedule; the first [then] returns [d]. *)
Fixpoint each_tasks (p d : pid) (stages : list stage) : list task :=
  match stages with
  | [] => []
  | s :: rest =>
      producer_task d (then_producer p (handler_value (fst s))
                         (handler_value (snd s))) ::
      each_tasks p (S d) rest
  end.

(** The callbacks of the reactions, for [p] settled under [fst c] with
    [snd c]. *)
Fixpoint each_reactions (p : pid) (c : operation * value) (d : pid)
    (stages : list stage) : list task :=
  match stages with
  | [] => []
  | s :: rest =>
      dispatch_task p (stage_args d s) (fst c) (snd c) ::
      each_reactions p c (S d) rest
  end.

(** The reactions of these calls, in the order of the calls. *)
Fixpoint each_args (d : pid) (stages : list stage) : list args :=
  match stages with
  | [] => []
  | s :: rest => stage_args d s :: each_args (S d) rest
  end.

(** ** [Promise.all] over values it wraps *)

(** The world after the loop of [Promise.all] over values that are falsy or
    have a [then] method, from [index]: each gets a wrapper from
    [Promise.resolve] and a [then] on the wrapper. *)
Fixpoint wrapped (c : nat) (vs : list value) (index : nat) (w : world) : world :=
  match vs with
  | [] => w
  | v :: rest =>
      wrapped c rest (S index)
        (with_new_promise
           (then_producer (length (heap w))
              (VFun (AllResolved c index)) (VFun (AllRejected c)))
           (with_new_promise (resolve_producer v) w))
  end.

(** The callbacks that loop schedules, with the first wrapper at [wrapper]. *)
Fixpoint wrap_tasks (c : nat) (vs : list value) (index : nat) (wrapper : pid) :
    list task :=
  match vs with
  | [] => []
  | v :: rest =>
      producer_task wrapper (resolve_producer v) ::
      producer_task (S wrapper)
        (then_producer wrapper (VFun (AllResolved c index)) (VFun (AllRejected c))) ::
      wrap_tasks c rest (S index) (S (S wrapper))
  end.

(** The callbacks that pass the values of [count] fulfilled wrappers to
    [Promise.all]. *)
Fixpoint report_tasks (c count index : nat) (wrapper : pid) : list task :=
  match count with
  | O => []
  | S k =>
      handler_task wrapper (all_args c index wrapper) op_resolve ::
      report_tasks c k (S index) (S (S wrapper))
  end.

(** A world whose Promises are fulfilled with the given values. *)
Definition fulfilled_with (vs : list value) : world :=
  {| heap := map (fun v => {| fate := v; queue := []; state := RESOLVED |}) vs;
     cells := []; tasks := []; log := [] |}.

(** ** Counting handler calls *)

(** [v] is the caller's handler [h]. *)
Definition is_handler (h : nat) (v : value) : bool :=
  match v with
  | VFun (Handler h') => Nat.eqb h h'
  | _ => false
  end.

Definition one_if (b : bool) : nat := if b then 1%nat else 0%nat.

(** The reaction has [h] as one of its two handlers. *)
Definition mentions (h : nat) (a : args) : bool :=
  is_handler h (args_resolve a) || is_handler h (args_reject a).

(** The callback is the producer of a [then] or [catch] that was given
    [h], or the callback of a reaction that has [h] as a handler. *)
Definition task_mentions (h : nat) (t : task) : bool :=
  match t with
  | producer_task _ (then_producer _ f g) => is_handler h f || is_handler h g
  | producer_task _ (catch_producer _ g) => is_handler h g
  | handler_task _ a _ => mentions h a
  | _ => false
  end.

(** The action is a [then] or [catch] call that passes [h]. *)
Definition action_mentions (h : nat) (a : action) : bool :=
  match a with
  | then_on _ f g => is_handler h f || is_handler h g
  | catch_on _ g => is_handler h g
  | _ => false
  end.

(** The number of [then] and [catch] calls of a script that pass [h]. *)
Definition attachments (h : nat) (script : list action) : nat :=
  sum_list_with (fun a => one_if (action_mentions h a)) script.

(** The number of calls of [h] so far. *)
Definition calls (h : nat) (w : world) : nat :=
  sum_list_with (fun e => one_if (Nat.eqb h (fst e))) (log w).

(** The reactions with handler [h] in the queue of a Promise, while it is
    pending. *)
Definition owed_by (h : nat) (pr : promise) : nat :=
  match state pr with
  | PENDING => sum_list_with (fun a => one_if (mentions h a)) (queue pr)
  | _ => 0%nat
  end.

(** The reactions with handler [h] that have not been dispatched: those
    queued at pending Promises and those in pending callbacks. *)
Definition owed (h : nat) (w : world) : nat :=
  (sum_list_with (owed_by h) (heap w) +
   sum_list_with (fun t => one_if (task_mentions h t)) (tasks w))%nat.

(** From [w] to [w'], at most [k] more calls of [h] were made or became
    due. *)
Definition spent (h k : nat) (w w' : world) : Prop :=
  (calls h w' + owed h w' <= calls h w + owed h w + k)%nat.

(** ** Scripts and worlds used in the examples *)

(** [Promise.resolve(7)] and a Promise whose producer rejects it with
    ["no"]; [then(h0)] on the first and [catch(h1)] on the second; five of
    the callbacks; then [Promise.all] of the first Promise and [1]. *)
Definition demo_script : list action :=
  [resolve_value (VNum 7); new_promise [call_reject (VStr "no")];
   then_on 0%nat (VFun (Handler 0)) VUndefined;
   catch_on 1%nat (VFun (Handler 1));
   run_callback 0; run_callback 0; run_callback 0; run_callback 0;
   run_callback 0;
   all_of [VPromise 0%nat; VNum 1]].

(** The world [demo_script] leaves: the callback that calls [h1] and the
    producer of [Promise.all] are pending. *)
Definition played_world : world :=
  Eval vm_compute in finished (play demo_handlers 1 demo_script empty_world).

(** On [settled_world]: [then(h1)], its producer, a late [reject("late")]
    of Promise 0, and the callback of the reaction. *)
Definition late_script : list action :=
  [then_on 0%nat (VFun (Handler 1)) VUndefined; run_callback 0;
   settle_later 0%nat (op_reject, VStr "late"); run_callback 0].

(** The world [late_script] leaves. *)
Definition late_world : world :=
  Eval vm_compute in finished (play demo_handlers 1 late_script settled_world).

(** [Promise.resolve(1)] and [Promise.resolve(2)], settled. *)
Definition two_fulfilled_world : world :=
  Eval vm_compute in
    finished (run demo_handlers 1 10
      (exec (Promise_resolve (VNum 1) ;;; Promise_resolve (VNum 2)) empty_world)).

(** [h0], then the throwing [h1], then [h0] as a rejection handler. *)
Definition demo_stages : list stage :=
  [(Some 0%nat, None); (Some 1%nat, None); (None, Some 0%nat)].

(** * Proofs *)

Section Facts.

Variable handlers : nat -> value -> result.

(** ** Reads after writes *)

Ltac unfold_monad :=
  unfold bind, ret, throw, try_catch, modify, setImmediate, update_promise,
    update_cell, check, out_of_fuel in *.

Lemma status_of_alter (w : world) (p q : pid) (f : promise -> promise) :
  (forall pr, state (f pr) = state pr) ->
  status_of (set_heap (alter f p) w) q = status_of w q.
Proof.
  intros Hf. unfold status_of; simpl.
  rewrite list_lookup_total_alter. case_decide as H; [|done].
  destruct H as [-> _]. apply Hf.
Qed.

Lemma fate_of_alter (w : world) (p q : pid) (f : promise -> promise) :
  (forall pr, fate (f pr) = fate pr) ->
  fate_of (set_heap (alter f p) w) q = fate_of w q.
Proof.
  intros Hf. unfold fate_of; simpl.
  rewrite list_lookup_total_alter. case_decide as H; [|done].
  destruct H as [-> _]. apply Hf.
Qed.

Lemma queue_of_alter (w : world) (p q : pid) (f : promise -> promise) :
  (forall pr, queue (f pr) = queue pr) ->
  queue_of (set_heap (alter f p) w) q = queue_of w q.
Proof.
  intros Hf. unfold queue_of; simpl.
  rewrite list_lookup_total_alter. case_decide as H; [|done].
  destruct H as [-> _]. apply Hf.
Qed.

Lemma queue_of_push (w : world) (p q : pid) (a : args) :
  queue_of (set_heap (alter (push a) p) w) q =
  if decide (p = q /\ (p < length (heap w))%nat) then queue_of w p ++ [a]
  else queue_of w q.
Proof.
  unfold queue_of; simpl. rewrite list_lookup_total_alter.
  by destruct (decide _).
Qed.

Lemma queue_of_push_other (w : world) (p q : pid) (a : args) :
  p <> q -> queue_of (set_heap (alter (push a) p) w) q = queue_of w q.
Proof.
  intros Hne. rewrite queue_of_push. case_decide as H; [|done].
  destruct H; congruence.
Qed.

Lemma status_of_record (w : world) (p : pid) (c : operation * value) :
  (p < length (heap w))%nat ->
  status_of (record_outcome p c w) p = settled_as (fst c).
Proof.
  intros Hp. unfold record_outcome, status_of; simpl.
  rewrite list_lookup_total_alter_eq; [done|].
  by rewrite length_alter.
Qed.

Lemma fate_of_record (w : world) (p : pid) (c : operation * value) :
  (p < length (heap w))%nat ->
  fate_of (record_outcome p c w) p = snd c.
Proof.
  intros Hp. unfold record_outcome, fate_of; simpl.
  rewrite list_lookup_total_alter_eq by (by rewrite length_alter).
  simpl. by rewrite list_lookup_total_alter_eq.
Qed.

Lemma queue_of_record (w : world) (p q : pid) (c : operation * value) :
  queue_of (record_outcome p c w) q = queue_of w q.
Proof.
  unfold record_outcome.
  rewrite (queue_of_alter _ p q (set_state _)) by done.
  by rewrite queue_of_alter.
Qed.

Lemma record_outcome_other (w : world) (p q : pid) (c : operation * value) :
  p <> q ->
  status_of (record_outcome p c w) q = status_of w q /\
  fate_of (record_outcome p c w) q = fate_of w q.
Proof.
  intros Hne. unfold record_outcome, status_of, fate_of; simpl.
  by rewrite !list_lookup_total_alter_ne.
Qed.

(** ** What attaching and dispatching leave alone *)

Lemma settlement_kept_refl (w : world) : settlement_kept w w.
Proof. by repeat split. Qed.

Lemma settlement_kept_trans (w1 w2 w3 : world) :
  settlement_kept w1 w2 -> settlement_kept w2 w3 -> settlement_kept w1 w3.
Proof.
  intros (Hl & Hs & Hc & Hg) (Hl' & Hs' & Hc' & Hg').
  split; [congruence|]. split; [|split; congruence].
  intros q. destruct (Hs q), (Hs' q). split; congruence.
Qed.

Lemma settlement_kept_push (w : world) (p : pid) (a : args) :
  settlement_kept w (set_heap (alter (push a) p) w).
Proof.
  split; [simpl; apply length_alter|]. split; [|done].
  intros q. split; [by apply status_of_alter | by apply fate_of_alter].
Qed.

Lemma settlement_kept_tasks (w : world) (f : list task -> list task) :
  settlement_kept w (set_tasks f w).
Proof. by repeat split. Qed.

Lemma validate_cases (a : args) (w : world) :
  validate a w = Ok tt w /\ valid a = true \/
  (exists msg, validate a w = Throw (VTypeError msg) w) /\ valid a = false.
Proof.
  unfold validate, valid. unfold_monad.
  destruct (is_null (args_resolve a) || is_function (args_resolve a)); simpl;
    [|right; eauto].
  destruct (is_null (args_reject a) || is_function (args_reject a)); simpl;
    [|right; eauto].
  destruct (is_function (link_resolve (args_link a))); simpl; [|right; eauto].
  destruct (is_function (link_reject (args_link a))); simpl; [|right; eauto].
  destruct (is_promise (link_promise (args_link a))); simpl; [|right; eauto].
  by left.
Qed.

Lemma validate_valid (a : args) (w : world) :
  valid a = true -> validate a w = Ok tt w.
Proof.
  intros Hv. destruct (validate_cases a w) as [[? _]|[_ ?]]; [done|congruence].
Qed.

Lemma envoy_kept (ch : chain_fn) (p : pid) (a : args) (op : operation) (w : world) :
  (forall q w', ends_in (settlement_kept w') (ch q a w')) ->
  ends_in (settlement_kept w) (envoy ch p a op w).
Proof.
  intros Hch. unfold envoy.
  destruct (fate_of w p); try apply Hch;
    destruct (is_function (args_get a op)); apply settlement_kept_tasks.
Qed.

Lemma chain_kept (fuel : nat) (p : pid) (a : args) (w : world) :
  ends_in (settlement_kept w) (chain fuel p a w).
Proof.
  revert p w. induction fuel as [|k IH]; intros p w; simpl; unfold bind;
    destruct (validate_cases a w) as [[-> _]|[[msg ->] _]];
    try apply settlement_kept_refl;
    destruct (status_of w p);
    try apply settlement_kept_push;
    apply envoy_kept; intros; try apply IH; done.
Qed.

(** ** Where a reaction ends up *)

Lemma anchor_kept (fuel : nat) (w w' : world) (p : pid) :
  settlement_kept w w' -> anchor fuel w' p = anchor fuel w p.
Proof.
  intros (_ & Hs & _). revert p.
  induction fuel as [|k IH]; intros p; simpl;
    destruct (Hs p) as [-> ->]; [done|].
  destruct (status_of w p), (fate_of w p); auto.
Qed.

Lemma deliver_kept (t : pid) (a : args) (w : world) :
  settlement_kept w (deliver t a w).
Proof.
  unfold deliver. destruct (status_of w t);
    [apply settlement_kept_push | apply settlement_kept_tasks ..].
Qed.

(** A valid reaction attached to [p] is delivered to the anchor of [p]. *)
Lemma chain_delivers (fuel : nat) (p t : pid) (a : args) (w : world) :
  valid a = true ->
  anchor fuel w p = Some t ->
  chain fuel p a w = Ok tt (deliver t a w).
Proof.
  intros Hv. revert p.
  induction fuel as [|k IH]; intros p; simpl; unfold bind;
    rewrite (validate_valid a w Hv); unfold envoy, deliver;
    destruct (status_of w p) eqn:Hs, (fate_of w p) eqn:Hf;
    intros H; simplify_eq; rewrite ?Hs, ?Hf; try done;
    try (by apply IH);
    unfold dispatch_task, setImmediate, modify;
    by destruct (is_function _).
Qed.

Lemma envoy_delivers (fuel : nat) (p t : pid) (a : args) (op : operation)
    (w : world) :
  (is_promise (fate_of w p) = true -> valid a = true) ->
  status_of w p = settled_as op ->
  anchor (S fuel) w p = Some t ->
  envoy (chain fuel) p a op w = Ok tt (deliver t a w).
Proof.
  intros Hv Hs. simpl. rewrite Hs. unfold envoy.
  destruct op; simpl; destruct (fate_of w p) eqn:Hf; intros H; simplify_eq;
    try (apply chain_delivers; [by apply Hv | done]);
    unfold deliver; rewrite Hs, Hf; simpl;
    unfold dispatch_task, setImmediate, modify;
    by destruct (is_function _).
Qed.

(** Delivering to [t] leaves the queue of a settled Promise alone. *)
Lemma deliver_queue_settled (t p : pid) (a : args) (w : world) :
  status_of w p <> PENDING ->
  queue_of (deliver t a w) p = queue_of w p.
Proof.
  intros Hp. unfold deliver. destruct (status_of w t) eqn:Ht; [|done..].
  apply queue_of_push_other. intros ->. congruence.
Qed.


Lemma deliver_all_kept (t : pid) (reactions : list args) (w : world) :
  settlement_kept w (deliver_all t reactions w).
Proof.
  revert w. induction reactions as [|a rest IH]; intros w; simpl.
  - apply settlement_kept_refl.
  - eapply settlement_kept_trans; [apply deliver_kept | apply IH].
Qed.

Lemma enlighten_loop_delivers (fuel : nat) (p t : pid) (op : operation)
    (n i : nat) (w : world) :
  (is_promise (fate_of w p) = true ->
   Forall (fun a => valid a = true) (queue_of w p)) ->
  status_of w p = settled_as op ->
  anchor (S fuel) w p = Some t ->
  (i + n = length (queue_of w p))%nat ->
  enlighten_loop (chain fuel) p op i n w =
    Ok tt (deliver_all t (drop i (queue_of w p)) w).
Proof.
  revert i w. induction n as [|n IH]; intros i w Hv Hs Ha Hlen.
  - simpl. rewrite drop_ge by lia. done.
  - cbn [enlighten_loop].
    destruct (lookup_lt_is_Some_2 (queue_of w p) i) as [a Hi]; [lia|].
    rewrite Hi. unfold bind.
    assert (Hva : is_promise (fate_of w p) = true -> valid a = true).
    { intros Hf. specialize (Hv Hf). rewrite Forall_forall in Hv.
      apply Hv. by eapply list_elem_of_lookup_2. }
    rewrite (envoy_delivers fuel p t a op w Hva Hs Ha).
    assert (Hq : queue_of (deliver t a w) p = queue_of w p).
    { apply deliver_queue_settled. rewrite Hs. by destruct op. }
    pose proof (deliver_kept t a w) as Hk.
    rewrite IH.
    + rewrite Hq. rewrite (drop_S _ _ _ Hi). done.
    + rewrite Hq. destruct Hk as (_ & Hst & _). by destruct (Hst p) as [_ ->].
    + destruct Hk as (_ & Hst & _). destruct (Hst p) as [-> _]. done.
    + by rewrite (anchor_kept _ _ _ _ Hk).
    + rewrite Hq. lia.
Qed.

Lemma enlighten_loop_kept (ch : chain_fn) (p : pid) (op : operation)
    (n i : nat) (w : world) :
  (forall q a w', ends_in (settlement_kept w') (ch q a w')) ->
  ends_in (settlement_kept w) (enlighten_loop ch p op i n w).
Proof.
  intros Hch. revert i w. induction n as [|n IH]; intros i w; simpl.
  - apply settlement_kept_refl.
  - destruct (queue_of w p !! i) as [a|]; [|apply settlement_kept_refl].
    unfold bind.
    pose proof (envoy_kept ch p a op w (fun q w' => Hch q a w')) as He.
    destruct (envoy ch p a op w) as [[] w'|ex w'|]; simpl in *; try done.
    pose proof (IH (S i) w') as Hl.
    destruct (enlighten_loop ch p op (S i) n w'); simpl in *; try done;
      by eapply settlement_kept_trans.
Qed.

(** ** The settlement functions *)

Lemma settle_pending (ch : chain_fn) (p : pid) (c : operation * value) (w : world) :
  status_of w p = PENDING ->
  settle ch p c w = enlighten ch p (fst c) (record_outcome p c w).
Proof.
  intros Hs. destruct c as [[] v]; unfold settle, resolver, rejector; simpl;
    by rewrite Hs.
Qed.

Lemma settle_settled (ch : chain_fn) (p : pid) (c : operation * value) (w : world) :
  status_of w p <> PENDING ->
  settle ch p c w = Ok tt w.
Proof.
  intros Hs. destruct c as [[] v]; unfold settle, resolver, rejector; simpl;
    by destruct (status_of w p).
Qed.

Lemma settle_all_settled (ch : chain_fn) (p : pid) (cs : list (operation * value))
    (w : world) :
  status_of w p <> PENDING ->
  settle_all ch p cs w = Ok tt w.
Proof.
  intros Hs. induction cs as [|c rest IH]; simpl; [done|].
  unfold bind. by rewrite settle_settled.
Qed.

Lemma settle_records (fuel : nat) (p : pid) (c : operation * value) (w : world) :
  (p < length (heap w))%nat ->
  status_of w p = PENDING ->
  ends_in (fun w1 => status_of w1 p = settled_as (fst c) /\ fate_of w1 p = snd c /\
                     cells w1 = cells w /\ log w1 = log w)
          (settle (chain fuel) p c w).
Proof.
  intros Hp Hs. rewrite settle_pending by done. unfold enlighten.
  pose proof (enlighten_loop_kept (chain fuel) p (fst c)
    (length (queue_of (record_outcome p c w) p)) 0 (record_outcome p c w)
    (fun q a w' => chain_kept fuel q a w')) as Hk.
  destruct (enlighten_loop _ _ _ _ _ _) as [[] w1|ex w1|]; simpl in *; try done;
    destruct Hk as (_ & Hst & Hc & Hl); destruct (Hst p) as [-> ->];
    by rewrite status_of_record, fate_of_record.
Qed.

Lemma settle_delivers (fuel : nat) (p t : pid) (c : operation * value) (w : world) :
  (p < length (heap w))%nat ->
  status_of w p = PENDING ->
  (is_promise (snd c) = true -> Forall (fun a => valid a = true) (queue_of w p)) ->
  anchor (S fuel) (record_outcome p c w) p = Some t ->
  settle (chain fuel) p c w =
    Ok tt (deliver_all t (queue_of w p) (record_outcome p c w)).
Proof.
  intros Hp Hs Hv Ha. rewrite settle_pending by done. unfold enlighten.
  rewrite (enlighten_loop_delivers fuel p t (fst c)); try done.
  - by rewrite queue_of_record.
  - by rewrite queue_of_record, fate_of_record.
  - by apply status_of_record.
Qed.

Lemma anchor_plain (fuel : nat) (w : world) (p : pid) :
  is_promise (fate_of w p) = false -> anchor fuel w p = Some p.
Proof.
  intros Hf. destruct fuel; simpl; destruct (status_of w p), (fate_of w p);
    done.
Qed.

(** Delivering to a settled Promise only adds callbacks, in order. *)
Lemma deliver_all_settled (t : pid) (op : operation) (reactions : list args)
    (w : world) :
  status_of w t = settled_as op ->
  deliver_all t reactions w =
    set_tasks (fun ts => ts ++
      map (fun a => dispatch_task t a op (fate_of w t)) reactions) w.
Proof.
  revert w. induction reactions as [|a rest IH]; intros w Hs; simpl.
  - destruct w; unfold set_tasks; simpl. by rewrite app_nil_r.
  - assert (Hd : deliver t a w =
        set_tasks (fun ts => ts ++ [dispatch_task t a op (fate_of w t)]) w).
    { unfold deliver. rewrite Hs. by destruct op. }
    rewrite Hd, IH by done.
    unfold set_tasks, fate_of; simpl. by rewrite <- app_assoc.
Qed.

(** Delivering to a pending Promise only extends its queue, in order. *)
Lemma deliver_all_pending (t : pid) (reactions : list args) (w : world) :
  status_of w t = PENDING ->
  deliver_all t reactions w =
    set_heap (alter (fun pr => {| fate := fate pr;
                                  queue := queue pr ++ reactions;
                                  state := state pr |}) t) w.
Proof.
  revert w. induction reactions as [|a rest IH]; intros w Hs; simpl.
  - destruct w as [h cs ts l]; unfold set_heap; simpl. f_equal.
    symmetry. apply list_alter_id. intros [f q s]; simpl. by rewrite app_nil_r.
  - assert (Hd : deliver t a w = set_heap (alter (push a) t) w).
    { unfold deliver. by rewrite Hs. }
    rewrite Hd, IH by (by rewrite status_of_alter).
    unfold set_heap; simpl. f_equal. rewrite list_alter_alter_eq.
    apply list_alter_ext; [|done]. intros [f q s] _; simpl.
    by rewrite <- app_assoc.
Qed.

Lemma settle_plain (fuel : nat) (p : pid) (c : operation * value) (w : world) :
  (p < length (heap w))%nat ->
  status_of w p = PENDING ->
  is_promise (snd c) = false ->
  settle (chain fuel) p c w =
    Ok tt (set_tasks (fun ts => ts ++
             map (fun a => dispatch_task p a (fst c) (snd c)) (queue_of w p))
           (record_outcome p c w)).
Proof.
  intros Hp Hs Hc.
  rewrite (settle_delivers fuel p p c w Hp Hs).
  - rewrite (deliver_all_settled p (fst c)) by (by apply status_of_record).
    by rewrite fate_of_record.
  - congruence.
  - apply anchor_plain. by rewrite fate_of_record.
Qed.


Lemma then_args_valid (d : pid) (f g : value) : valid (then_args d f g) = true.
Proof.
  unfold valid, then_args; simpl.
  destruct (is_function f) eqn:Hf, (is_function g) eqn:Hg; rewrite ?Hf, ?Hg;
    simpl; rewrite ?orb_true_r; done.
Qed.

Lemma catch_args_valid (d : pid) (g : value) : valid (catch_args d g) = true.
Proof.
  unfold valid, catch_args; simpl.
  destruct (is_function g) eqn:Hg; rewrite ?Hg; simpl; rewrite ?orb_true_r;
    done.
Qed.

(** ** C1 *)

(** C1: of any sequence of calls to the two settlement functions of a
    pending Promise, the first records its outcome and status, and every
    later call, to either function, returns the world it was given: status,
    fate, queues and pending callbacks all stay as they are.  The first call
    returns whenever its outcome is not a Promise, and also when it is one
    and the queued reactions have a Promise to end at. *)
Theorem first_settle_wins (fuel : nat) (w : world) (p : pid)
    (c : operation * value) (cs : list (operation * value)) :
  (p < length (heap w))%nat ->
  status_of w p = PENDING ->
  ends_in (fun w1 =>
      status_of w1 p = settled_as (fst c) /\ fate_of w1 p = snd c /\
      forall fuel', settle_all (chain fuel') p cs w1 = Ok tt w1)
    (settle (chain fuel) p c w) /\
  (is_promise (snd c) = false ->
   exists w1, settle (chain fuel) p c w = Ok tt w1) /\
  (forall t, Forall (fun a => valid a = true) (queue_of w p) ->
   anchor (S fuel) (record_outcome p c w) p = Some t ->
   exists w1, settle (chain fuel) p c w = Ok tt w1).
Proof.
  intros Hp Hs. split; [|split].
  - pose proof (settle_records fuel p c w Hp Hs) as Hr.
    destruct (settle (chain fuel) p c w) as [[] w1|ex w1|]; simpl in *;
      try done; destruct Hr as (Hst & Hf & _); repeat split; try done;
      intros fuel'; apply settle_all_settled; rewrite Hst; by destruct (fst c).
  - intros Hc. eexists. by apply settle_plain.
  - intros t Hv Ht. eexists. by apply (settle_delivers fuel p t).
Qed.

(** ** Attaching and dispatching one reaction *)


Lemma call_resolver (ch : chain_fn) (d : pid) (v : value) (w : world) :
  call handlers ch (VFun (Resolver d)) v w =
  (settle ch d (op_resolve, v) ;;; ret VUndefined) w.
Proof. done. Qed.

Lemma call_rejector (ch : chain_fn) (d : pid) (v : value) (w : world) :
  call handlers ch (VFun (Rejector d)) v w =
  (settle ch d (op_reject, v) ;;; ret VUndefined) w.
Proof. done. Qed.



(** Running the producer of [then]: the reaction is attached to [that]. *)
Lemma run_then_producer (fuel : nat) (that d t : pid) (f g : value) (w : world) :
  anchor fuel w that = Some t ->
  run_task handlers fuel (producer_task d (then_producer that f g)) w =
    Ok tt (deliver t (then_args d f g) w).
Proof.
  intros Ha. cbn [run_task run_producer]. unfold try_catch.
  by rewrite (chain_delivers fuel that t _ w (then_args_valid d f g) Ha).
Qed.


(** ** A handler that throws *)

Lemma settle_no_reactions (ch : chain_fn) (p : pid) (c : operation * value)
    (w : world) :
  status_of w p = PENDING ->
  queue_of w p = [] ->
  settle ch p c w = Ok tt (record_outcome p c w).
Proof.
  intros Hs Hq. rewrite settle_pending by done. unfold enlighten.
  by rewrite queue_of_record, Hq.
Qed.

(** The callback of a reaction whose handler throws rejects the Promise
    whose [rejector] the reaction carries. *)
Lemma throwing_handler_task (fuel : nat) (w : world) (p d : pid)
    (a : args) (op : operation) (h : nat) (ex : value) :
  link_reject (args_link a) = VFun (Rejector d) ->
  args_get a op = VFun (Handler h) ->
  handlers h (fate_of w p) = Throws ex ->
  (d < length (heap w))%nat ->
  status_of w d = PENDING ->
  ends_in (fun w1 => status_of w1 d = REJECTED /\ fate_of w1 d = ex /\
                     log w1 = log w ++ [(h, fate_of w p)])
          (run_task handlers fuel (handler_task p a op) w) /\
  (is_promise ex = false \/ queue_of w d = [] ->
   exists w1, run_task handlers fuel (handler_task p a op) w = Ok tt w1).
Proof.
  intros Hl Hh Hthrow Hd Hs.
  cbn [run_task]. unfold try_catch, bind. rewrite Hh, Hl. cbn [call].
  unfold bind, modify. rewrite Hthrow. unfold throw.
  set (w0 := set_log _ w).
  assert (Hd0 : (d < length (heap w0))%nat) by done.
  assert (Hs0 : status_of w0 d = PENDING) by done.
  change (rejector (chain fuel) d ex) with (settle (chain fuel) d (op_reject, ex)).
  split.
  - pose proof (settle_records fuel d (op_reject, ex) w0 Hd0 Hs0) as Hr.
    destruct (settle (chain fuel) d (op_reject, ex) w0) as [[] w1|ex1 w1|];
      simpl in *; try done; by destruct Hr as (? & ? & _ & ->).
  - intros [Hex|Hq].
    + rewrite (settle_plain fuel d (op_reject, ex) w0 Hd0 Hs0 Hex).
      unfold ret. eauto.
    + rewrite (settle_no_reactions (chain fuel) d (op_reject, ex) w0 Hs0 Hq).
      unfold ret. eauto.
Qed.

(** ** Promise-valued outcomes *)

(** Settling the pending [p] with the pending Promise [q] as outcome. *)
Lemma settle_with_pending (fuel : nat) (w : world) (p q : pid) (op : operation) :
  (p < length (heap w))%nat ->
  (q < length (heap w))%nat ->
  p <> q ->
  status_of w p = PENDING ->
  status_of w q = PENDING ->
  Forall (fun a => valid a = true) (queue_of w p) ->
  exists w1,
    settle (chain fuel) p (op, VPromise q) w = Ok tt w1 /\
    status_of w1 p = settled_as op /\ fate_of w1 p = VPromise q /\
    status_of w1 q = PENDING /\
    queue_of w1 q = queue_of w q ++ queue_of w p /\
    tasks w1 = tasks w /\ log w1 = log w /\
    length (heap w1) = length (heap w).
Proof.
  intros Hp Hq Hne Hsp Hsq Hv.
  set (c := (op, VPromise q)).
  set (w0 := record_outcome p c w).
  destruct (record_outcome_other w p q c Hne) as [Hsq0 Hfq0].
  assert (Ha : anchor (S fuel) w0 p = Some q).
  { simpl. subst w0. rewrite status_of_record, fate_of_record by done. simpl.
    destruct op; simpl; destruct fuel; simpl; by rewrite Hsq0, Hsq. }
  exists (deliver_all q (queue_of w p) w0). split.
  { apply settle_delivers; try done. }
  pose proof (deliver_all_kept q (queue_of w p) w0) as (Hlen & Hst & _ & Hlog).
  destruct (Hst p) as [-> ->]. destruct (Hst q) as [-> _].
  subst w0. rewrite status_of_record, fate_of_record by done.
  rewrite Hsq0. repeat split; try done.
  - rewrite deliver_all_pending by congruence.
    unfold queue_of; simpl.
    rewrite list_lookup_total_alter_eq by (by rewrite !length_alter).
    simpl. by rewrite !list_lookup_total_alter_ne.
  - rewrite deliver_all_pending by congruence. done.
  - rewrite Hlen. unfold record_outcome; simpl. by rewrite !length_alter.
Qed.

(** A settled Promise whose fate is a Promise hands every reaction on. *)
Lemma chain_forwards (fuel : nat) (w : world) (p q : pid) (a : args) :
  valid a = true ->
  status_of w p <> PENDING ->
  fate_of w p = VPromise q ->
  chain (S fuel) p a w = chain fuel q a w.
Proof.
  intros Hv Hs Hf. cbn [chain]. unfold bind. rewrite (validate_valid a w Hv).
  unfold envoy. rewrite Hf. by destruct (status_of w p).
Qed.

Lemma nested_settlement (fuel : nat) (w : world) (p q : pid) (op : operation) :
  (p < length (heap w))%nat ->
  status_of w p = PENDING ->
  ends_in (fun w1 => status_of w1 p = settled_as op /\ fate_of w1 p = VPromise q)
          (settle (chain fuel) p (op, VPromise q) w) /\
  ((q < length (heap w))%nat -> p <> q -> status_of w q = PENDING ->
   Forall (fun a => valid a = true) (queue_of w p) ->
   exists w1,
     settle (chain fuel) p (op, VPromise q) w = Ok tt w1 /\
     status_of w1 p = settled_as op /\ fate_of w1 p = VPromise q /\
     status_of w1 q = PENDING /\
     queue_of w1 q = queue_of w q ++ queue_of w p /\
     tasks w1 = tasks w /\ log w1 = log w /\
     forall fuel' c, is_promise (snd c) = false ->
       exists w2,
         settle (chain fuel') q c w1 = Ok tt w2 /\
         tasks w2 = tasks w ++
           map (fun a => dispatch_task q a (fst c) (snd c))
               (queue_of w q ++ queue_of w p) /\
         log w2 = log w) /\
  (forall w1 a, valid a = true ->
     status_of w1 p = settled_as op -> fate_of w1 p = VPromise q ->
     chain (S fuel) p a w1 = chain fuel q a w1).
Proof.
  intros Hp Hsp. repeat split.
  - pose proof (settle_records fuel p (op, VPromise q) w Hp Hsp) as Hr.
    destruct (settle _ _ _ _); cbn [ends_in fst snd] in *; try done;
      by destruct Hr as (? & ? & _).
  - intros Hq Hne Hsq Hv.
    destruct (settle_with_pending fuel w p q op Hp Hq Hne Hsp Hsq Hv)
      as (w1 & Hw1 & Hs1 & Hf1 & Hsq1 & Hq1 & Ht1 & Hl1 & Hlen1).
    exists w1. repeat split; try done.
    intros fuel' c Hc. eexists. split.
    + apply settle_plain; [by rewrite Hlen1|done..].
    + simpl. by rewrite Ht1, Hq1.
  - intros w1 a Ha Hs1 Hf1. apply chain_forwards; try done.
    rewrite Hs1. by destruct op.
Qed.

(** ** Running callbacks *)

Lemma step_last (fuel : nat) (w : world) (before : list task) (t : task) :
  tasks w = before ++ [t] ->
  step handlers fuel (length before) w =
    match run_task handlers fuel t (set_tasks (fun _ => before) w) with
    | Ok _ w' => Some w'
    | Throw _ w' => Some w'
    | OutOfFuel => None
    end.
Proof.
  intros Ht. unfold step. rewrite Ht, list_lookup_middle by done.
  replace (set_tasks (delete (length before)) w)
    with (set_tasks (fun _ => before) w); [done|].
  unfold set_tasks. by rewrite Ht, delete_middle, app_nil_r.
Qed.


Lemma new_promise_old (func : producer) (w : world) (p : pid) :
  (p < length (heap w))%nat ->
  status_of (with_new_promise func w) p = status_of w p /\
  fate_of (with_new_promise func w) p = fate_of w p /\
  queue_of (with_new_promise func w) p = queue_of w p.
Proof.
  intros Hp. unfold status_of, fate_of, queue_of; simpl.
  by rewrite lookup_total_app_l.
Qed.

Lemma exec_then (p : pid) (f g : value) (w : world) :
  exec (Promise_then p f g) w = with_new_promise (then_producer p f g) w.
Proof. done. Qed.

(** The callback that settles a pending Promise [d] directly (line 72). *)
Lemma run_settler (fuel : nat) (d : pid) (op : operation) (v : value) (w : world) :
  (d < length (heap w))%nat ->
  status_of w d = PENDING ->
  is_promise v = false ->
  run_task handlers fuel
    (apply_task (link_get {| link_resolve := VFun (Resolver d);
                             link_reject := VFun (Rejector d);
                             link_promise := VPromise d |} op) v) w =
    Ok tt (set_tasks (fun ts => ts ++
             map (fun a => dispatch_task d a op v) (queue_of w d))
           (record_outcome d (op, v) w)).
Proof.
  intros Hd Hs Hv. cbn [run_task]. unfold bind at 1.
  destruct op; cbn [link_get link_resolve link_reject];
    [rewrite call_resolver; unfold bind;
     rewrite (settle_plain fuel d (op_resolve, v) w Hd Hs Hv)
    |rewrite call_rejector; unfold bind;
     rewrite (settle_plain fuel d (op_reject, v) w Hd Hs Hv)];
    done.
Qed.

Lemma then_args_pass_through (p d : pid) (f g : value) (op : operation) (v : value) :
  is_function f = false ->
  is_function g = false ->
  dispatch_task p (then_args d f g) op v =
    apply_task (link_get {| link_resolve := VFun (Resolver d);
                            link_reject := VFun (Rejector d);
                            link_promise := VPromise d |} op) v.
Proof.
  intros Hf Hg. unfold dispatch_task, then_args. rewrite Hf, Hg.
  by destruct op.
Qed.

Lemma grown_old (w : world) (p : pid) :
  (p < length (heap w))%nat ->
  status_of (grown w) p = status_of w p /\
  fate_of (grown w) p = fate_of w p /\
  queue_of (grown w) p = queue_of w p.
Proof.
  intros Hp. unfold status_of, fate_of, queue_of; simpl.
  by rewrite lookup_total_app_l.
Qed.

Lemma grown_fresh (w : world) :
  status_of (grown w) (length (heap w)) = PENDING /\
  queue_of (grown w) (length (heap w)) = [] /\
  (length (heap w) < length (heap (grown w)))%nat.
Proof.
  unfold status_of, queue_of; simpl.
  rewrite list_lookup_total_middle by done. rewrite length_app. simpl.
  repeat split; lia.
Qed.

(** [then] on a Promise settled with an ordinary fate, followed by the
    callback of the new Promise's producer. *)
Lemma then_on_settled (fuel : nat) (w : world) (p : pid) (f g : value)
    (op : operation) :
  (p < length (heap w))%nat ->
  status_of w p = settled_as op ->
  is_promise (fate_of w p) = false ->
  step handlers fuel (length (tasks w)) (exec (Promise_then p f g) w) =
    Some (set_tasks (fun ts => ts ++
            [dispatch_task p (then_args (length (heap w)) f g) op (fate_of w p)])
          (grown w)).
Proof.
  intros Hp Hs Hf. rewrite exec_then.
  rewrite (step_last fuel _ (tasks w) (producer_task (length (heap w))
            (then_producer p f g))) by done.
  change (set_tasks _ (with_new_promise _ w)) with (grown w).
  destruct (grown_old w p Hp) as (Hs' & Hf' & _).
  rewrite (run_then_producer fuel p _ p).
  - unfold deliver. rewrite Hs', Hf', Hs. by destruct op.
  - apply anchor_plain. by rewrite Hf'.
Qed.

(** [then] on a pending Promise, followed by the callback of the new
    Promise's producer. *)
Lemma then_on_pending (fuel : nat) (w : world) (p : pid) (f g : value) :
  (p < length (heap w))%nat ->
  status_of w p = PENDING ->
  step handlers fuel (length (tasks w)) (exec (Promise_then p f g) w) =
    Some (set_heap (alter (push (then_args (length (heap w)) f g)) p) (grown w)).
Proof.
  intros Hp Hs. rewrite exec_then.
  rewrite (step_last fuel _ (tasks w) (producer_task (length (heap w))
            (then_producer p f g))) by done.
  change (set_tasks _ (with_new_promise _ w)) with (grown w).
  destruct (grown_old w p Hp) as (Hs' & _).
  rewrite (run_then_producer fuel p _ p).
  - unfold deliver. by rewrite Hs', Hs.
  - destruct fuel; simpl; by rewrite Hs', Hs.
Qed.

(** ** C7 *)

(** [then] with a throwing handler on a Promise settled with an ordinary
    outcome, followed by the two callbacks it leads to. *)
Lemma then_handler_throws (fuel : nat) (w : world) (p : pid) (f g : value)
    (op : operation) (h : nat) (ex : value) :
  (p < length (heap w))%nat ->
  status_of w p = settled_as op ->
  is_promise (fate_of w p) = false ->
  args_get (then_args (length (heap w)) f g) op = VFun (Handler h) ->
  handlers h (fate_of w p) = Throws ex ->
  exists w2,
    run_schedule handlers fuel [length (tasks w); length (tasks w)]
      (exec (Promise_then p f g) w) = Some w2 /\
    status_of w2 (length (heap w)) = REJECTED /\
    fate_of w2 (length (heap w)) = ex /\
    log w2 = log w ++ [(h, fate_of w p)].
Proof.
  intros Hp Hs Hf Hh Hthrow. cbn [run_schedule].
  rewrite (then_on_settled fuel w p f g op Hp Hs Hf).
  unfold dispatch_task. rewrite Hh. cbn [is_function].
  erewrite (step_last fuel _ (tasks w)) by done.
  change (set_tasks (fun _ => tasks w) (set_tasks _ (grown w))) with (grown w).
  destruct (grown_old w p Hp) as (_ & Hfg & _).
  destruct (grown_fresh w) as (Hsd & Hqd & Hd).
  destruct (throwing_handler_task fuel (grown w) p (length (heap w))
              (then_args (length (heap w)) f g) op h ex)
    as [Hends Hret]; try done.
  { by rewrite Hfg. }
  destruct Hret as [w1 Hw1]; [by right|].
  rewrite Hw1 in Hends |- *. simpl in Hends.
  exists w1. rewrite Hfg in Hends. by destruct Hends as (? & ? & ?).
Qed.

(** C7: when the handler of a reaction throws in the callback that
    dispatches it, the exception is caught and the downstream Promise, whose
    [rejector] the reaction carries and which is still pending, is rejected
    with the thrown value; the callback returns whenever the thrown value is
    not a Promise or the downstream Promise has no reaction yet.  So [then]
    with a throwing handler on a settled Promise, followed by the callback of
    its producer and the callback of the reaction, leaves the Promise it
    returned rejected with the thrown value. *)
Theorem handler_failure_rejects_downstream (fuel : nat) :
  (forall (w : world) (p d : pid) (a : args) (op : operation) (h : nat)
          (ex : value),
     link_reject (args_link a) = VFun (Rejector d) ->
     args_get a op = VFun (Handler h) ->
     handlers h (fate_of w p) = Throws ex ->
     (d < length (heap w))%nat ->
     status_of w d = PENDING ->
     ends_in (fun w1 => status_of w1 d = REJECTED /\ fate_of w1 d = ex /\
                        log w1 = log w ++ [(h, fate_of w p)])
             (run_task handlers fuel (handler_task p a op) w) /\
     (is_promise ex = false \/ queue_of w d = [] ->
      exists w1, run_task handlers fuel (handler_task p a op) w = Ok tt w1)) /\
  (forall (w : world) (p : pid) (f g : value) (op : operation) (h : nat)
          (ex : value),
     (p < length (heap w))%nat ->
     status_of w p = settled_as op ->
     is_promise (fate_of w p) = false ->
     args_get (then_args (length (heap w)) f g) op = VFun (Handler h) ->
     handlers h (fate_of w p) = Throws ex ->
     exists w2,
       run_schedule handlers fuel [length (tasks w); length (tasks w)]
         (exec (Promise_then p f g) w) = Some w2 /\
       status_of w2 (length (heap w)) = REJECTED /\
       fate_of w2 (length (heap w)) = ex /\
       log w2 = log w ++ [(h, fate_of w p)]).
Proof.
  split.
  - intros w p d a op h ex. apply throwing_handler_task.
  - intros w p f g op h ex. apply then_handler_throws.
Qed.

(** ** C8 *)

(** C8, amended: [then] with no callable handler on a Promise whose
    outcome is not itself a Promise yields a downstream Promise that is
    settled with the same value under the same operation, whether the
    reaction was attached after the source settled or while it was
    pending. *)
Theorem then_without_handlers_passes_through (fuel : nat) (w : world) (p : pid)
    (f g : value) :
  (p < length (heap w))%nat ->
  is_function f = false ->
  is_function g = false ->
  (forall op, status_of w p = settled_as op -> is_promise (fate_of w p) = false ->
   exists w2,
     run_schedule handlers fuel [length (tasks w); length (tasks w)]
       (exec (Promise_then p f g) w) = Some w2 /\
     settles_identically w2 p (length (heap w)) /\
     status_of w2 (length (heap w)) = settled_as op /\
     fate_of w2 (length (heap w)) = fate_of w p) /\
  (forall c, status_of w p = PENDING -> is_promise (snd c) = false ->
   exists w1 w2 w3,
     step handlers fuel (length (tasks w)) (exec (Promise_then p f g) w) = Some w1 /\
     settle (chain fuel) p c w1 = Ok tt w2 /\
     step handlers fuel (length (tasks w) + length (queue_of w p)) w2 = Some w3 /\
     settles_identically w3 p (length (heap w)) /\
     status_of w3 (length (heap w)) = settled_as (fst c) /\
     fate_of w3 (length (heap w)) = snd c).
Proof.
  intros Hp Hnf Hng.
  assert (Hne : (length (heap w)) <> p) by lia.
  destruct (grown_old w p Hp) as (Hsg & Hfg & Hqg).
  destruct (grown_fresh w) as (Hsd & Hqd & Hd).
  split.
  - intros op Hs Hf. cbn [run_schedule].
    rewrite (then_on_settled fuel w p f g op Hp Hs Hf).
    rewrite (then_args_pass_through p _ f g op _ Hnf Hng).
    erewrite (step_last fuel _ (tasks w)) by done.
    change (set_tasks (fun _ => tasks w) (set_tasks _ (grown w))) with (grown w).
    rewrite (run_settler fuel (length (heap w)) op (fate_of w p) (grown w) Hd Hsd Hf).
    eexists. split; [done|].
    destruct (record_outcome_other (grown w) (length (heap w)) p (op, fate_of w p) Hne)
      as [Hsp Hfp].
    unfold settles_identically.
    change (status_of (set_tasks ?f ?x)) with (status_of x).
    change (fate_of (set_tasks ?f ?x)) with (fate_of x).
    rewrite Hsp, Hfp, Hsg, Hfg, status_of_record, fate_of_record by done.
    by rewrite Hs.
  - intros c Hs Hc.
    set (a := then_args (length (heap w)) f g).
    set (w1 := set_heap (alter (push a) p) (grown w)).
    assert (Hp1 : (p < length (heap w1))%nat).
    { subst w1; simpl. rewrite length_alter, length_app. lia. }
    assert (Hs1 : status_of w1 p = PENDING).
    { subst w1. rewrite status_of_alter by done. congruence. }
    assert (Hq1 : queue_of w1 p = queue_of w p ++ [a]).
    { subst w1. rewrite queue_of_push, Hqg. case_decide as Hx; [done|].
      exfalso. apply Hx. split; [done|]. simpl. rewrite length_app. lia. }
    set (before := tasks w ++
      map (fun a' => dispatch_task p a' (fst c) (snd c)) (queue_of w p)).
    set (w2 := set_tasks (fun ts => ts ++
                 map (fun a' => dispatch_task p a' (fst c) (snd c)) (queue_of w1 p))
               (record_outcome p c w1)).
    assert (Ht2 : tasks w2 = before ++
      [apply_task (link_get {| link_resolve := VFun (Resolver (length (heap w)));
                               link_reject := VFun (Rejector (length (heap w)));
                               link_promise := VPromise (length (heap w)) |} (fst c)) (snd c)]).
    { subst w2 before. cbn [tasks set_tasks]. rewrite Hq1, map_app. simpl.
      subst a. rewrite (then_args_pass_through p (length (heap w)) f g _ _ Hnf Hng).
      by rewrite <- app_assoc. }
    set (w2' := set_tasks (fun _ => before) w2).
    assert (Hd2 : ((length (heap w)) < length (heap w2'))%nat).
    { subst w2' w2 w1. unfold record_outcome. simpl.
      rewrite !length_alter. apply Hd. }
    assert (Hsd2 : status_of w2' (length (heap w)) = PENDING).
    { subst w2' w2.
      change (status_of (set_tasks ?f (set_tasks ?g ?x))) with (status_of x).
      destruct (record_outcome_other w1 p (length (heap w)) c) as [-> _]; [congruence|].
      subst w1. by rewrite status_of_alter. }
    exists w1, w2. eexists. repeat split.
    + by apply then_on_pending.
    + by apply settle_plain.
    + replace (length (tasks w) + length (queue_of w p))%nat with (length before)
        by (subst before; by rewrite length_app, length_map).
      rewrite (step_last fuel w2 before _ Ht2).
      fold w2'. by rewrite (run_settler fuel (length (heap w)) (fst c) (snd c) w2' Hd2 Hsd2 Hc).
    + change (status_of (set_tasks ?f ?x)) with (status_of x).
      destruct (record_outcome_other w2' (length (heap w)) p (fst c, snd c) Hne) as [-> _].
      rewrite status_of_record by done.
      subst w2' w2.
      change (status_of (set_tasks ?f (set_tasks ?g ?x))) with (status_of x).
      by rewrite status_of_record.
    + change (fate_of (set_tasks ?f ?x)) with (fate_of x).
      destruct (record_outcome_other w2' (length (heap w)) p (fst c, snd c) Hne) as [_ ->].
      rewrite fate_of_record by done.
      subst w2' w2.
      change (fate_of (set_tasks ?f (set_tasks ?g ?x))) with (fate_of x).
      by rewrite fate_of_record.
    + change (status_of (set_tasks ?f ?x)) with (status_of x).
      by rewrite status_of_record.
    + change (fate_of (set_tasks ?f ?x)) with (fate_of x).
      by rewrite fate_of_record.
Qed.

(** ** C10 *)

(** A rejection handler attached to a Promise that was rejected with a
    fulfilled Promise is not called: the downstream Promise is fulfilled. *)
Lemma rejection_becomes_fulfilment (fuel : nat) (w : world) (p q d : pid)
    (g v : value) :
  status_of w p = REJECTED ->
  fate_of w p = VPromise q ->
  status_of w q = RESOLVED ->
  fate_of w q = v ->
  is_promise v = false ->
  (d < length (heap w))%nat ->
  status_of w d = PENDING ->
  exists w1 w2,
    chain (S fuel) p (catch_args d g) w = Ok tt w1 /\
    tasks w1 = tasks w ++ [apply_task (VFun (Resolver d)) v] /\
    step handlers fuel (length (tasks w)) w1 = Some w2 /\
    status_of w2 d = RESOLVED /\ fate_of w2 d = v /\ log w2 = log w.
Proof.
  intros Hsp Hfp Hsq Hfq Hv Hd Hsd.
  assert (Ha : anchor (S fuel) w p = Some q).
  { simpl. rewrite Hsp, Hfp. apply anchor_plain. by rewrite Hfq. }
  rewrite (chain_delivers (S fuel) p q _ w (catch_args_valid d g) Ha).
  unfold deliver. rewrite Hsq, Hfq.
  change (dispatch_task q (catch_args d g) op_resolve v)
    with (apply_task (link_get {| link_resolve := VFun (Resolver d);
                                  link_reject := VFun (Rejector d);
                                  link_promise := VPromise d |} op_resolve) v).
  eexists. eexists. split; [done|]. split; [done|].
  erewrite (step_last fuel _ (tasks w)) by done.
  change (set_tasks (fun _ => tasks w) (set_tasks _ w)) with
    (set_tasks (fun _ => tasks w) w).
  assert (Hw : set_tasks (fun _ => tasks w) w = w) by (by destruct w).
  rewrite Hw.
  rewrite (run_settler fuel d op_resolve v w Hd Hsd Hv).
  split; [done|].
  change (status_of (set_tasks ?f ?x)) with (status_of x).
  change (fate_of (set_tasks ?f ?x)) with (fate_of x).
  by rewrite status_of_record, fate_of_record.
Qed.

(** C10: [rejector] called with a Promise [q] on the pending Promise [p]
    records [q] as the fate under the status [REJECTED], and dispatch hands
    every reaction to [q] without looking at that status: the reactions join
    the queue of a pending [q] and are dispatched with the operation and
    outcome of [q], so with its fulfilment handlers when [q] is fulfilled.  A
    rejection handler attached to [p] is then never called with [q]: its
    downstream Promise is fulfilled with the value of [q]. *)
Theorem promise_valued_rejection_forwards (fuel : nat) (w : world) (p q : pid) :
  (p < length (heap w))%nat ->
  status_of w p = PENDING ->
  ends_in (fun w1 => status_of w1 p = REJECTED /\ fate_of w1 p = VPromise q)
          (rejector (chain fuel) p (VPromise q) w) /\
  ((q < length (heap w))%nat -> p <> q -> status_of w q = PENDING ->
   Forall (fun a => valid a = true) (queue_of w p) ->
   exists w1,
     rejector (chain fuel) p (VPromise q) w = Ok tt w1 /\
     status_of w1 p = REJECTED /\ fate_of w1 p = VPromise q /\
     status_of w1 q = PENDING /\
     queue_of w1 q = queue_of w q ++ queue_of w p /\
     tasks w1 = tasks w /\ log w1 = log w /\
     forall fuel' v, is_promise v = false ->
       exists w2,
         resolver (chain fuel') q v w1 = Ok tt w2 /\
         tasks w2 = tasks w ++
           map (fun a => dispatch_task q a op_resolve v)
               (queue_of w q ++ queue_of w p) /\
         log w2 = log w) /\
  (forall w1 a, valid a = true ->
     status_of w1 p = REJECTED -> fate_of w1 p = VPromise q ->
     chain (S fuel) p a w1 = chain fuel q a w1) /\
  (forall w1 d g v,
     status_of w1 p = REJECTED -> fate_of w1 p = VPromise q ->
     status_of w1 q = RESOLVED -> fate_of w1 q = v -> is_promise v = false ->
     (d < length (heap w1))%nat -> status_of w1 d = PENDING ->
     exists w2 w3,
       chain (S fuel) p (catch_args d g) w1 = Ok tt w2 /\
       tasks w2 = tasks w1 ++ [apply_task (VFun (Resolver d)) v] /\
       step handlers fuel (length (tasks w1)) w2 = Some w3 /\
       status_of w3 d = RESOLVED /\ fate_of w3 d = v /\ log w3 = log w1).
Proof.
  intros Hp Hs.
  destruct (nested_settlement fuel w p q op_reject Hp Hs) as (H1 & H2 & H3).
  split; [exact H1|]. split; [|split; [exact H3|]].
  - intros Hq Hne Hsq Hv.
    destruct (H2 Hq Hne Hsq Hv) as (w1 & Hw1 & ? & ? & ? & ? & ? & ? & Hlater).
    exists w1. repeat split; try done.
    intros fuel' v Hvp. exact (Hlater fuel' (op_resolve, v) Hvp).
  - intros w1 d g v. apply rejection_becomes_fulfilment.
Qed.

(** ** Reports to [Promise.all] *)

Lemma alter_fixed {A} (f : A -> A) (l : list A) (i : nat) :
  (forall x, l !! i = Some x -> f x = x) -> alter f i l = l.
Proof.
  intros Hf. rewrite (list_alter_ext f (fun x => x) l l i Hf eq_refl).
  by apply list_alter_id.
Qed.

(** Fewer fulfilments than [remaining] only fill [results]. *)
Lemma notify_fulfilments (ch : chain_fn) (c : nat) (pre : list notice) (w : world) :
  forallb is_fulfilled pre = true ->
  (c < length (cells w))%nat ->
  Z.of_nat (length pre) < remaining (cells w !!! c) ->
  exists w1,
    notify_all ch c pre w = Ok tt w1 /\
    heap w1 = heap w /\ tasks w1 = tasks w /\ log w1 = log w /\
    (c < length (cells w1))%nat /\
    all_owner (cells w1 !!! c) = all_owner (cells w !!! c).
Proof.
  revert w. induction pre as [|n rest IH]; intros w Hpre Hc Hlen.
  - exists w. by repeat split.
  - destruct n as [index v|]; [|done]. simpl in Hpre.
    cbn [notify_all notify]. unfold bind at 1. unfold all_resolved.
    destruct (all_status (cells w !!! c)) eqn:Hst.
    + unfold bind, update_cell, modify.
      set (w' := set_cells (alter (set_remaining _) c) (set_cells _ w)).
      assert (Hcell : cells w' !!! c =
        set_remaining (fun r => r - 1)
          (set_results (array_set index v) (cells w !!! c))).
      { subst w'. simpl.
        rewrite list_lookup_total_alter_eq by (by rewrite length_alter).
        by rewrite list_lookup_total_alter_eq. }
      assert (Hc' : (c < length (cells w'))%nat).
      { subst w'. simpl. by rewrite !length_alter. }
      assert (Hrem : remaining (cells w' !!! c) = remaining (cells w !!! c) - 1)
        by (by rewrite Hcell).
      simpl length in Hlen.
      destruct (Z.eqb_spec (remaining (cells w' !!! c)) 0) as [H0|_]; [lia|].
      destruct (IH w' Hpre Hc') as (w1 & -> & Hh & Ht & Hl & Hc1 & Ho); [lia|].
      exists w1. repeat split; try done. by rewrite Ho, Hcell.
    + destruct (IH w Hpre Hc) as (w1 & -> & ?); [simpl length in Hlen; lia|].
      by exists w1.
Qed.

(** Once [status] is [false] and the result is settled, a notice changes
    nothing. *)
Lemma notify_after_rejection (ch : chain_fn) (c : nat) (post : list notice)
    (w : world) :
  all_status (cells w !!! c) = false ->
  status_of w (all_owner (cells w !!! c)) <> PENDING ->
  notify_all ch c post w = Ok tt w.
Proof.
  intros Hst Hs. induction post as [|n rest IH]; [done|].
  cbn [notify_all]. unfold bind.
  assert (Hn : notify ch c n w = Ok tt w); [|by rewrite Hn].
  destruct n as [index v|reason]; cbn [notify].
  - unfold all_resolved. by rewrite Hst.
  - unfold all_rejected, bind, update_cell, modify.
    assert (Hw : set_cells (alter (set_all_status false) c) w = w).
    { destruct w as [h cs ts l]. unfold set_cells; simpl. f_equal.
      apply alter_fixed. intros x Hx.
      simpl in Hst. rewrite (list_lookup_total_correct _ _ _ Hx) in Hst.
      destruct x; simpl in *. by subst. }
    rewrite Hw. unfold rejector. by destruct (status_of w _).
Qed.

(** The first rejection reason that reaches the rejection handler of a
    [Promise.all] call settles the result; later reports change nothing. *)
Lemma first_rejection_settles (fuel : nat) (w : world) (c : nat)
    (pre post : list notice) (reason : value) :
  (c < length (cells w))%nat ->
  (all_owner (cells w !!! c) < length (heap w))%nat ->
  status_of w (all_owner (cells w !!! c)) = PENDING ->
  forallb is_fulfilled pre = true ->
  Z.of_nat (length pre) < remaining (cells w !!! c) ->
  is_promise reason = false ->
  exists w1,
    notify_all (chain fuel) c (pre ++ [rejected reason]) w = Ok tt w1 /\
    status_of w1 (all_owner (cells w !!! c)) = REJECTED /\
    fate_of w1 (all_owner (cells w !!! c)) = reason /\
    forall fuel', notify_all (chain fuel') c post w1 = Ok tt w1.
Proof.
  intros Hc Ho Hs Hpre Hlen Hr.
  destruct (notify_fulfilments (chain fuel) c pre w Hpre Hc Hlen)
    as (w0 & Hw0 & Hh & Ht & Hl & Hc0 & Ho0).
  set (owner := all_owner (cells w !!! c)) in *.
  set (w0' := set_cells (alter (set_all_status false) c) w0).
  assert (Hcell : cells w0' !!! c = set_all_status false (cells w0 !!! c)).
  { subst w0'. simpl. by rewrite list_lookup_total_alter_eq. }
  assert (Hown : all_owner (cells w0' !!! c) = owner) by (by rewrite Hcell).
  assert (Ho' : (owner < length (heap w0'))%nat) by (subst w0'; simpl; congruence).
  assert (Hs' : status_of w0' owner = PENDING).
  { subst w0'. unfold status_of in *. simpl. by rewrite Hh. }
  pose proof (settle_plain fuel owner (op_reject, reason) w0' Ho' Hs' Hr) as Hrej.
  cbn [settle fst snd] in Hrej.
  eexists. split; [|split; [|split]].
  - assert (Happ : forall ns w', notify_all (chain fuel) c ns w = Ok tt w' ->
        notify_all (chain fuel) c (ns ++ [rejected reason]) w =
        notify (chain fuel) c (rejected reason) w').
    { clear. intros ns. revert w. induction ns as [|n rest IH]; intros w w' H.
      - simpl in *. unfold ret in H. simplify_eq. unfold bind.
        by destruct (all_rejected _ _ _ _) as [[]| |].
      - simpl in *. unfold bind in *.
        destruct (notify (chain fuel) c n w) as [[] w2| |]; try done.
        by apply IH. }
    rewrite (Happ pre w0 Hw0). cbn [notify]. unfold all_rejected, bind.
    unfold update_cell, modify. fold w0'. rewrite Hown. exact Hrej.
  - change (status_of (set_tasks ?f ?x)) with (status_of x).
    by rewrite status_of_record.
  - change (fate_of (set_tasks ?f ?x)) with (fate_of x).
    by rewrite fate_of_record.
  - intros fuel'. apply notify_after_rejection.
    + change (cells (set_tasks ?f (record_outcome ?p ?c ?x))) with (cells x).
      by rewrite Hcell.
    + change (cells (set_tasks ?f (record_outcome ?p ?c ?x))) with (cells x).
      rewrite Hown.
      change (status_of (set_tasks ?f ?x)) with (status_of x).
      by rewrite status_of_record.
Qed.

(** ** C3 and C4 *)

Lemma exec_all (iterable : list value) (w : world) :
  exec (Promise_all iterable) w = with_new_promise (all_producer iterable) w.
Proof. done. Qed.

(** C3: [Promise.all] of an empty sequence schedules only its own
    producer, and that producer returns without calling either settlement
    function: the result stays pending, and in a world with nothing else to
    run no callback is left that could settle it. *)
Theorem all_of_empty_stays_pending (fuel : nat) (w : world) :
  (exists w1,
     step handlers fuel (length (tasks w)) (exec (Promise_all []) w) = Some w1 /\
     status_of w1 (length (heap w)) = PENDING /\
     tasks w1 = tasks w /\ log w1 = log w) /\
  (tasks w = [] ->
   forall n, exists w1,
     run handlers fuel (S n) (exec (Promise_all []) w) = Some w1 /\
     tasks w1 = [] /\ status_of w1 (length (heap w)) = PENDING).
Proof.
  assert (Hstep : exists w1,
    step handlers fuel (length (tasks w)) (exec (Promise_all []) w) = Some w1 /\
    status_of w1 (length (heap w)) = PENDING /\
    tasks w1 = tasks w /\ log w1 = log w).
  { rewrite exec_all.
    rewrite (step_last fuel _ (tasks w) (producer_task (length (heap w))
              (all_producer []))) by done.
    change (set_tasks _ (with_new_promise _ w)) with (grown w).
    cbn. eexists. split; [done|]. repeat split.
    apply (grown_fresh w). }
  split; [exact Hstep|].
  intros Hquiet n. destruct Hstep as (w1 & Hs & Hp & Ht & _).
  rewrite Hquiet in Hs, Ht. exists w1.
  cbn [run]. rewrite exec_all. cbn [tasks with_new_promise set_tasks set_heap].
  rewrite Hquiet. cbn [app]. rewrite exec_all in Hs. cbn [length] in Hs.
  rewrite Hs. split; [|done]. destruct n; simpl; by rewrite ?Ht.
Qed.


Lemma call_then_plain (v f g : value) (w : world) :
  has_then v = false ->
  call_then v f g w = Throw (VTypeError "then is not a function") w.
Proof. by destruct v. Qed.

Lemma new_promise_length (func : producer) (w : world) :
  length (heap (with_new_promise func w)) = S (length (heap w)).
Proof. simpl. rewrite length_app. simpl. lia. Qed.

(** One round of the loop of [Promise.all] on a value it wraps. *)
Lemma all_each_wraps (c : nat) (v : value) (index : nat) (w : world) :
  plain_truthy v = false ->
  all_each c v index w =
    Ok tt (with_new_promise
             (then_producer (length (heap w)) (VFun (AllResolved c index))
                (VFun (AllRejected c)))
             (with_new_promise (resolve_producer v) w)).
Proof.
  intros Hv. unfold all_each. fold (plain_truthy v). rewrite Hv.
  unfold with_new_promise. cbn. rewrite length_app. simpl.
  by rewrite Nat.add_1_r.
Qed.

(** The loop of [Promise.all] stops with a [TypeError] at the first truthy
    value that has no [then]; until then it only creates Promises. *)
Lemma forEach_all_each (c : nat) (p : pid) (iterable : list value) (index : nat)
    (w : world) :
  (p < length (heap w))%nat ->
  status_of w p = PENDING ->
  match forEach (all_each c) iterable index w with
  | Ok _ w1 =>
      existsb plain_truthy iterable = false /\
      (p < length (heap w1))%nat /\ status_of w1 p = PENDING
  | Throw ex w1 =>
      existsb plain_truthy iterable = true /\
      ex = VTypeError "then is not a function" /\
      (p < length (heap w1))%nat /\ status_of w1 p = PENDING
  | OutOfFuel => False
  end.
Proof.
  revert index w. induction iterable as [|v rest IH]; intros index w Hp Hs.
  - by simpl.
  - cbn [forEach existsb]. unfold bind at 1.
    destruct (plain_truthy v) eqn:Hv.
    + unfold all_each, bind at 1. fold (plain_truthy v). rewrite Hv.
      unfold ret. unfold bind at 1. rewrite call_then_plain.
      * by simpl.
      * unfold plain_truthy in Hv. apply andb_true_iff in Hv as [_ Hv].
        by apply negb_true_iff in Hv.
    + rewrite (all_each_wraps c v index w Hv).
      apply IH.
      * rewrite !new_promise_length. lia.
      * destruct (new_promise_old
          (then_producer (length (heap w)) (VFun (AllResolved c index))
             (VFun (AllRejected c)))
          (with_new_promise (resolve_producer v) w) p) as [-> _].
        { rewrite new_promise_length. lia. }
        by destruct (new_promise_old (resolve_producer v) w p Hp) as [-> _].
Qed.

(** C4, at the failing inputs: when the input list holds a truthy value
    without a [then] method, such as a number, the producer of [Promise.all]
    calls [then] on the value itself; the [TypeError] is caught by the
    constructor and rejects the result. *)
Theorem all_rejects_plain_values (fuel : nat) (w : world) (iterable : list value) :
  existsb plain_truthy iterable = true ->
  exists w1,
    step handlers fuel (length (tasks w)) (exec (Promise_all iterable) w) = Some w1 /\
    status_of w1 (length (heap w)) = REJECTED /\
    fate_of w1 (length (heap w)) = VTypeError "then is not a function".
Proof.
  intros Hex. rewrite exec_all.
  rewrite (step_last fuel _ (tasks w) (producer_task (length (heap w))
            (all_producer iterable))) by done.
  change (set_tasks _ (with_new_promise _ w)) with (grown w).
  destruct (grown_fresh w) as (Hs & _ & Hlt).
  cbn [run_task run_producer]. unfold try_catch, bind, modify.
  set (w0 := set_cells _ (grown w)).
  pose proof (forEach_all_each (length (cells (grown w))) (length (heap w))
                iterable 0 w0 Hlt Hs) as Hloop.
  destruct (forEach _ _ _ _) as [[] w1|ex w1|]; [|clear Hex|done].
  - destruct Hloop as [Hno _]. congruence.
  - destruct Hloop as (_ & -> & Hlt1 & Hs1).
    pose proof (settle_plain fuel (length (heap w))
      (op_reject, VTypeError "then is not a function") w1 Hlt1 Hs1 eq_refl) as Hr.
    cbn [settle fst snd] in Hr. rewrite Hr.
    eexists. split; [done|].
    change (status_of (set_tasks ?f ?x)) with (status_of x).
    change (fate_of (set_tasks ?f ?x)) with (fate_of x).
    by rewrite status_of_record, fate_of_record.
Qed.

(** ** C6 *)

Lemma chain_valid_returns (fuel : nat) (p : pid) (a : args) (w : world) :
  valid a = true ->
  forall ex w1, chain fuel p a w <> Throw ex w1.
Proof.
  intros Hv. revert p. induction fuel as [|k IH]; intros p ex w1; simpl;
    unfold bind; rewrite (validate_valid a w Hv); unfold envoy;
    destruct (status_of w p); try done;
    destruct (fate_of w p); try done;
    try (by destruct (is_function _)); apply IH.
Qed.

(** C6, amended: [then] and [catch] never raise an error for a handler
    that is not callable.  They return the new Promise, and the reaction
    their producer attaches carries [null] in place of such a handler, so
    every guard of [chain] passes and attaching never throws.  An error is
    raised at once, leaving the world as it was, only when [chain] itself is
    called with a reaction that fails one of its guards. *)
Theorem non_callable_handlers_are_dropped (fuel : nat) (w : world) (p : pid)
    (f g : value) :
  (exists d w1, Promise_then p f g w = Ok (VPromise d) w1 /\
     tasks w1 = tasks w ++ [producer_task d (then_producer p f g)] /\
     log w1 = log w) /\
  (exists d w1, Promise_catch p g w = Ok (VPromise d) w1 /\
     tasks w1 = tasks w ++ [producer_task d (catch_producer p g)] /\
     log w1 = log w) /\
  (forall d,
     (is_function f = false -> args_resolve (then_args d f g) = VNull) /\
     (is_function g = false -> args_reject (then_args d f g) = VNull /\
                               args_reject (catch_args d g) = VNull) /\
     valid (then_args d f g) = true /\ valid (catch_args d g) = true /\
     (forall w' ex w1, chain fuel p (then_args d f g) w' <> Throw ex w1) /\
     (forall w' ex w1, chain fuel p (catch_args d g) w' <> Throw ex w1)) /\
  (forall a, valid a = false ->
     exists msg, chain fuel p a w = Throw (VTypeError msg) w).
Proof.
  split; [by eexists _, _|]. split; [by eexists _, _|]. split.
  - intros d. split; [|split; [|split; [|split; [|split]]]].
    + intros Hf. unfold then_args; simpl. by rewrite Hf.
    + intros Hg. unfold then_args, catch_args; simpl. by rewrite Hg.
    + apply then_args_valid.
    + apply catch_args_valid.
    + intros w'. apply chain_valid_returns, then_args_valid.
    + intros w'. apply chain_valid_returns, catch_args_valid.
  - intros a Ha.
    destruct (validate_cases a w) as [[_ ?]|[[msg Hmsg] _]]; [congruence|].
    exists msg. destruct fuel; simpl; unfold bind; by rewrite Hmsg.
Qed.

End Facts.

(** * [Promise.all] from the call to quiescence *)

Section AllOfSettled.

Open Scope nat_scope.

Variable handlers : nat -> value -> result.

Lemma step_head (fuel : nat) (w : world) (t : task) (rest : list task) :
  tasks w = t :: rest ->
  step handlers fuel 0 w =
    match run_task handlers fuel t (set_tasks (fun _ => rest) w) with
    | Ok _ w' => Some w'
    | Throw _ w' => Some w'
    | OutOfFuel => None
    end.
Proof.
  intros Ht. unfold step. rewrite Ht. simpl.
  replace (set_tasks (delete 0) w) with (set_tasks (fun _ => rest) w); [done|].
  unfold set_tasks. by rewrite Ht.
Qed.

Lemma run_S (fuel n : nat) (w : world) (t : task) (rest : list task) :
  tasks w = t :: rest ->
  run handlers fuel (S n) w =
    match step handlers fuel 0 w with
    | Some w' => run handlers fuel n w'
    | None => None
    end.
Proof. intros Ht. simpl. by rewrite Ht. Qed.

Lemma run_add (fuel a b : nat) (w : world) :
  run handlers fuel (a + b) w =
    match run handlers fuel a w with
    | Some w' => run handlers fuel b w'
    | None => None
    end.
Proof.
  revert w. induction a as [|a IH]; intros w; [done|].
  simpl. destruct (tasks w) eqn:Ht.
  - destruct b; simpl; by rewrite ?Ht.
  - destruct (step handlers fuel 0 w); [apply IH|done].
Qed.

(** The producer of [Promise.resolve(i)] for a Promise [i]. *)
Lemma run_resolve_producer (fuel : nat) (p i : pid) (w : world) :
  run_task handlers fuel (producer_task p (resolve_producer (VPromise i))) w =
    Ok tt (with_new_promise
             (then_producer i (VFun (Resolver p)) (VFun (Rejector p))) w).
Proof. done. Qed.

(** *** The loop of [Promise.all] *)

Lemma forEach_subscribes (c : nat) (ins : list pid) (index : nat) (w : world) :
  forEach (all_each c) (map VPromise ins) index w =
    Ok tt (subscribed c ins index w).
Proof.
  revert index w. induction ins as [|i rest IH]; intros index w; [done|].
  cbn [map forEach subscribed]. unfold bind.
  rewrite (all_each_wraps c (VPromise i) index w eq_refl).
  replace (length (heap (with_new_promise (resolve_producer (VPromise i)) w)))
    with (S (length (heap w))) by (by rewrite new_promise_length).
  rewrite IH. do 3 f_equal.
Qed.

Lemma subscribed_heap (c : nat) (ins : list pid) (index : nat) (w : world) :
  heap (subscribed c ins index w) =
    heap w ++ replicate (2 * length ins) fresh_promise.
Proof.
  revert index w. induction ins as [|i rest IH]; intros index w.
  - simpl. by rewrite app_nil_r.
  - cbn [subscribed]. rewrite IH. simpl.
    rewrite <- !app_assoc. simpl. do 3 f_equal.
    replace (length rest + S (length rest + 0))
      with (S (2 * length rest)) by lia.
    done.
Qed.

Lemma subscribed_tasks (c : nat) (ins : list pid) (index : nat) (w : world) :
  tasks (subscribed c ins index w) =
    tasks w ++ subscribe_tasks c ins index (length (heap w)).
Proof.
  revert index w. induction ins as [|i rest IH]; intros index w.
  - simpl. by rewrite app_nil_r.
  - cbn [subscribed subscribe_tasks]. rewrite IH. simpl.
    rewrite <- !app_assoc. simpl. rewrite !length_app. simpl.
    replace (length (heap w) + 1) with (S (length (heap w))) by lia.
    replace (length (heap w) + 2) with (S (S (length (heap w)))) by lia.
    done.
Qed.

Lemma subscribed_rest (c : nat) (ins : list pid) (index : nat) (w : world) :
  cells (subscribed c ins index w) = cells w /\
  log (subscribed c ins index w) = log w.
Proof.
  revert index w. induction ins as [|i rest IH]; intros index w; [done|].
  cbn [subscribed]. by destruct (IH (S index) (with_new_promise
    (then_producer (length (heap w)) (VFun (AllResolved c index))
       (VFun (AllRejected c)))
    (with_new_promise (resolve_producer (VPromise i)) w))) as [-> ->].
Qed.

(** *** The producers of the wrappers and of their reactions *)

Lemma phase_subscribe (fuel c : nat) (ins : list pid) (index : nat)
    (wrapper : pid) (w1 : world) (later : list task) :
  tasks w1 = subscribe_tasks c ins index wrapper ++ later ->
  (wrapper + 2 * length ins <= length (heap w1)) ->
  (forall j, (j < length ins) ->
     heap w1 !!! (wrapper + 2 * j) = fresh_promise) ->
  exists w2,
    run handlers fuel (2 * length ins) w1 = Some w2 /\
    tasks w2 = later ++ relay_tasks ins wrapper (length (heap w1)) /\
    length (heap w2) = (length (heap w1) + length ins) /\
    cells w2 = cells w1 /\ log w2 = log w1 /\
    (forall j, (j < length ins) ->
       heap w2 !!! (wrapper + 2 * j) =
         push (all_args c (index + j) (wrapper + 2 * j)) fresh_promise) /\
    (forall j, (j < length ins) ->
       heap w2 !!! (length (heap w1) + j) = fresh_promise) /\
    (forall p, (p < length (heap w1)) ->
       (forall j, (j < length ins) -> p <> (wrapper + 2 * j)) ->
       heap w2 !!! p = heap w1 !!! p).
Proof.
  revert index wrapper w1 later.
  induction ins as [|i rest IH]; intros index wrapper w1 later Ht Hlen Hfresh.
  - exists w1. simpl in *. rewrite app_nil_r. repeat split; try done; lia.
  - cbn [subscribe_tasks] in Ht. simpl in Ht.
    replace (2 * length (i :: rest)) with (S (S (2 * length rest)))
      by (simpl; lia).
    rewrite (run_S fuel _ w1 _ _ Ht), (step_head fuel w1 _ _ Ht).
    rewrite run_resolve_producer.
    set (wa := with_new_promise _ _).
    assert (Hta : tasks wa =
      producer_task (S wrapper)
        (then_producer wrapper (VFun (AllResolved c index)) (VFun (AllRejected c))) ::
      (subscribe_tasks c rest (S index) (S (S wrapper)) ++ later ++
       [producer_task (length (heap w1))
          (then_producer i (VFun (Resolver wrapper)) (VFun (Rejector wrapper)))])).
    { subst wa. simpl. by rewrite <- app_assoc. }
    rewrite (run_S fuel _ wa _ _ Hta), (step_head fuel wa _ _ Hta).
    set (wa' := set_tasks _ wa).
    assert (Hha : heap wa' = heap w1 ++ [fresh_promise]) by done.
    assert (Hta' : tasks wa' =
      subscribe_tasks c rest (S index) (S (S wrapper)) ++ later ++
       [producer_task (length (heap w1))
          (then_producer i (VFun (Resolver wrapper)) (VFun (Rejector wrapper)))])
      by done.
    assert (Hca : cells wa' = cells w1 /\ log wa' = log w1) by done.
    clearbody wa'. clear Hta. clearbody wa.
    assert (Hwrap : heap wa' !!! wrapper = fresh_promise).
    { rewrite Hha, lookup_total_app_l by (simpl in Hlen; lia).
      specialize (Hfresh 0). rewrite Nat.mul_0_r, Nat.add_0_r in Hfresh.
      apply Hfresh. simpl. lia. }
    rewrite (run_then_producer handlers fuel wrapper (S wrapper) wrapper).
    2:{ destruct fuel; simpl; unfold status_of; by rewrite Hwrap. }
    unfold deliver. unfold status_of at 1. rewrite Hwrap. simpl state. cbv iota.
    set (wb := set_heap _ wa').
    assert (Hhb : heap wb =
      alter (push (all_args c index wrapper)) wrapper (heap w1 ++ [fresh_promise])).
    { subst wb. cbn [heap set_heap]. by rewrite Hha. }
    assert (Hlb : length (heap wb) = S (length (heap w1))).
    { rewrite Hhb, length_alter, length_app. simpl. lia. }
    destruct (IH (S index) (S (S wrapper)) wb
                (later ++ [producer_task (length (heap w1))
                   (then_producer i (VFun (Resolver wrapper))
                      (VFun (Rejector wrapper)))]))
      as (w2 & Hrun & Ht2 & Hl2 & Hc2 & Hg2 & Hw2 & Hd2 & Hf2).
    + subst wb. cbn [tasks set_heap]. by rewrite Hta', app_assoc.
    + rewrite Hlb. simpl in Hlen. lia.
    + intros j Hj. rewrite Hhb.
      rewrite list_lookup_total_alter_ne by lia.
      rewrite lookup_total_app_l by (simpl in Hlen; lia).
      specialize (Hfresh (S j)).
      replace (wrapper + 2 * S j) with (S (S wrapper) + 2 * j) in Hfresh
        by lia.
      apply Hfresh. simpl. lia.
    + exists w2. rewrite Hrun. split; [done|].
      assert (Hkeep : forall p, (p < length (heap w1)) ->
                (forall j, (j < length rest) -> p <> (S (S wrapper) + 2 * j)) ->
                p <> wrapper ->
                heap w2 !!! p = heap w1 !!! p).
      { intros p Hp Hne Hne0. rewrite Hf2 by (rewrite ?Hlb; auto).
        rewrite Hhb, list_lookup_total_alter_ne by done.
        by rewrite lookup_total_app_l. }
      split; [|split; [|split; [|split; [|split; [|split]]]]].
      * rewrite Ht2, Hlb. simpl. by rewrite <- app_assoc.
      * rewrite Hl2, Hlb. simpl. lia.
      * rewrite Hc2. subst wb. cbn [cells set_heap]. apply Hca.
      * rewrite Hg2. subst wb. cbn [log set_heap]. apply Hca.
      * intros [|j] Hj.
        -- rewrite Nat.mul_0_r, !Nat.add_0_r.
           rewrite Hf2; [|rewrite Hlb; simpl in Hlen; lia|intros; lia].
           rewrite Hhb, list_lookup_total_alter_eq
             by (rewrite length_app; simpl in *; lia).
           rewrite lookup_total_app_l by (simpl in Hlen; lia).
           specialize (Hfresh 0). rewrite Nat.mul_0_r, Nat.add_0_r in Hfresh.
           rewrite Hfresh by (simpl; lia). done.
        -- replace (wrapper + 2 * S j) with (S (S wrapper) + 2 * j) by lia.
           replace (index + S j) with (S index + j) by lia.
           apply Hw2. simpl in Hj. lia.
      * intros [|j] Hj.
        -- rewrite Nat.add_0_r.
           rewrite Hf2; [|rewrite Hlb; lia|intros; simpl in Hlen; lia].
           rewrite Hhb, list_lookup_total_alter_ne by (simpl in Hlen; lia).
           by rewrite list_lookup_total_middle.
        -- replace (length (heap w1) + S j) with (length (heap wb) + j)
             by (rewrite Hlb; lia).
           apply Hd2. simpl in Hj. lia.
      * intros p Hp Hne. apply Hkeep; [done| |].
        -- intros j Hj. specialize (Hne (S j)). simpl in Hne. 
           intros ->. apply Hne; [lia|]. lia.
        -- specialize (Hne 0). rewrite Nat.mul_0_r, Nat.add_0_r in Hne.
           apply Hne. simpl. lia.
Qed.

(** *** The reactions of the wrappers reach the inputs *)

Lemma phase_relay (fuel : nat) (w0 : world) (ins : list pid)
    (wrapper downstream : pid) (w2 : world) (later : list task) :
  tasks w2 = relay_tasks ins wrapper downstream ++ later ->
  Forall (fun i => heap w2 !!! i = heap w0 !!! i /\ status_of w0 i <> PENDING /\
                   is_promise (fate_of w0 i) = false) ins ->
  run handlers fuel (length ins) w2 =
    Some (set_tasks (fun _ => later ++ input_tasks w0 ins wrapper downstream) w2).
Proof.
  revert wrapper downstream w2 later.
  induction ins as [|i rest IH]; intros wrapper downstream w2 later Ht Hin.
  - simpl in *. rewrite app_nil_r. destruct w2; simpl in *. by subst.
  - cbn [relay_tasks] in Ht. simpl in Ht.
    cbn [length]. rewrite (run_S fuel _ w2 _ _ Ht), (step_head fuel w2 _ _ Ht).
    apply Forall_cons in Hin as [(Hi & Hs & Hf) Hin].
    set (w2' := set_tasks _ w2).
    assert (Hh : heap w2' = heap w2) by done.
    assert (Hsi : status_of w2' i = status_of w0 i)
      by (unfold status_of; by rewrite Hh, Hi).
    assert (Hfi : fate_of w2' i = fate_of w0 i)
      by (unfold fate_of; by rewrite Hh, Hi).
    rewrite (run_then_producer handlers fuel i downstream i).
    2:{ apply anchor_plain. by rewrite Hfi. }
    assert (Hd : deliver i (then_args downstream (VFun (Resolver wrapper))
                              (VFun (Rejector wrapper))) w2' =
      set_tasks (fun ts => ts ++
        [handler_task i (relay_args wrapper downstream)
           (operation_of (status_of w0 i))]) w2').
    { unfold deliver. rewrite Hsi. by destruct (status_of w0 i). }
    rewrite Hd.
    rewrite (IH (S (S wrapper)) (S downstream) _ (later ++
      [handler_task i (relay_args wrapper downstream)
         (operation_of (status_of w0 i))])).
    + f_equal. unfold set_tasks; simpl. f_equal. by rewrite <- app_assoc.
    + simpl. by rewrite app_assoc.
    + done.
Qed.

Lemma settled_heap (p : pid) (c : operation * value) (w : world) :
  heap (settled p c w) = heap (record_outcome p c w).
Proof. done. Qed.

Lemma record_outcome_heap (p : pid) (c : operation * value) (w : world) :
  heap (record_outcome p c w) =
    alter (fun pr => {| fate := snd c; queue := queue pr;
                        state := settled_as (fst c) |}) p (heap w).
Proof.
  unfold record_outcome. simpl. rewrite list_alter_alter_eq.
  by apply list_alter_ext.
Qed.

(** The callback that passes the outcome of an input to its wrapper, and
    then fulfils the Promise of the [then] call with [undefined]. *)
Lemma run_relay (fuel : nat) (i wrapper downstream : pid) (op : operation)
    (w : world) :
  is_promise (fate_of w i) = false ->
  (wrapper < length (heap w)) ->
  (downstream < length (heap w)) ->
  wrapper <> downstream ->
  status_of w wrapper = PENDING ->
  status_of w downstream = PENDING ->
  run_task handlers fuel (handler_task i (relay_args wrapper downstream) op) w =
    Ok tt (settled downstream (op_resolve, VUndefined)
             (settled wrapper (op, fate_of w i) w)).
Proof.
  intros Hf Hw Hd Hne Hsw Hsd.
  cbn [run_task]. unfold try_catch, bind at 1.
  assert (Hcall : call handlers (chain fuel)
            (args_get (relay_args wrapper downstream) op) (fate_of w i) w =
          Ok VUndefined (settled wrapper (op, fate_of w i) w)).
  { destruct op; cbn [args_get relay_args then_args args_resolve args_reject
                      is_function];
      [rewrite call_resolver | rewrite call_rejector]; unfold bind;
      by rewrite settle_plain. }
  rewrite Hcall. unfold bind.
  cbn [relay_args then_args args_link link_resolve].
  rewrite call_resolver. unfold bind.
  rewrite settle_plain; [done| | |done].
  - by rewrite settled_heap, record_outcome_heap, length_alter.
  - change (status_of (settled ?p ?c ?x)) with (status_of (record_outcome p c x)).
    by destruct (record_outcome_other w wrapper downstream (op, fate_of w i) Hne)
      as [-> _].
Qed.

Lemma settled_twice (p q : pid) (c d : operation * value) (w : world) :
  tasks (settled q d (settled p c w)) =
    tasks w ++ map (fun a => dispatch_task p a (fst c) (snd c)) (queue_of w p) ++
    map (fun a => dispatch_task q a (fst d) (snd d)) (queue_of w q) /\
  heap (settled q d (settled p c w)) =
    alter (fun pr => {| fate := snd d; queue := queue pr;
                        state := settled_as (fst d) |}) q
      (alter (fun pr => {| fate := snd c; queue := queue pr;
                           state := settled_as (fst c) |}) p (heap w)) /\
  cells (settled q d (settled p c w)) = cells w /\
  log (settled q d (settled p c w)) = log w.
Proof.
  split; [|split; [|done]].
  - unfold settled at 1. cbn [tasks set_tasks record_outcome set_heap].
    change (queue_of (settled p c w) q) with (queue_of (record_outcome p c w) q).
    rewrite queue_of_record. unfold settled. cbn [tasks set_tasks record_outcome set_heap].
    by rewrite <- app_assoc.
  - rewrite settled_heap, record_outcome_heap. f_equal.
    by rewrite settled_heap, record_outcome_heap.
Qed.

(** *** The inputs settle their wrappers *)

Lemma phase_inputs (fuel c : nat) (w0 : world) (ins : list pid) (index : nat)
    (wrapper downstream : pid) (w3 : world) (later : list task) :
  tasks w3 = input_tasks w0 ins wrapper downstream ++ later ->
  wrapper + 2 * length ins <= downstream ->
  downstream + length ins <= length (heap w3) ->
  Forall (fun i => i < wrapper /\ heap w3 !!! i = heap w0 !!! i /\
                   is_promise (fate_of w0 i) = false) ins ->
  (forall j, j < length ins ->
     heap w3 !!! (wrapper + 2 * j) =
       push (all_args c (index + j) (wrapper + 2 * j)) fresh_promise) ->
  (forall j, j < length ins -> heap w3 !!! (downstream + j) = fresh_promise) ->
  exists w4,
    run handlers fuel (length ins) w3 = Some w4 /\
    tasks w4 = later ++ wrapper_tasks w0 c ins index wrapper /\
    length (heap w4) = length (heap w3) /\
    cells w4 = cells w3 /\ log w4 = log w3 /\
    (forall j i, ins !! j = Some i ->
       heap w4 !!! (wrapper + 2 * j) =
         {| fate := fate_of w0 i;
            queue := [all_args c (index + j) (wrapper + 2 * j)];
            state := settled_as (operation_of (status_of w0 i)) |}) /\
    (forall p, (forall j, j < length ins ->
                  p <> wrapper + 2 * j /\ p <> downstream + j) ->
       heap w4 !!! p = heap w3 !!! p).
Proof.
  revert index wrapper downstream w3 later.
  induction ins as [|i rest IH];
    intros index wrapper downstream w3 later Ht Hwd Hdl Hin Hwr Hdn.
  - exists w3. simpl in *. rewrite app_nil_r. repeat split; try done.
  - cbn [input_tasks] in Ht. simpl in Ht.
    cbn [length] in *. rewrite (run_S fuel _ w3 _ _ Ht), (step_head fuel w3 _ _ Ht).
    apply Forall_cons in Hin as [(Hi & Hhi & Hf) Hin].
    set (w3' := set_tasks _ w3).
    assert (Hh : heap w3' = heap w3) by done.
    assert (Ht' : tasks w3' = input_tasks w0 rest (S (S wrapper)) (S downstream)
                    ++ later) by done.
    assert (Hc' : cells w3' = cells w3 /\ log w3' = log w3) by done.
    clearbody w3'. clear Ht.
    assert (Hfi : fate_of w3' i = fate_of w0 i)
      by (unfold fate_of; by rewrite Hh, Hhi).
    assert (HW : heap w3' !!! wrapper = push (all_args c index wrapper) fresh_promise).
    { rewrite Hh. specialize (Hwr 0).
      rewrite Nat.mul_0_r, !Nat.add_0_r in Hwr. apply Hwr. lia. }
    assert (HD : heap w3' !!! downstream = fresh_promise).
    { rewrite Hh. specialize (Hdn 0). rewrite Nat.add_0_r in Hdn. apply Hdn. lia. }
    rewrite run_relay; try (rewrite ?Hh; lia).
    2:{ by rewrite Hfi. }
    2:{ unfold status_of. by rewrite HW. }
    2:{ unfold status_of. by rewrite HD. }
    rewrite Hfi.
    set (op := operation_of (status_of w0 i)).
    set (wr := settled downstream _ _).
    destruct (settled_twice wrapper downstream (op, fate_of w0 i)
                (op_resolve, VUndefined) w3') as (Htr & Hhr & Hcr & Hgr).
    fold wr in Htr, Hhr, Hcr, Hgr.
    unfold queue_of in Htr. rewrite HW, HD in Htr. cbn [queue push fresh_promise
      fst snd map app] in Htr.
    assert (Hdisp : dispatch_task wrapper (all_args c index wrapper) op
                      (fate_of w0 i) =
                    handler_task wrapper (all_args c index wrapper) op)
      by (by destruct op).
    rewrite Hdisp, ?app_nil_r in Htr. cbn [fst snd] in Hhr.
    clearbody wr.
    assert (Hlr : length (heap wr) = length (heap w3))
      by (by rewrite Hhr, !length_alter, Hh).
    assert (Hother : forall p, p <> wrapper -> p <> downstream ->
              heap wr !!! p = heap w3 !!! p).
    { intros p H1 H2. rewrite Hhr, !list_lookup_total_alter_ne by done.
      by rewrite Hh. }
    destruct (IH (S index) (S (S wrapper)) (S downstream) wr
                (later ++ [handler_task wrapper (all_args c index wrapper) op]))
      as (w4 & Hrun & Ht4 & Hl4 & Hc4 & Hg4 & Hw4 & Hf4).
    + by rewrite Htr, Ht', <- app_assoc.
    + lia.
    + lia.
    + eapply Forall_impl; [exact Hin|]. intros x (Hx & Hhx & Hfx).
      split; [lia|]. split; [|done]. rewrite Hother by lia. done.
    + intros j Hj. rewrite Hother by lia.
      replace (S (S wrapper) + 2 * j) with (wrapper + 2 * S j) by lia.
      replace (S index + j) with (index + S j) by lia.
      apply Hwr. lia.
    + intros j Hj. rewrite Hother by lia.
      replace (S downstream + j) with (downstream + S j) by lia.
      apply Hdn. lia.
    + exists w4. rewrite Hrun. split; [done|].
      split; [|split; [|split; [|split; [|split]]]].
      * rewrite Ht4. cbn [wrapper_tasks]. by rewrite <- app_assoc.
      * by rewrite Hl4.
      * rewrite Hc4, Hcr. apply Hc'.
      * rewrite Hg4, Hgr. apply Hc'.
      * intros [|j] x Hx.
        -- simpl in Hx. simplify_eq.
           rewrite Nat.mul_0_r, !Nat.add_0_r.
           rewrite Hf4 by (intros; lia).
           rewrite Hhr, list_lookup_total_alter_ne by lia.
           rewrite list_lookup_total_alter_eq by (rewrite Hh; lia).
           by rewrite HW.
        -- simpl in Hx.
           replace (wrapper + 2 * S j) with (S (S wrapper) + 2 * j) by lia.
           replace (index + S j) with (S index + j) by lia.
           by apply Hw4.
      * intros p Hp. rewrite Hf4.
        -- destruct (Hp 0) as [H1 H2]; [lia|].
           apply Hother; lia.
        -- intros j Hj. destruct (Hp (S j)) as [H1 H2]; [lia|]. lia.
Qed.

(** *** The wrappers report to [Promise.all] *)

Lemma first_rejection_app (w : world) (ins : list pid) (i : pid) :
  first_rejection w (ins ++ [i]) =
    match first_rejection w ins with
    | Some r => Some r
    | None => match status_of w i with
              | REJECTED => Some (fate_of w i)
              | _ => None
              end
    end.
Proof.
  induction ins as [|x rest IH]; simpl.
  - by destruct (status_of w i).
  - by destruct (status_of w x).
Qed.

Lemma array_set_end (v : value) (l : list (option value)) :
  array_set (length l) v l = l ++ [Some v].
Proof.
  unfold array_set. case_decide; [lia|].
  by rewrite Nat.sub_diag.
Qed.

(** One report, from the input [i] at position [length reported]. *)
Lemma notify_step (fuel : nat) (w0 : world) (c total : nat) (reported : list pid)
    (i : pid) (w : world) :
  all_state_after w0 c total reported w ->
  c < length (cells w) ->
  all_owner (cells w !!! c) < length (heap w) ->
  length reported < total ->
  status_of w0 i <> PENDING ->
  is_promise (fate_of w0 i) = false ->
  exists w',
    notify (chain fuel) c
      (notice_of (operation_of (status_of w0 i)) (length reported) (fate_of w0 i)) w =
      Ok tt w' /\
    all_state_after w0 c total (reported ++ [i]) w' /\
    tasks w' = tasks w /\ log w' = log w /\
    length (cells w') = length (cells w) /\
    all_owner (cells w' !!! c) = all_owner (cells w !!! c) /\
    length (heap w') = length (heap w) /\
    (forall p, p <> all_owner (cells w !!! c) -> heap w' !!! p = heap w !!! p).
Proof.
  intros Hst Hc Ho Hlt Hs Hf.
  unfold all_state_after in *. rewrite first_rejection_app.
  set (owner := all_owner (cells w !!! c)) in *.
  destruct (first_rejection w0 reported) as [r|] eqn:Hfirst.
  - (* the result is rejected already *)
    destruct Hst as (Hoff & Hso & Hfo).
    destruct (status_of w0 i) eqn:Hsi; [done| |]; cbn [operation_of notice_of notify].
    + exists w. unfold all_resolved. rewrite Hoff. by repeat split.
    + unfold all_rejected, bind, update_cell, modify.
      assert (Hw : set_cells (alter (set_all_status false) c) w = w).
      { destruct w as [h cs ts l]. unfold set_cells; simpl. f_equal.
        apply alter_fixed. intros x Hx. simpl in Hoff.
        rewrite (list_lookup_total_correct _ _ _ Hx) in Hoff.
        destruct x; simpl in *. by subst. }
      rewrite Hw. fold owner. unfold rejector. rewrite Hso.
      exists w. by repeat split.
  - destruct Hst as (Hon & Hrem & Hres & Hq & Hpend).
    case_decide as Hdone; [lia|].
    destruct (status_of w0 i) eqn:Hsi; [done| |]; cbn [operation_of notice_of notify].
    + (* a fulfilment *)
      unfold all_resolved. rewrite Hon. unfold bind, update_cell, modify.
      set (w1 := set_cells (alter (set_remaining _) c) (set_cells _ w)).
      assert (Hcell : cells w1 !!! c =
        set_remaining (fun r => (r - 1)%Z)
          (set_results (array_set (length reported) (fate_of w0 i))
             (cells w !!! c))).
      { subst w1. simpl.
        rewrite list_lookup_total_alter_eq by (by rewrite length_alter).
        by rewrite list_lookup_total_alter_eq. }
      assert (Hh1 : heap w1 = heap w) by done.
      assert (Ht1 : tasks w1 = tasks w /\ log w1 = log w) by done.
      assert (Hl1 : length (cells w1) = length (cells w))
        by (subst w1; simpl; by rewrite !length_alter).
      clearbody w1.
      assert (Hres1 : results (cells w1 !!! c) =
                map (fun x => Some (fate_of w0 x)) (reported ++ [i])).
      { rewrite Hcell. cbn [results set_remaining set_results].
        rewrite Hres, map_app. simpl.
        replace (length reported)
          with (length (map (fun x => Some (fate_of w0 x)) reported))
          by (by rewrite length_map).
        apply array_set_end. }
      assert (Hrem1 : remaining (cells w1 !!! c) =
                (Z.of_nat total - Z.of_nat (length (reported ++ [i])))%Z).
      { rewrite Hcell. cbn [remaining set_remaining set_results].
        rewrite Hrem, length_app. simpl. lia. }
      assert (Hown1 : all_owner (cells w1 !!! c) = owner) by (by rewrite Hcell).
      assert (Hon1 : all_status (cells w1 !!! c) = true) by (by rewrite Hcell).
      destruct (Z.eqb_spec (remaining (cells w1 !!! c)) 0) as [Hz|Hnz].
      * (* the last fulfilment settles the result *)
        rewrite Hown1.
        assert (Ho1 : owner < length (heap w1)) by (by rewrite Hh1).
        assert (Hp1 : status_of w1 owner = PENDING)
          by (unfold status_of in *; by rewrite Hh1).
        pose proof (settle_plain fuel owner (op_resolve, VArray c) w1 Ho1 Hp1
                      eq_refl) as Hset.
        cbn [settle fst snd] in Hset. rewrite Hset.
        assert (Hq1 : queue_of w1 owner = [])
          by (unfold queue_of in *; by rewrite Hh1).
        rewrite Hq1. simpl map.
        eexists. split; [done|].
        cbn [cells set_tasks record_outcome set_heap].
        rewrite Hres1, Hrem1, Hown1, Hon1.
        change (status_of (set_tasks ?f ?x)) with (status_of x).
        change (fate_of (set_tasks ?f ?x)) with (fate_of x).
        change (queue_of (set_tasks ?f ?x)) with (queue_of x).
        rewrite status_of_record, fate_of_record, queue_of_record by done.
        rewrite Hrem1, length_app in Hz. simpl in Hz.
        split.
        { repeat split; try done.
          case_decide as Hd; [done|]. exfalso. apply Hd.
          rewrite length_app. simpl. lia. }
        split; [simpl; rewrite app_nil_r; apply Ht1|].
        split; [apply Ht1|]. split; [done|]. split; [done|].
        split; [unfold record_outcome; simpl; by rewrite !length_alter, Hh1|].
        intros p Hp. unfold record_outcome. simpl.
        by rewrite !list_lookup_total_alter_ne, Hh1.
      * exists w1. split; [done|].
        rewrite Hres1, Hrem1, Hown1, Hon1.
        split.
        { repeat split; try done.
          - unfold queue_of in *. by rewrite Hh1.
          - case_decide as Hd.
            + exfalso. apply Hnz. rewrite Hrem1. lia.
            + unfold status_of in *. by rewrite Hh1. }
        split; [apply Ht1|]. split; [apply Ht1|]. split; [done|].
        split; [done|]. split; [by rewrite Hh1|]. intros p _. by rewrite Hh1.
    + (* the first rejection *)
      unfold all_rejected, bind, update_cell, modify.
      set (w1 := set_cells (alter (set_all_status false) c) w).
      assert (Hcell : cells w1 !!! c = set_all_status false (cells w !!! c)).
      { subst w1. simpl. by rewrite list_lookup_total_alter_eq. }
      assert (Hh1 : heap w1 = heap w) by done.
      assert (Ht1 : tasks w1 = tasks w /\ log w1 = log w) by done.
      assert (Hl1 : length (cells w1) = length (cells w))
        by (subst w1; simpl; by rewrite !length_alter).
      clearbody w1.
      assert (Hown1 : all_owner (cells w1 !!! c) = owner) by (by rewrite Hcell).
      rewrite Hown1.
      assert (Ho1 : owner < length (heap w1)) by (by rewrite Hh1).
      assert (Hp1 : status_of w1 owner = PENDING)
        by (unfold status_of in *; by rewrite Hh1).
      pose proof (settle_plain fuel owner (op_reject, fate_of w0 i) w1 Ho1 Hp1 Hf)
        as Hset.
      cbn [settle fst snd] in Hset. rewrite Hset.
      assert (Hq1 : queue_of w1 owner = [])
        by (unfold queue_of in *; by rewrite Hh1).
      rewrite Hq1. simpl map.
      eexists. split; [done|].
      cbn [cells set_tasks record_outcome set_heap].
      rewrite Hown1, Hcell.
      change (status_of (set_tasks ?f ?x)) with (status_of x).
      change (fate_of (set_tasks ?f ?x)) with (fate_of x).
      rewrite status_of_record, fate_of_record by done.
      split; [done|].
      split; [simpl; rewrite app_nil_r; apply Ht1|].
      split; [apply Ht1|]. split; [done|]. split; [done|].
      split; [unfold record_outcome; simpl; by rewrite !length_alter, Hh1|].
      intros p Hp. unfold record_outcome. simpl.
      by rewrite !list_lookup_total_alter_ne, Hh1.
Qed.

(** The callback that passes the outcome of a wrapper to [Promise.all], and
    then fulfils the Promise of the wrapper's [then] call with [undefined]. *)
Lemma run_report (fuel : nat) (w0 : world) (c total : nat) (reported : list pid)
    (i wrapper : pid) (w : world) :
  all_state_after w0 c total reported w ->
  c < length (cells w) ->
  all_owner (cells w !!! c) < length (heap w) ->
  length reported < total ->
  status_of w0 i <> PENDING ->
  is_promise (fate_of w0 i) = false ->
  fate_of w wrapper = fate_of w0 i ->
  S wrapper < length (heap w) ->
  S wrapper <> all_owner (cells w !!! c) ->
  heap w !!! S wrapper = fresh_promise ->
  exists w',
    run_task handlers fuel
      (handler_task wrapper (all_args c (length reported) wrapper)
         (operation_of (status_of w0 i))) w = Ok tt w' /\
    all_state_after w0 c total (reported ++ [i]) w' /\
    tasks w' = tasks w /\ log w' = log w /\
    length (cells w') = length (cells w) /\
    all_owner (cells w' !!! c) = all_owner (cells w !!! c) /\
    length (heap w') = length (heap w) /\
    (forall p, p <> all_owner (cells w !!! c) -> p <> S wrapper ->
       heap w' !!! p = heap w !!! p).
Proof.
  intros Hst Hc Ho Hlt Hs Hf Hfw Hd Hdo Hfresh.
  destruct (notify_step fuel w0 c total reported i w Hst Hc Ho Hlt Hs Hf)
    as (w1 & Hn & Hst1 & Ht1 & Hg1 & Hl1 & Ho1 & Hh1 & Hk1).
  cbn [run_task]. unfold try_catch, bind at 1. rewrite Hfw.
  assert (Hcall : call handlers (chain fuel)
            (args_get (all_args c (length reported) wrapper)
               (operation_of (status_of w0 i))) (fate_of w0 i) w =
          Ok VUndefined w1).
  { destruct (operation_of (status_of w0 i)); cbn [notice_of notify] in Hn;
      cbn [args_get all_args then_args args_resolve args_reject is_function call];
      unfold bind; by rewrite Hn. }
  rewrite Hcall. unfold bind.
  cbn [all_args then_args args_link link_resolve].
  rewrite call_resolver. unfold bind.
  assert (Hfresh1 : heap w1 !!! S wrapper = fresh_promise)
    by (by rewrite Hk1).
  rewrite settle_plain; [|lia|unfold status_of; by rewrite Hfresh1|done].
  unfold queue_of at 1. rewrite Hfresh1. simpl map.
  eexists. split; [done|].
  assert (Hkeep : forall p, p <> S wrapper ->
            heap (record_outcome (S wrapper) (op_resolve, VUndefined) w1) !!! p =
            heap w1 !!! p).
  { intros p Hp. unfold record_outcome. simpl.
    by rewrite !list_lookup_total_alter_ne. }
  split.
  { unfold all_state_after in *.
    cbn [cells set_tasks record_outcome set_heap].
    change (status_of (set_tasks ?f ?x)) with (status_of x).
    change (fate_of (set_tasks ?f ?x)) with (fate_of x).
    change (queue_of (set_tasks ?f ?x)) with (queue_of x).
    unfold status_of, fate_of, queue_of in *.
    rewrite Hkeep by (rewrite Ho1; congruence).
    done. }
  split; [simpl; by rewrite app_nil_r|].
  split; [done|]. split; [done|]. split; [done|].
  split; [unfold record_outcome; simpl; by rewrite !length_alter|].
  intros p Hp1 Hp2. cbn [heap set_tasks]. rewrite Hkeep by done. by apply Hk1.
Qed.

Lemma phase_wrappers (fuel : nat) (w0 : world) (c total : nat) (ins : list pid)
    (reported : list pid) (wrapper : pid) (w4 : world) :
  tasks w4 = wrapper_tasks w0 c ins (length reported) wrapper ->
  all_state_after w0 c total reported w4 ->
  c < length (cells w4) ->
  all_owner (cells w4 !!! c) < wrapper ->
  wrapper + 2 * length ins <= length (heap w4) ->
  length reported + length ins = total ->
  Forall (fun i => status_of w0 i <> PENDING /\ is_promise (fate_of w0 i) = false)
         ins ->
  (forall j i, ins !! j = Some i -> fate_of w4 (wrapper + 2 * j) = fate_of w0 i) ->
  (forall j, j < length ins -> heap w4 !!! S (wrapper + 2 * j) = fresh_promise) ->
  exists w5,
    run handlers fuel (length ins) w4 = Some w5 /\
    tasks w5 = [] /\
    all_state_after w0 c total (reported ++ ins) w5 /\
    log w5 = log w4 /\
    all_owner (cells w5 !!! c) = all_owner (cells w4 !!! c) /\
    (forall p, p < wrapper -> p <> all_owner (cells w4 !!! c) ->
       heap w5 !!! p = heap w4 !!! p).
Proof.
  revert reported wrapper w4.
  induction ins as [|i rest IH];
    intros reported wrapper w4 Ht Hst Hc Ho Hlen Htot Hin Hfw Hfresh.
  - exists w4. simpl in *. rewrite app_nil_r. by repeat split.
  - cbn [wrapper_tasks] in Ht. cbn [length] in *.
    rewrite (run_S fuel _ w4 _ _ Ht), (step_head fuel w4 _ _ Ht).
    apply Forall_cons in Hin as [(Hs & Hf) Hin].
    set (w4' := set_tasks _ w4).
    assert (Hh : heap w4' = heap w4) by done.
    assert (Hcs : cells w4' = cells w4) by done.
    assert (Ht' : tasks w4' =
      wrapper_tasks w0 c rest (S (length reported)) (S (S wrapper))) by done.
    assert (Hg' : log w4' = log w4) by done.
    assert (Hst' : all_state_after w0 c total reported w4') by done.
    clearbody w4'. clear Ht.
    destruct (run_report fuel w0 c total reported i wrapper w4')
      as (w' & Hrun & Hst1 & Ht1 & Hg1 & Hl1 & Ho1 & Hh1 & Hk1);
      try done; rewrite ?Hcs, ?Hh; try lia.
    { unfold fate_of. rewrite Hh. specialize (Hfw 0 i eq_refl).
      by rewrite Nat.mul_0_r, Nat.add_0_r in Hfw. }
    { specialize (Hfresh 0). rewrite Nat.mul_0_r, Nat.add_0_r in Hfresh.
      apply Hfresh. lia. }
    rewrite Hrun. rewrite Hcs in Ho1, Hk1, Hl1. rewrite Hh in Hh1, Hk1.
    destruct (IH (reported ++ [i]) (S (S wrapper)) w')
      as (w5 & Hrun5 & Ht5 & Hst5 & Hg5 & Ho5 & Hk5).
    + rewrite Ht1, Ht', length_app. simpl. by rewrite Nat.add_1_r.
    + done.
    + lia.
    + rewrite Ho1. lia.
    + rewrite Hh1. lia.
    + rewrite length_app. simpl. lia.
    + done.
    + intros j x Hx. unfold fate_of. rewrite Hk1 by lia.
      replace (S (S wrapper) + 2 * j) with (wrapper + 2 * S j) by lia.
      by apply (Hfw (S j) x).
    + intros j Hj. rewrite Hk1 by lia.
      replace (S (S wrapper) + 2 * j) with (wrapper + 2 * S j) by lia.
      apply Hfresh. lia.
    + exists w5. rewrite Hrun5. split; [done|]. split; [done|].
      split; [by rewrite <- app_assoc in Hst5|].
      split; [by rewrite Hg5, Hg1|].
      split; [by rewrite Ho5, Ho1|].
      intros p Hp Hpo. rewrite Hk5 by (rewrite ?Ho1; lia).
      apply Hk1; [done|lia].
Qed.

(** *** [Promise.all] over settled Promises, from the call to quiescence *)

Lemma all_of_settled_promises (fuel : nat) (w : world) (ins : list pid) :
  tasks w = [] ->
  Forall (settled_plain w) ins ->
  exists w5,
    run handlers fuel (1 + 5 * length ins)
      (exec (Promise_all (map VPromise ins)) w) = Some w5 /\
    tasks w5 = [] /\ log w5 = log w /\
    all_owner (cells w5 !!! length (cells w)) = length (heap w) /\
    all_state_after w (length (cells w)) (length ins) ins w5 /\
    (forall p, p < length (heap w) -> heap w5 !!! p = heap w !!! p).
Proof.
  intros Hquiet Hin.
  set (n := length ins). set (h := length (heap w)). set (c := length (cells w)).
  rewrite exec_all.
  replace (1 + 5 * n) with (1 + (2 * n + (n + (n + n)))) by lia.
  rewrite run_add.
  assert (Ht0 : tasks (with_new_promise (all_producer (map VPromise ins)) w) =
                [producer_task h (all_producer (map VPromise ins))])
    by (simpl; by rewrite Hquiet).
  rewrite (run_S fuel _ _ _ _ Ht0), (step_head fuel _ _ _ Ht0).
  cbn [run_task run_producer]. unfold try_catch, bind, modify.
  rewrite forEach_subscribes.
  match goal with |- context [subscribed ?cc ins 0 ?x] =>
    change cc with c; set (wbase := x) end.
  assert (Hhb : heap wbase = heap w ++ [fresh_promise]) by done.
  assert (Htb : tasks wbase = []) by done.
  assert (Hcb : cells wbase = cells w ++
            [{| results := []; remaining := Z.of_nat (length (map VPromise ins));
                all_status := true; all_owner := h |}] /\ log wbase = log w)
    by done.
  clearbody wbase.
  set (w1 := subscribed c ins 0 wbase).
  assert (Hh1 : heap w1 = (heap w ++ [fresh_promise]) ++
                          replicate (2 * n) fresh_promise)
    by (subst w1; by rewrite subscribed_heap, Hhb).
  assert (Ht1 : tasks w1 = subscribe_tasks c ins 0 (S h) ++ []).
  { subst w1. rewrite subscribed_tasks, Htb, Hhb. simpl. rewrite app_nil_r.
    rewrite length_app. simpl. by rewrite Nat.add_1_r. }
  assert (Hc1 : cells w1 = cells w ++
            [{| results := []; remaining := Z.of_nat (length (map VPromise ins));
                all_status := true; all_owner := h |}] /\ log w1 = log w).
  { subst w1. destruct (subscribed_rest c ins 0 wbase) as [-> ->]. exact Hcb. }
  destruct Hc1 as [Hc1 Hg1].
  assert (Hl1 : length (heap w1) = S h + 2 * n).
  { rewrite Hh1, !length_app, length_replicate. simpl. lia. }
  clearbody w1.
  cbn [run]. rewrite run_add.
  (* the producers of the wrappers and of their reactions *)
  destruct (phase_subscribe fuel c ins 0 (S h) w1 [] Ht1)
    as (w2 & Hrun2 & Ht2 & Hl2 & Hc2 & Hg2 & Hw2 & Hd2 & Hk2).
  { fold n. lia. }
  { intros j Hj. rewrite Hh1, lookup_total_app_r
      by (rewrite length_app; simpl; lia).
    apply lookup_total_replicate_2. rewrite length_app. simpl. fold n h. lia. }
  fold n in Hrun2. rewrite Hrun2. rewrite run_add.
  assert (Hold1 : forall p, p < h -> heap w1 !!! p = heap w !!! p).
  { intros p Hp. rewrite Hh1, <- app_assoc.
    by rewrite lookup_total_app_l. }
  assert (Hold2 : forall p, p < h -> heap w2 !!! p = heap w !!! p).
  { intros p Hp. rewrite Hk2 by (intros; lia). by apply Hold1. }
  (* the reactions reach the inputs *)
  pose proof (phase_relay fuel w ins (S h) (length (heap w1)) w2 []) as Hrun3.
  fold n in Hrun3. rewrite Hrun3; clear Hrun3.
  2:{ by rewrite Ht2, app_nil_r. }
  2:{ eapply Forall_impl; [exact Hin|]. intros i (Hi & Hs & Hf).
      split; [by apply Hold2|done]. }
  set (w3 := set_tasks _ w2).
  assert (Hh3 : heap w3 = heap w2) by done.
  assert (Ht3 : tasks w3 = input_tasks w ins (S h) (length (heap w1)) ++ [])
    by (by rewrite app_nil_r).
  assert (Hc3 : cells w3 = cells w2 /\ log w3 = log w2) by done.
  clearbody w3. rewrite run_add.
  (* the inputs settle their wrappers *)
  destruct (phase_inputs fuel c w ins 0 (S h) (length (heap w1)) w3 [] Ht3)
    as (w4 & Hrun4 & Ht4 & Hl4 & Hc4 & Hg4 & Hw4 & Hk4).
  { fold n. lia. }
  { rewrite Hh3, Hl2. fold n. lia. }
  { eapply Forall_impl; [exact Hin|]. intros i (Hi & Hs & Hf).
    split; [fold h in Hi; lia|]. split; [|done]. rewrite Hh3. by apply Hold2. }
  { intros j Hj. rewrite Hh3. by apply Hw2. }
  { intros j Hj. rewrite Hh3. by apply Hd2. }
  fold n in Hrun4. rewrite Hrun4.
  (* the wrappers report *)
  assert (Hcells4 : cells w4 = cells w ++
            [{| results := []; remaining := Z.of_nat (length (map VPromise ins));
                all_status := true; all_owner := h |}]).
  { rewrite Hc4. destruct Hc3 as [-> _]. by rewrite Hc2. }
  assert (Hcell4 : cells w4 !!! c =
            {| results := []; remaining := Z.of_nat (length (map VPromise ins));
               all_status := true; all_owner := h |}).
  { rewrite Hcells4. by apply list_lookup_total_middle. }
  assert (HA4 : heap w4 !!! h = fresh_promise).
  { rewrite Hk4 by (intros; lia). rewrite Hh3.
    rewrite Hk2 by (intros; lia).
    rewrite Hh1, lookup_total_app_l by (rewrite length_app; simpl; lia).
    by apply list_lookup_total_middle. }
  destruct (phase_wrappers fuel w c n ins [] (S h) w4)
    as (w5 & Hrun5 & Ht5 & Hst5 & Hg5 & Ho5 & Hk5).
  { by rewrite Ht4. }
  { unfold all_state_after. cbn [first_rejection]. rewrite Hcell4.
    cbn [all_status remaining results all_owner length map].
    unfold queue_of, status_of. rewrite HA4.
    repeat split; try done.
    - rewrite length_map. fold n. lia.
    - case_decide as Hd; [lia|done]. }
  { rewrite Hcells4, length_app. simpl. fold c. lia. }
  { rewrite Hcell4. simpl. lia. }
  { rewrite Hl4, Hh3, Hl2. fold n. lia. }
  { done. }
  { eapply Forall_impl; [exact Hin|]. by intros i (Hi & Hs & Hf). }
  { intros j i Hi. unfold fate_of at 1. by rewrite (Hw4 j i Hi). }
  { intros j Hj. rewrite Hk4 by (intros; lia). rewrite Hh3.
    rewrite Hk2 by (intros; lia).
    rewrite Hh1, lookup_total_app_r by (rewrite length_app; simpl; lia).
    apply lookup_total_replicate_2. rewrite length_app. simpl. fold n h. lia. }
  fold n in Hrun5. exists w5. rewrite Hrun5. split; [done|].
  split; [done|]. rewrite Hcell4 in Ho5, Hk5. simpl in Ho5, Hk5.
  split; [|split; [done|split; [done|]]].
  - rewrite Hg5, Hg4. destruct Hc3 as [_ ->]. by rewrite Hg2.
  - intros p Hp. rewrite Hk5 by lia. rewrite Hk4 by (intros; lia).
    rewrite Hh3. by apply Hold2.
Qed.

(** For a non-empty list of fulfilled Promises the result is fulfilled, with
    the values of the inputs in input order. *)
Lemma all_fulfils_in_input_order (fuel : nat) (w : world) (ins : list pid) :
  tasks w = [] ->
  Forall (settled_plain w) ins ->
  ins <> [] ->
  first_rejection w ins = None ->
  exists w5,
    run handlers fuel (1 + 5 * length ins)
      (exec (Promise_all (map VPromise ins)) w) = Some w5 /\
    tasks w5 = [] /\
    status_of w5 (length (heap w)) = RESOLVED /\
    fate_of w5 (length (heap w)) = VArray (length (cells w)) /\
    results (cells w5 !!! length (cells w)) = map (fun i => Some (fate_of w i)) ins.
Proof.
  intros Hquiet Hin Hne Hnone.
  destruct (all_of_settled_promises fuel w ins Hquiet Hin)
    as (w5 & Hrun & Ht & _ & Ho & Hst & _).
  exists w5. split; [done|]. split; [done|].
  unfold all_state_after in Hst. rewrite Hnone, Ho in Hst.
  destruct Hst as (_ & _ & Hres & _ & Hdone).
  case_decide as Hd.
  - by destruct Hdone.
  - exfalso. apply Hd. split; [done|]. destruct ins; [done|simpl; lia].
Qed.

(** *** C5 *)

(** C5, amended: while the result of a [Promise.all] call is pending and
    fewer inputs have reported a fulfilment than the call has inputs, the
    first rejection reason that reaches the call's rejection handler, a
    reason that is not itself a Promise, rejects the result with that reason;
    every later report of another input, fulfilment or rejection, returns
    the world as it was.  Run from the call to quiescence over Promises that
    are settled with outcomes that are not Promises, [Promise.all] ends
    rejected with the reason of the first rejected input. *)
Theorem all_rejects_with_first_reason (fuel : nat) :
  (forall (w : world) (c : nat) (pre post : list notice) (reason : value),
     c < length (cells w) ->
     all_owner (cells w !!! c) < length (heap w) ->
     status_of w (all_owner (cells w !!! c)) = PENDING ->
     forallb is_fulfilled pre = true ->
     (Z.of_nat (length pre) < remaining (cells w !!! c))%Z ->
     is_promise reason = false ->
     exists w1,
       notify_all (chain fuel) c (pre ++ [rejected reason]) w = Ok tt w1 /\
       status_of w1 (all_owner (cells w !!! c)) = REJECTED /\
       fate_of w1 (all_owner (cells w !!! c)) = reason /\
       forall fuel', notify_all (chain fuel') c post w1 = Ok tt w1) /\
  (forall (w : world) (ins : list pid) (reason : value),
     tasks w = [] ->
     Forall (settled_plain w) ins ->
     first_rejection w ins = Some reason ->
     exists w5,
       run handlers fuel (1 + 5 * length ins)
         (exec (Promise_all (map VPromise ins)) w) = Some w5 /\
       tasks w5 = [] /\
       status_of w5 (length (heap w)) = REJECTED /\
       fate_of w5 (length (heap w)) = reason).
Proof.
  split.
  - intros w c pre post reason Hc Ho Hs Hpre Hlen Hr.
    by apply first_rejection_settles.
  - intros w ins reason Hquiet Hin Hfirst.
    destruct (all_of_settled_promises fuel w ins Hquiet Hin)
      as (w5 & Hrun & Ht & _ & Ho & Hst & _).
    exists w5. split; [done|]. split; [done|].
    unfold all_state_after in Hst. rewrite Hfirst, Ho in Hst.
    by destruct Hst as (_ & ? & ?).
Qed.

End AllOfSettled.

(** * Beyond single calls: invariants, producers, chains *)

Section History.
Variable handlers : nat -> value -> result.

Lemma history_kept_refl (w : world) : history_kept w w.
Proof. by repeat split. Qed.

Lemma history_kept_trans (w1 w2 w3 : world) :
  history_kept w1 w2 -> history_kept w2 w3 -> history_kept w1 w3.
Proof.
  intros (Hl & Hs & Hq & Hg) (Hl' & Hs' & Hq' & Hg').
  split; [lia|]. split; [|split].
  - intros p Hp. rewrite <- (Hs p Hp). apply Hs'.
    unfold status_of in *. by rewrite (Hs p Hp).
  - intros p. etrans; [apply Hq|apply Hq'].
  - etrans; [apply Hg|apply Hg'].
Qed.

Lemma ends_in_bind {A B} (R : world -> world -> Prop) (m : M A) (k : A -> M B)
    (w : world) :
  (forall w1 w2 w3, R w1 w2 -> R w2 w3 -> R w1 w3) ->
  ends_in (R w) (m w) ->
  (forall a w', ends_in (R w') (k a w')) ->
  ends_in (R w) (bind m k w).
Proof.
  intros Ht Hm Hk. unfold bind. destruct (m w) as [a w'|ex w'|]; try done.
  specialize (Hk a w'). destruct (k a w'); simpl in *; eauto.
Qed.

Lemma ends_in_try_catch {A} (R : world -> world -> Prop) (m : M A)
    (h : value -> M A) (w : world) :
  (forall w1 w2 w3, R w1 w2 -> R w2 w3 -> R w1 w3) ->
  ends_in (R w) (m w) ->
  (forall ex w', ends_in (R w') (h ex w')) ->
  ends_in (R w) (try_catch m h w).
Proof.
  intros Ht Hm Hh. unfold try_catch. destruct (m w) as [a w'|ex w'|]; try done.
  specialize (Hh ex w'). destruct (h ex w'); simpl in *; eauto.
Qed.

Lemma history_kept_tasks (w : world) (f : list task -> list task) :
  history_kept w (set_tasks f w).
Proof. by repeat split. Qed.

Lemma history_kept_cells (w : world) (f : list all_vars -> list all_vars) :
  history_kept w (set_cells f w).
Proof. by repeat split. Qed.

Lemma history_kept_log (w : world) (l : list (nat * value)) :
  history_kept w (set_log (fun l0 => l0 ++ l) w).
Proof. repeat split; try done. by apply prefix_app_r. Qed.

Lemma history_kept_grown (w : world) :
  history_kept w (set_heap (fun h => h ++ [fresh_promise]) w).
Proof.
  split; [simpl; rewrite length_app; lia|]. split; [|split; [|done]].
  - intros p Hp. simpl.
    destruct (decide (p < length (heap w))%nat) as [Hlt|Hge].
    + by rewrite lookup_total_app_l.
    + exfalso. apply Hp. unfold status_of.
      rewrite list_lookup_total_alt, lookup_ge_None_2 by lia. done.
  - intros p. unfold queue_of; simpl.
    destruct (decide (p < length (heap w))%nat) as [Hlt|Hge].
    + by rewrite lookup_total_app_l.
    + rewrite (list_lookup_total_alt (heap w)), (lookup_ge_None_2 (heap w)) by lia.
      apply prefix_nil.
Qed.

(** A change of the Promise [p] that is pending, which keeps what its
    queue holds in front. *)
Lemma history_kept_alter (w : world) (p : pid) (f : promise -> promise) :
  status_of w p = PENDING ->
  (forall pr, queue pr `prefix_of` queue (f pr)) ->
  history_kept w (set_heap (alter f p) w).
Proof.
  intros Hs Hf. split; [simpl; by rewrite length_alter|].
  split; [|split; [|done]].
  - intros q Hq. simpl. rewrite list_lookup_total_alter_ne; [done|].
    intros ->. done.
  - intros q. unfold queue_of; simpl. rewrite list_lookup_total_alter.
    case_decide as H; [|done]. destruct H as [-> _]. apply Hf.
Qed.

Lemma envoy_history (ch : chain_fn) (p : pid) (a : args) (op : operation)
    (w : world) :
  (forall q w', ends_in (history_kept w') (ch q a w')) ->
  ends_in (history_kept w) (envoy ch p a op w).
Proof.
  intros Hch. unfold envoy.
  destruct (fate_of w p); try apply Hch;
    destruct (is_function (args_get a op)); apply history_kept_tasks.
Qed.

Lemma chain_history (fuel : nat) (p : pid) (a : args) (w : world) :
  ends_in (history_kept w) (chain fuel p a w).
Proof.
  revert p w. induction fuel as [|k IH]; intros p w; simpl; unfold bind;
    destruct (validate_cases a w) as [[-> _]|[[msg ->] _]];
    try apply history_kept_refl;
    destruct (status_of w p) eqn:Hs;
    try (apply history_kept_alter; [done|intros pr; by apply prefix_app_r]);
    apply envoy_history; intros; try apply IH; done.
Qed.

Lemma enlighten_loop_history (fuel : nat) (p : pid) (op : operation)
    (n i : nat) (w : world) :
  ends_in (history_kept w) (enlighten_loop (chain fuel) p op i n w).
Proof.
  revert i w. induction n as [|n IH]; intros i w; simpl.
  - apply history_kept_refl.
  - destruct (queue_of w p !! i) as [a|]; [|apply history_kept_refl].
    apply (ends_in_bind history_kept); [apply history_kept_trans| |].
    + apply envoy_history. intros. apply chain_history.
    + intros _ w'. apply IH.
Qed.

Lemma record_history (p : pid) (c : operation * value) (w : world) :
  status_of w p = PENDING -> history_kept w (record_outcome p c w).
Proof.
  intros Hs. unfold record_outcome.
  eapply history_kept_trans.
  - by apply (history_kept_alter w p (set_fate (snd c))).
  - apply history_kept_alter; [|done].
    by rewrite status_of_alter.
Qed.

Lemma settle_history (fuel : nat) (p : pid) (c : operation * value) (w : world) :
  ends_in (history_kept w) (settle (chain fuel) p c w).
Proof.
  destruct (status_of w p) eqn:Hs.
  - rewrite settle_pending by done. unfold enlighten.
    pose proof (enlighten_loop_history fuel p (fst c)
      (length (queue_of (record_outcome p c w) p)) 0 (record_outcome p c w)) as H.
    pose proof (record_history p c w Hs) as Hr.
    destruct (enlighten_loop _ _ _ _ _ _); simpl in *; try done;
      by eapply history_kept_trans.
  - rewrite settle_settled by congruence. apply history_kept_refl.
  - rewrite settle_settled by congruence. apply history_kept_refl.
Qed.


Lemma resolver_history (fuel : nat) (p : pid) (v : value) (w : world) :
  ends_in (history_kept w) (resolver (chain fuel) p v w).
Proof. apply (settle_history fuel p (op_resolve, v)). Qed.

Lemma rejector_history (fuel : nat) (p : pid) (v : value) (w : world) :
  ends_in (history_kept w) (rejector (chain fuel) p v w).
Proof. apply (settle_history fuel p (op_reject, v)). Qed.

Ltac history_step :=
  lazymatch goal with
  | |- ends_in _ (bind _ _ _) =>
      apply (ends_in_bind history_kept); [apply history_kept_trans| |intros]
  | |- ends_in _ (try_catch _ _ _) =>
      apply (ends_in_try_catch history_kept); [apply history_kept_trans| |intros]
  | |- ends_in _ (resolver _ _ _ _) => apply resolver_history
  | |- ends_in _ (rejector _ _ _ _) => apply rejector_history
  | |- _ =>
      first [ apply history_kept_refl | apply history_kept_tasks
            | apply history_kept_cells | apply history_kept_log
            | apply history_kept_grown ]
  end.

Lemma all_resolved_history (fuel : nat) (c index : nat) (v : value) (w : world) :
  ends_in (history_kept w) (all_resolved (chain fuel) c index v w).
Proof.
  unfold all_resolved. destruct (all_status _); [|history_step].
  unfold update_cell, modify. repeat history_step.
  destruct (Z.eqb _ _); history_step.
Qed.

Lemma all_rejected_history (fuel : nat) (c : nat) (v : value) (w : world) :
  ends_in (history_kept w) (all_rejected (chain fuel) c v w).
Proof. unfold all_rejected, update_cell, modify. repeat history_step. Qed.

Lemma call_history (fuel : nat) (f v : value) (w : world) :
  ends_in (history_kept w) (call handlers (chain fuel) f v w).
Proof.
  destruct f as [| | | | | |[p|p|c index|c|h]| |]; cbn [call];
    unfold ret, throw, modify; try apply history_kept_refl.
  - history_step; [history_step|history_step].
  - history_step; [history_step|history_step].
  - history_step; [apply all_resolved_history|history_step].
  - history_step; [apply all_rejected_history|history_step].
  - history_step; [history_step|]. destruct (handlers h v); history_step.
Qed.

Lemma new_Promise_history (func : producer) (w : world) :
  ends_in (history_kept w) (new_Promise func w).
Proof. unfold new_Promise, setImmediate, modify, ret. repeat history_step. Qed.

Lemma call_then_history (v f g : value) (w : world) :
  ends_in (history_kept w) (call_then v f g w).
Proof.
  destruct v; cbn [call_then]; unfold throw; try apply history_kept_refl.
  unfold Promise_then, ret. history_step; [apply new_Promise_history|history_step].
Qed.

Lemma all_each_history (c : nat) (v : value) (index : nat) (w : world) :
  ends_in (history_kept w) (all_each c v index w).
Proof.
  unfold all_each. history_step.
  - destruct (truthy v && negb (has_then v)); unfold ret; [history_step|].
    unfold Promise_resolve. history_step; [apply new_Promise_history|history_step].
  - history_step; [apply call_then_history|unfold ret; history_step].
Qed.

Lemma forEach_history (c : nat) (iterable : list value) (index : nat) (w : world) :
  ends_in (history_kept w) (forEach (all_each c) iterable index w).
Proof.
  revert index w. induction iterable as [|v rest IH]; intros index w; simpl.
  - history_step.
  - history_step; [apply all_each_history|apply IH].
Qed.

Lemma run_body_history (fuel : nat) (p : pid) (body : list stmt) (w : world) :
  ends_in (history_kept w) (run_body (chain fuel) p body w).
Proof.
  revert w. induction body as [|[v|v|ex] rest IH]; intros w; simpl;
    unfold ret, throw; repeat history_step; apply IH.
Qed.

Lemma run_producer_history (fuel : nat) (p : pid) (func : producer) (w : world) :
  ends_in (history_kept w) (run_producer fuel p func w).
Proof.
  destruct func; cbn [run_producer].
  - apply run_body_history.
  - destruct (truthy v && has_then v); [|history_step].
    history_step; [apply call_then_history|unfold ret; history_step].
  - history_step.
  - unfold modify. history_step; [history_step|apply forEach_history].
  - apply chain_history.
  - apply chain_history.
Qed.

Lemma run_task_history (fuel : nat) (t : task) (w : world) :
  ends_in (history_kept w) (run_task handlers fuel t w).
Proof.
  destruct t; cbn [run_task].
  - history_step; [apply run_producer_history|history_step].
  - history_step.
    + history_step; [apply call_history|].
      history_step; [apply call_history|unfold ret; history_step].
    + history_step; [apply call_history|unfold ret; history_step].
  - history_step; [apply call_history|unfold ret; history_step].
Qed.

End History.

Section Scripts.
Variable handlers : nat -> value -> result.

Lemma perform_history (fuel : nat) (a : action) (w w' : world) :
  perform handlers fuel a w = Some w' -> history_kept w w'.
Proof.
  assert (Hc : forall A (r : outcome A), ends_in (history_kept w) r ->
            completed r = Some w' -> history_kept w w').
  { intros A [x w1|ex w1|]; simpl; intros H ?; by simplify_eq. }
  destruct a; cbn [perform]; try (apply Hc).
  - apply new_Promise_history.
  - apply settle_history.
  - apply (new_Promise_history (resolve_producer v)).
  - apply (new_Promise_history (reject_producer reason)).
  - apply (new_Promise_history (all_producer iterable)).
  - apply (new_Promise_history (then_producer p f g)).
  - apply (new_Promise_history (catch_producer p g)).
  - unfold step. destruct (tasks w !! i) as [t|] eqn:Ht; [|done].
    pose proof (run_task_history handlers fuel t (set_tasks (delete i) w)) as H.
    destruct (run_task _ _ _ _) as [x w1|ex w1|]; simpl in *; intros ?;
      by simplify_eq.
Qed.

Lemma play_history (fuel : nat) (script : list action) (w w' : world) :
  play handlers fuel script w = Some w' -> history_kept w w'.
Proof.
  revert w. induction script as [|a rest IH]; intros w; simpl.
  - intros ?; simplify_eq. apply history_kept_refl.
  - destruct (perform handlers fuel a w) as [w1|] eqn:Hp; [|done].
    intros H. eapply history_kept_trans; [by eapply perform_history|by apply IH].
Qed.

End Scripts.

Section WellFormed.
Variable handlers : nat -> value -> result.

Lemma returns_in_ends_in {A} (P : world -> Prop) (r : outcome A) :
  returns_in P r -> ends_in P r.
Proof. by destruct r. Qed.

Lemma task_ok_kept (w w' : world) (t : task) :
  history_kept w w' -> task_ok w t -> task_ok w' t.
Proof.
  intros (_ & Hs & _) Ht. destruct t as [p f|p a op|f v]; try done.
  destruct Ht as (Ha & Hst & Hf). unfold task_ok, status_of, fate_of in *.
  rewrite (Hs p); [done|]. unfold status_of. rewrite Hst. by destruct op.
Qed.

Lemma well_formed_queue (w : world) (p : pid) :
  well_formed w -> Forall built_by_then (queue_of w p).
Proof.
  intros (Hq & _). unfold queue_of.
  destruct (heap w !! p) as [pr|] eqn:Hp.
  - rewrite (list_lookup_total_correct _ _ _ Hp).
    by apply (Forall_lookup_1 _ _ _ _ Hq Hp).
  - rewrite list_lookup_total_alt, Hp. by constructor.
Qed.

(** One more pending callback. *)
Lemma well_formed_task (w : world) (t : task) :
  well_formed w -> task_ok w t ->
  well_formed (set_tasks (fun ts => ts ++ [t]) w).
Proof.
  intros (Hq & Ht & Hl) Hok. split; [done|]. split; [|done].
  simpl. apply Forall_app. split; [done|]. by constructor.
Qed.

(** A change of the heap that keeps the history and the shape of the
    queues. *)
Lemma well_formed_heap (w : world) (f : list promise -> list promise) :
  well_formed w ->
  history_kept w (set_heap f w) ->
  Forall (fun pr => Forall built_by_then (queue pr)) (f (heap w)) ->
  well_formed (set_heap f w).
Proof.
  intros (Hq & Ht & Hl) Hk Hf. split; [done|]. split; [|done].
  simpl. eapply Forall_impl; [apply Ht|]. intros t. by apply task_ok_kept.
Qed.

Lemma well_formed_push (w : world) (p : pid) (a : args) :
  well_formed w -> status_of w p = PENDING -> built_by_then a ->
  well_formed (set_heap (alter (push a) p) w).
Proof.
  intros Hw Hs Ha. apply well_formed_heap; [done| |].
  - apply history_kept_alter; [done|]. intros pr. by apply prefix_app_r.
  - destruct Hw as (Hq & _). apply Forall_alter; [done|].
    intros pr _ Hpr. simpl. apply Forall_app. split; [done|]. by constructor.
Qed.

Lemma well_formed_record (w : world) (p : pid) (c : operation * value) :
  well_formed w -> status_of w p = PENDING ->
  well_formed (record_outcome p c w).
Proof.
  intros Hw Hs. unfold record_outcome.
  assert (H1 : well_formed (set_heap (alter (set_fate (snd c)) p) w)).
  { apply well_formed_heap; [done| |].
    - by apply history_kept_alter.
    - destruct Hw as (Hq & _). apply Forall_alter; [done|]. by intros pr _ Hpr. }
  apply well_formed_heap; [done| |].
  - apply history_kept_alter; [by rewrite status_of_alter|done].
  - destruct H1 as (Hq & _). apply Forall_alter; [done|]. by intros pr _ Hpr.
Qed.

Lemma well_formed_grown (w : world) :
  well_formed w -> well_formed (set_heap (fun h => h ++ [fresh_promise]) w).
Proof.
  intros Hw. apply well_formed_heap; [done|apply history_kept_grown|].
  destruct Hw as (Hq & _). apply Forall_app. split; [done|].
  constructor; [|done]. by constructor.
Qed.

Lemma well_formed_cells (w : world) (f : list all_vars -> list all_vars) :
  well_formed w -> well_formed (set_cells f w).
Proof. by intros (Hq & Ht & Hl). Qed.

Lemma well_formed_tasks_delete (w : world) (i : nat) :
  well_formed w -> well_formed (set_tasks (delete i) w).
Proof.
  intros (Hq & Ht & Hl). split; [done|]. split; [|done].
  simpl. apply Forall_delete. done.
Qed.

Lemma well_formed_log (w : world) (h : nat) (v : value) :
  well_formed w -> is_promise v = false ->
  well_formed (set_log (fun l => l ++ [(h, v)]) w).
Proof.
  intros (Hq & Ht & Hl) Hv. split; [done|]. split; [done|].
  simpl. apply Forall_app. split; [done|]. by constructor.
Qed.

Lemma built_by_then_valid (a : args) : built_by_then a -> valid a = true.
Proof. intros (d & f & g & ->). apply then_args_valid. Qed.

Lemma built_by_then_link (a : args) (op : operation) :
  built_by_then a -> settlement_function (link_get (args_link a) op).
Proof. intros (d & f & g & ->). exists d. destruct op; [by left|by right]. Qed.

Lemma envoy_well_formed (ch : chain_fn) (p : pid) (a : args) (op : operation)
    (w : world) :
  (forall q w', well_formed w' -> returns_in well_formed (ch q a w')) ->
  well_formed w -> built_by_then a -> status_of w p = settled_as op ->
  returns_in well_formed (envoy ch p a op w).
Proof.
  intros Hch Hw Ha Hs. unfold envoy.
  destruct (fate_of w p) eqn:Hf; try (by apply Hch);
    (destruct (is_function (args_get a op));
     [apply well_formed_task; [done|]; cbn [task_ok]; by rewrite Hf
     |apply well_formed_task; [done|]; split; [by apply built_by_then_link|done]]).
Qed.

Lemma chain_well_formed (fuel : nat) (p : pid) (a : args) (w : world) :
  well_formed w -> built_by_then a ->
  returns_in well_formed (chain fuel p a w).
Proof.
  intros Hw Ha. revert p w Hw.
  induction fuel as [|k IH]; intros p w Hw; simpl; unfold bind;
    rewrite (validate_valid a w (built_by_then_valid a Ha));
    destruct (status_of w p) eqn:Hs;
    try (by apply well_formed_push);
    apply envoy_well_formed; try done; intros q w' Hw'; try done; by apply IH.
Qed.

Lemma enlighten_loop_well_formed (fuel : nat) (p : pid) (op : operation)
    (n i : nat) (w : world) :
  well_formed w -> status_of w p = settled_as op ->
  (i + n <= length (queue_of w p))%nat ->
  returns_in well_formed (enlighten_loop (chain fuel) p op i n w).
Proof.
  revert i w. induction n as [|n IH]; intros i w Hw Hs Hlen; simpl; [done|].
  destruct (lookup_lt_is_Some_2 (queue_of w p) i) as [a Hi]; [lia|].
  rewrite Hi.
  assert (Ha : built_by_then a).
  { pose proof (well_formed_queue w p Hw) as Hq.
    by apply (Forall_lookup_1 _ _ _ _ Hq Hi). }
  pose proof (envoy_well_formed (chain fuel) p a op w
    (fun q w' Hw' => chain_well_formed fuel q a w' Hw' Ha) Hw Ha Hs) as He.
  pose proof (envoy_history (chain fuel) p a op w
    (fun q w' => chain_history fuel q a w')) as Hk.
  unfold bind. destruct (envoy (chain fuel) p a op w) as [[] w1|ex w1|];
    simpl in *; try done.
  destruct Hk as (_ & Hk & _).
  assert (Hp : heap w1 !!! p = heap w !!! p).
  { apply Hk. rewrite Hs. by destruct op. }
  apply IH; [done| |]; unfold status_of, queue_of in *; rewrite Hp; [done|lia].
Qed.

(** A settlement function does not throw. *)
Lemma settle_well_formed (fuel : nat) (p : pid) (c : operation * value)
    (w : world) :
  well_formed w -> returns_in well_formed (settle (chain fuel) p c w).
Proof.
  intros Hw. destruct (status_of w p) eqn:Hs.
  - rewrite settle_pending by done. unfold enlighten.
    pose proof (well_formed_record w p c Hw Hs) as Hr.
    destruct (decide (p < length (heap w))%nat) as [Hp|Hp].
    + apply enlighten_loop_well_formed; [done| |simpl; lia].
      by apply status_of_record.
    + assert (Hq : queue_of (record_outcome p c w) p = []).
      { rewrite queue_of_record. unfold queue_of.
        by rewrite list_lookup_total_alt, lookup_ge_None_2 by lia. }
      by rewrite Hq.
  - by rewrite settle_settled by congruence.
  - by rewrite settle_settled by congruence.
Qed.


Lemma resolver_well_formed (fuel : nat) (p : pid) (v : value) (w : world) :
  well_formed w -> returns_in well_formed (resolver (chain fuel) p v w).
Proof. apply (settle_well_formed fuel p (op_resolve, v)). Qed.

Lemma rejector_well_formed (fuel : nat) (p : pid) (v : value) (w : world) :
  well_formed w -> returns_in well_formed (rejector (chain fuel) p v w).
Proof. apply (settle_well_formed fuel p (op_reject, v)). Qed.

Lemma all_resolved_well_formed (fuel : nat) (c index : nat) (v : value)
    (w : world) :
  well_formed w -> returns_in well_formed (all_resolved (chain fuel) c index v w).
Proof.
  intros Hw. unfold all_resolved. destruct (all_status _); [|done].
  unfold bind, update_cell, modify.
  destruct (Z.eqb _ _); [|by do 2 apply well_formed_cells].
  apply resolver_well_formed. by do 2 apply well_formed_cells.
Qed.

Lemma all_rejected_well_formed (fuel : nat) (c : nat) (v : value) (w : world) :
  well_formed w -> returns_in well_formed (all_rejected (chain fuel) c v w).
Proof.
  intros Hw. unfold all_rejected, bind, update_cell, modify.
  apply rejector_well_formed. by apply well_formed_cells.
Qed.

(** A call of a settlement function does not throw. *)
Lemma call_settlement_function (fuel : nat) (f v : value) (w : world) :
  well_formed w -> settlement_function f ->
  returns_in well_formed (call handlers (chain fuel) f v w).
Proof.
  intros Hw [d [-> | ->]]; cbn [call]; unfold bind, ret.
  - pose proof (resolver_well_formed fuel d v w Hw) as H.
    by destruct (resolver _ _ _ _).
  - pose proof (rejector_well_formed fuel d v w Hw) as H.
    by destruct (rejector _ _ _ _).
Qed.

(** A call of any value, where a handler of the caller receives a value
    that is not a Promise. *)
Lemma call_well_formed (fuel : nat) (f v : value) (w : world) :
  well_formed w -> is_promise v = false ->
  ends_in well_formed (call handlers (chain fuel) f v w).
Proof.
  intros Hw Hv.
  destruct f as [| | | | | |[p|p|c index|c|h]| |]; cbn [call]; try done;
    unfold bind, ret.
  - pose proof (resolver_well_formed fuel p v w Hw) as H.
    by destruct (resolver _ _ _ _).
  - pose proof (rejector_well_formed fuel p v w Hw) as H.
    by destruct (rejector _ _ _ _).
  - pose proof (all_resolved_well_formed fuel c index v w Hw) as H.
    by destruct (all_resolved _ _ _ _ _).
  - pose proof (all_rejected_well_formed fuel c v w Hw) as H.
    by destruct (all_rejected _ _ _ _).
  - unfold modify, throw.
    destruct (handlers h v); simpl; by apply well_formed_log.
Qed.

Lemma new_Promise_well_formed (func : producer) (w : world) :
  well_formed w -> returns_in well_formed (new_Promise func w).
Proof.
  intros Hw. unfold new_Promise, bind, setImmediate, modify, ret. simpl.
  apply well_formed_task; [|done]. by apply well_formed_grown.
Qed.

Lemma call_then_well_formed (v f g : value) (w : world) :
  well_formed w -> ends_in well_formed (call_then v f g w).
Proof.
  intros Hw. destruct v; cbn [call_then]; try done.
  apply returns_in_ends_in.
  apply (new_Promise_well_formed (then_producer p f g) w Hw).
Qed.

Lemma forEach_well_formed (c : nat) (iterable : list value) (index : nat)
    (w : world) :
  well_formed w -> ends_in well_formed (forEach (all_each c) iterable index w).
Proof.
  revert index w. induction iterable as [|v rest IH]; intros index w Hw; [done|].
  cbn [forEach]. unfold bind at 1.
  assert (He : ends_in well_formed (all_each c v index w)).
  { unfold all_each, bind.
    destruct (truthy v && negb (has_then v)); unfold ret.
    - pose proof (call_then_well_formed v (VFun (AllResolved c index))
                    (VFun (AllRejected c)) w Hw) as H.
      by destruct (call_then _ _ _ _).
    - pose proof (new_Promise_well_formed (resolve_producer v) w Hw) as H.
      unfold Promise_resolve, bind, ret.
      destruct (new_Promise _ _) as [p w1|ex w1|]; try done.
      pose proof (call_then_well_formed (VPromise p) (VFun (AllResolved c index))
                    (VFun (AllRejected c)) w1 H) as H'.
      by destruct (call_then _ _ _ _). }
  destruct (all_each c v index w) as [[] w1|ex w1|]; try done. by apply IH.
Qed.

Lemma run_body_well_formed (fuel : nat) (p : pid) (body : list stmt) (w : world) :
  well_formed w -> ends_in well_formed (run_body (chain fuel) p body w).
Proof.
  revert w. induction body as [|[v|v|ex] rest IH]; intros w Hw; simpl;
    try done; unfold bind.
  - pose proof (resolver_well_formed fuel p v w Hw) as H.
    destruct (resolver _ _ _ _) as [[] w1|ex w1|]; try done. by apply IH.
  - pose proof (rejector_well_formed fuel p v w Hw) as H.
    destruct (rejector _ _ _ _) as [[] w1|ex w1|]; try done. by apply IH.
Qed.

Lemma run_producer_well_formed (fuel : nat) (p : pid) (func : producer)
    (w : world) :
  well_formed w -> ends_in well_formed (run_producer fuel p func w).
Proof.
  intros Hw. destruct func; cbn [run_producer].
  - by apply run_body_well_formed.
  - destruct (truthy v && has_then v).
    + unfold bind, ret.
      pose proof (call_then_well_formed v (VFun (Resolver p)) (VFun (Rejector p))
                    w Hw) as H.
      by destruct (call_then _ _ _ _).
    + apply returns_in_ends_in. by apply resolver_well_formed.
  - apply returns_in_ends_in. by apply rejector_well_formed.
  - unfold bind, modify. apply forEach_well_formed. by apply well_formed_cells.
  - apply returns_in_ends_in. apply chain_well_formed; [done|]. by eexists _, _, _.
  - apply returns_in_ends_in. apply chain_well_formed; [done|].
    by exists p, VNull, onRejected.
Qed.

(** No callback of the library lets an exception escape. *)
Lemma run_task_well_formed (fuel : nat) (t : task) (w : world) :
  well_formed w -> task_ok w t ->
  returns_in well_formed (run_task handlers fuel t w).
Proof.
  intros Hw Ht. destruct t as [p func|p a op|f v]; cbn [run_task].
  - unfold try_catch.
    pose proof (run_producer_well_formed fuel p func w Hw) as H.
    destruct (run_producer fuel p func w) as [[] w1|ex w1|]; try done.
    by apply rejector_well_formed.
  - destruct Ht as (Ha & Hs & Hf). unfold try_catch, bind at 1.
    pose proof (call_well_formed fuel (args_get a op) (fate_of w p) w Hw Hf) as H.
    pose proof (built_by_then_link a op_resolve Ha) as Hres.
    pose proof (built_by_then_link a op_reject Ha) as Hrej.
    cbn [link_get] in Hres, Hrej.
    assert (Hcatch : forall ex w1, well_formed w1 ->
      returns_in well_formed
        ((call handlers (chain fuel) (link_reject (args_link a)) ex ;;; ret tt) w1)).
    { intros ex w1 Hw1. unfold bind, ret.
      pose proof (call_settlement_function fuel _ ex w1 Hw1 Hrej) as H'.
      by destruct (call handlers (chain fuel) (link_reject (args_link a)) ex w1). }
    destruct (call handlers (chain fuel) (args_get a op) (fate_of w p) w)
      as [r w1|ex w1|]; simpl in H; [|by apply Hcatch|done].
    unfold bind, ret.
    pose proof (call_settlement_function fuel _ r w1 H Hres) as H'.
    by destruct (call handlers (chain fuel) (link_resolve (args_link a)) r w1).
  - destruct Ht as (Hf & Hv). unfold bind, ret.
    pose proof (call_settlement_function fuel f v w Hw Hf) as H'.
    by destruct (call _ _ _ _ _).
Qed.

Lemma empty_world_well_formed : well_formed empty_world.
Proof. by repeat split. Qed.

Lemma step_well_formed (fuel i : nat) (w w' : world) :
  well_formed w -> step handlers fuel i w = Some w' -> well_formed w'.
Proof.
  intros Hw. unfold step. destruct (tasks w !! i) as [t|] eqn:Hi; [|done].
  assert (Ht : task_ok (set_tasks (delete i) w) t).
  { destruct Hw as (_ & Ht & _). by apply (Forall_lookup_1 _ _ _ _ Ht Hi). }
  pose proof (run_task_well_formed fuel t _ (well_formed_tasks_delete w i Hw) Ht) as H.
  destruct (run_task _ _ _ _) as [[] w1|ex w1|]; try done. by intros [= <-].
Qed.

Lemma perform_well_formed (fuel : nat) (a : action) (w w' : world) :
  well_formed w -> perform handlers fuel a w = Some w' -> well_formed w'.
Proof.
  intros Hw.
  assert (Hc : forall A (r : outcome A), returns_in well_formed r ->
            completed r = Some w' -> well_formed w').
  { intros A [x w1|ex w1|]; simpl; intros H ?; by simplify_eq. }
  destruct a; cbn [perform]; try (apply Hc).
  - by apply new_Promise_well_formed.
  - by apply settle_well_formed.
  - by apply (new_Promise_well_formed (resolve_producer v)).
  - by apply (new_Promise_well_formed (reject_producer reason)).
  - by apply (new_Promise_well_formed (all_producer iterable)).
  - by apply (new_Promise_well_formed (then_producer p f g)).
  - by apply (new_Promise_well_formed (catch_producer p g)).
  - by apply step_well_formed.
Qed.

Lemma play_well_formed (fuel : nat) (script : list action) (w w' : world) :
  well_formed w -> play handlers fuel script w = Some w' -> well_formed w'.
Proof.
  revert w. induction script as [|a rest IH]; intros w Hw; simpl.
  - by intros [= <-].
  - destruct (perform handlers fuel a w) as [w1|] eqn:Hp; [|done].
    apply IH. by eapply perform_well_formed.
Qed.

End WellFormed.

Section Producers.
Variable handlers : nat -> value -> result.

Lemma resolver_settled (ch : chain_fn) (p : pid) (v : value) (w : world) :
  status_of w p <> PENDING -> resolver ch p v w = Ok tt w.
Proof. apply (settle_settled ch p (op_resolve, v)). Qed.

Lemma rejector_settled (ch : chain_fn) (p : pid) (v : value) (w : world) :
  status_of w p <> PENDING -> rejector ch p v w = Ok tt w.
Proof. apply (settle_settled ch p (op_reject, v)). Qed.

(** Once the Promise is settled the rest of the producer changes nothing,
    also when it throws. *)
Lemma producer_rest (fuel : nat) (p : pid) (body : list stmt) (w : world) :
  status_of w p <> PENDING ->
  try_catch (run_body (chain fuel) p body) (fun ex => rejector (chain fuel) p ex) w
    = Ok tt w.
Proof.
  intros Hs. unfold try_catch.
  assert (H : run_body (chain fuel) p body w = Ok tt w \/
              exists ex, run_body (chain fuel) p body w = Throw ex w).
  { induction body as [|[v|v|ex] rest IH]; simpl; unfold bind, throw.
    - by left.
    - by rewrite resolver_settled.
    - by rewrite rejector_settled.
    - right. by eexists. }
  destruct H as [-> | [ex ->]]; [done|]. by apply rejector_settled.
Qed.

(** The callback of a caller's producer: the first statement that settles
    decides, and what follows it changes nothing. *)
Lemma producer_task_ends (fuel : nat) (p : pid) (body : list stmt)
    (c : operation * value) (w : world) :
  (p < length (heap w))%nat ->
  status_of w p = PENDING ->
  first_outcome body = Some c ->
  ends_in (fun w1 => status_of w1 p = settled_as (fst c) /\ fate_of w1 p = snd c /\
                     log w1 = log w)
    (run_task handlers fuel (producer_task p (caller_producer body)) w).
Proof.
  intros Hp Hs Hc.
  pose proof (settle_records fuel p c w Hp Hs) as Hr.
  assert (Hset : forall w1, status_of w1 p = settled_as (fst c) ->
                            status_of w1 p <> PENDING).
  { intros w1 ->. by destruct (fst c). }
  assert (Hhead : forall rest,
    ends_in (fun w1 => status_of w1 p = settled_as (fst c) /\ fate_of w1 p = snd c /\
                       log w1 = log w)
      (try_catch (settle (chain fuel) p c ;;; run_body (chain fuel) p rest)
         (fun ex => rejector (chain fuel) p ex) w)).
  { intros rest. unfold try_catch, bind.
    destruct (settle (chain fuel) p c w) as [[] w1|ex w1|]; [| |done];
      simpl in Hr; destruct Hr as (Hst & Hf & _ & Hl).
    - pose proof (producer_rest fuel p rest w1 (Hset w1 Hst)) as Hrest.
      unfold try_catch in Hrest.
      destruct (run_body (chain fuel) p rest w1) as [[] w2|ex2 w2|];
        [by simplify_eq| |done].
      rewrite Hrest. done.
    - rewrite rejector_settled by (by apply Hset). done. }
  cbn [run_task run_producer].
  destruct body as [|[v|v|ex] rest]; simpl in Hc; simplify_eq.
  - apply (Hhead rest).
  - apply (Hhead rest).
  - unfold try_catch, throw. cbn [run_body]. unfold throw.
    unfold settle in Hr. cbn [fst snd] in *.
    destruct (rejector (chain fuel) p ex w) as [[] w1|ex1 w1|]; simpl in *;
      try done; by destruct Hr as (? & ? & _ & ?).
Qed.

Lemma producer_task_plain (fuel : nat) (p : pid) (body : list stmt)
    (c : operation * value) (w : world) :
  (p < length (heap w))%nat ->
  status_of w p = PENDING ->
  first_outcome body = Some c ->
  is_promise (snd c) = false ->
  run_task handlers fuel (producer_task p (caller_producer body)) w =
    Ok tt (settled p c w).
Proof.
  intros Hp Hs Hc Hv.
  pose proof (settle_plain fuel p c w Hp Hs Hv) as Hset.
  fold (settled p c w) in Hset.
  assert (Hst : status_of (settled p c w) p <> PENDING).
  { change (status_of (settled p c w) p) with (status_of (record_outcome p c w) p).
    rewrite status_of_record by done. by destruct (fst c). }
  assert (Hhead : forall rest,
    try_catch (settle (chain fuel) p c ;;; run_body (chain fuel) p rest)
      (fun ex => rejector (chain fuel) p ex) w = Ok tt (settled p c w)).
  { intros rest. pose proof (producer_rest fuel p rest _ Hst) as Hrest.
    unfold try_catch, bind in *. rewrite Hset. done. }
  cbn [run_task run_producer].
  destruct body as [|[v|v|ex] rest]; simpl in Hc; simplify_eq.
  - apply (Hhead rest).
  - apply (Hhead rest).
  - unfold try_catch, throw. cbn [run_body]. unfold throw. apply Hset.
Qed.

End Producers.

Section ResolveReject.
Variable handlers : nat -> value -> result.

Lemma step_at (fuel : nat) (w : world) (before after : list task) (t : task) :
  tasks w = before ++ t :: after ->
  step handlers fuel (length before) w =
    completed (run_task handlers fuel t (set_tasks (fun _ => before ++ after) w)).
Proof.
  intros Ht. unfold step. rewrite Ht, list_lookup_middle by done.
  replace (set_tasks (delete (length before)) w)
    with (set_tasks (fun _ => before ++ after) w);
    [by destruct (run_task _ _ _ _)|].
  unfold set_tasks. by rewrite Ht, delete_middle.
Qed.

(** The callback of the producer of a Promise that was just created, in the
    world [new Promise] left. *)
Lemma step_new_promise (fuel : nat) (func : producer) (w : world) :
  step handlers fuel (length (tasks w)) (with_new_promise func w) =
    completed (run_task handlers fuel (producer_task (length (heap w)) func)
                 (grown w)).
Proof.
  rewrite (step_at fuel _ (tasks w) [] (producer_task (length (heap w)) func))
    by done.
  unfold with_new_promise, grown, set_tasks; simpl. by rewrite app_nil_r.
Qed.

Lemma settle_fresh (ch : chain_fn) (c : operation * value) (w : world) :
  settle ch (length (heap w)) c (grown w) =
    Ok tt (record_outcome (length (heap w)) c (grown w)).
Proof.
  destruct (grown_fresh w) as (Hs & Hq & _). by apply settle_no_reactions.
Qed.

Lemma record_fresh (c : operation * value) (w : world) :
  status_of (record_outcome (length (heap w)) c (grown w)) (length (heap w))
    = settled_as (fst c) /\
  fate_of (record_outcome (length (heap w)) c (grown w)) (length (heap w)) = snd c.
Proof.
  destruct (grown_fresh w) as (_ & _ & Hl).
  by rewrite status_of_record, fate_of_record.
Qed.

Lemma resolve_plain (fuel : nat) (v : value) (w : world) :
  is_promise v = false ->
  step handlers fuel (length (tasks w)) (with_new_promise (resolve_producer v) w) =
    Some (record_outcome (length (heap w)) (op_resolve, v) (grown w)).
Proof.
  intros Hv. rewrite step_new_promise. cbn [run_task run_producer].
  unfold has_then. rewrite Hv, andb_false_r. unfold try_catch.
  change (resolver ?ch ?p v) with (settle ch p (op_resolve, v)).
  by rewrite settle_fresh.
Qed.

Lemma reject_any (fuel : nat) (reason : value) (w : world) :
  step handlers fuel (length (tasks w)) (with_new_promise (reject_producer reason) w) =
    Some (record_outcome (length (heap w)) (op_reject, reason) (grown w)).
Proof.
  rewrite step_new_promise. cbn [run_task run_producer]. unfold try_catch.
  change (rejector ?ch ?p reason) with (settle ch p (op_reject, reason)).
  by rewrite settle_fresh.
Qed.


(** *** [Promise.resolve] of a Promise *)

Lemma grown_length (w : world) : length (heap (grown w)) = S (length (heap w)).
Proof. simpl. rewrite length_app. simpl. lia. Qed.

Lemma grown_twice_old (w : world) (p : pid) :
  (p < length (heap w))%nat ->
  heap (grown (grown w)) !!! p = heap w !!! p.
Proof.
  intros Hp. simpl. rewrite !lookup_total_app_l; [done|done|].
  rewrite length_app. simpl. lia.
Qed.

Lemma grown_twice_fresh (w : world) :
  heap (grown (grown w)) !!! length (heap w) = fresh_promise /\
  heap (grown (grown w)) !!! S (length (heap w)) = fresh_promise /\
  length (heap (grown (grown w))) = S (S (length (heap w))).
Proof.
  split; [|split].
  - simpl. rewrite lookup_total_app_l by (rewrite length_app; simpl; lia).
    by rewrite list_lookup_total_middle.
  - simpl. rewrite list_lookup_total_middle; [done|].
    rewrite length_app. simpl. lia.
  - by rewrite !grown_length.
Qed.

Lemma grown_lookup (w : world) (p : pid) : heap (grown w) !!! p = heap w !!! p.
Proof.
  simpl. destruct (decide (p < length (heap w))%nat) as [Hp|Hp].
  - by rewrite lookup_total_app_l.
  - rewrite (list_lookup_total_alt (heap w)), (lookup_ge_None_2 (heap w)) by lia.
    destruct (decide (p = length (heap w))) as [->|Hne].
    + by rewrite list_lookup_total_middle.
    + rewrite list_lookup_total_alt, lookup_ge_None_2; [done|].
      rewrite length_app. simpl. lia.
Qed.

Lemma anchor_same (fuel : nat) (w w' : world) (p : pid) :
  (forall q, heap w' !!! q = heap w !!! q) ->
  anchor fuel w' p = anchor fuel w p.
Proof.
  intros Hs. revert p. induction fuel as [|k IH]; intros p; simpl;
    unfold status_of, fate_of; rewrite (Hs p); [done|].
  destruct (state (heap w !!! p)), (fate (heap w !!! p)); auto.
Qed.

(** The first two callbacks after [Promise.resolve(q)] for a Promise [q]:
    the producer calls [q.then], and the producer of that [then] attaches
    the reaction, which reaches the Promise [t] that [q] ends at. *)
Lemma resolve_promise_attaches (fuel : nat) (q t : pid) (w : world) :
  anchor fuel w q = Some t ->
  run_schedule handlers fuel [length (tasks w); length (tasks w)]
    (with_new_promise (resolve_producer (VPromise q)) w) =
    Some (deliver t (relay_args (length (heap w)) (S (length (heap w))))
            (grown (grown w))).
Proof.
  intros Ha. cbn [run_schedule].
  rewrite step_new_promise, (run_resolve_producer handlers). cbn [completed].
  change (length (tasks w)) with (length (tasks (grown w))).
  rewrite step_new_promise.
  rewrite (run_then_producer handlers fuel q _ t).
  - cbn [completed]. by rewrite grown_length.
  - rewrite <- Ha. apply anchor_same. intros p. by rewrite !grown_lookup.
Qed.

(** [Promise.resolve(q)] of a Promise that is settled with an outcome that
    is not a Promise: three callbacks later the new Promise is settled like
    [q]. *)
Lemma resolve_promise_settled (fuel : nat) (q : pid) (op : operation) (w : world) :
  (q < length (heap w))%nat ->
  status_of w q = settled_as op ->
  is_promise (fate_of w q) = false ->
  run_schedule handlers fuel
    [length (tasks w); length (tasks w); length (tasks w)]
    (with_new_promise (resolve_producer (VPromise q)) w) =
    Some (settled (S (length (heap w))) (op_resolve, VUndefined)
            (settled (length (heap w)) (op, fate_of w q) (grown (grown w)))).
Proof.
  intros Hq Hs Hf.
  change [length (tasks w); length (tasks w); length (tasks w)]
    with ([length (tasks w); length (tasks w)] ++ [length (tasks w)]).
  assert (Happ : forall s1 s2 w0, run_schedule handlers fuel (s1 ++ s2) w0 =
            match run_schedule handlers fuel s1 w0 with
            | Some w' => run_schedule handlers fuel s2 w'
            | None => None
            end).
  { induction s1 as [|i s1 IH]; intros s2 w0; simpl; [done|].
    destruct (step handlers fuel i w0); [apply IH|done]. }
  rewrite Happ, (resolve_promise_attaches fuel q q) by (by apply anchor_plain).
  pose proof (grown_twice_old w q Hq) as Hold.
  destruct (grown_twice_fresh w) as (Hd & Hd' & Hlen).
  assert (Hsq : status_of (grown (grown w)) q = status_of w q)
    by (unfold status_of; by rewrite Hold).
  assert (Hfq : fate_of (grown (grown w)) q = fate_of w q)
    by (unfold fate_of; by rewrite Hold).
  unfold deliver. rewrite Hsq, Hs, Hfq.
  assert (Hdis : forall o, dispatch_task q
            (relay_args (length (heap w)) (S (length (heap w)))) o (fate_of w q) =
            handler_task q (relay_args (length (heap w)) (S (length (heap w)))) o)
    by (by intros []).
  cbn [run_schedule].
  assert (Hstep : step handlers fuel (length (tasks w))
            (set_tasks (fun ts => ts ++
               [handler_task q (relay_args (length (heap w)) (S (length (heap w)))) op])
               (grown (grown w))) =
          Some (settled (S (length (heap w))) (op_resolve, VUndefined)
                  (settled (length (heap w)) (op, fate_of w q) (grown (grown w))))).
  { rewrite (step_at fuel _ (tasks w) []
      (handler_task q (relay_args (length (heap w)) (S (length (heap w)))) op))
      by done.
    replace (set_tasks (fun _ => tasks w ++ []) (set_tasks _ (grown (grown w))))
      with (grown (grown w))
      by (unfold set_tasks, grown, set_heap; simpl; by rewrite app_nil_r).
    rewrite (run_relay handlers fuel q _ _ op); rewrite ?Hfq; try done;
      try lia; unfold status_of; by rewrite ?Hd, ?Hd'. }
  destruct op; cbn [settled_as]; rewrite Hdis, Hstep; done.
Qed.


(** [Promise.resolve(q)] of a pending Promise: two callbacks later the
    reaction is queued at [q], and the callback of that reaction, once [q] is
    settled, settles the new Promise like [q]. *)
Lemma resolve_promise_pending (fuel : nat) (q : pid) (w : world) :
  (q < length (heap w))%nat ->
  status_of w q = PENDING ->
  exists w2,
    run_schedule handlers fuel [length (tasks w); length (tasks w)]
      (with_new_promise (resolve_producer (VPromise q)) w) = Some w2 /\
    status_of w2 (length (heap w)) = PENDING /\
    queue_of w2 q =
      queue_of w q ++ [relay_args (length (heap w)) (S (length (heap w)))] /\
    forall fuel' c, is_promise (snd c) = false ->
      exists w3 w4,
        settle (chain fuel') q c w2 = Ok tt w3 /\
        step handlers fuel' (length (tasks w) + length (queue_of w q)) w3 = Some w4 /\
        status_of w4 (length (heap w)) = settled_as (fst c) /\
        fate_of w4 (length (heap w)) = snd c.
Proof.
  intros Hq Hs.
  pose proof (grown_twice_old w q Hq) as Hold.
  destruct (grown_twice_fresh w) as (Hd & Hd' & Hlen).
  set (d := length (heap w)) in *.
  set (g := grown (grown w)) in *.
  assert (Hsq : status_of g q = PENDING) by (unfold status_of; by rewrite Hold).
  assert (Hqq : queue_of g q = queue_of w q) by (unfold queue_of; by rewrite Hold).
  exists (set_heap (alter (push (relay_args d (S d))) q) g).
  split; [|split; [|split]].
  - rewrite (resolve_promise_attaches fuel q q).
    + unfold deliver. fold d g. by rewrite Hsq.
    + destruct fuel; simpl; by rewrite Hs.
  - rewrite status_of_alter by done. unfold status_of. by rewrite Hd.
  - rewrite queue_of_push. rewrite decide_True by (split; [done|lia]).
    by rewrite Hqq.
  - intros fuel' c Hc.
    set (w2 := set_heap (alter (push (relay_args d (S d))) q) g).
    assert (Hlen2 : length (heap w2) = S (S d))
      by (subst w2; simpl; by rewrite length_alter).
    assert (Hne : q <> d) by lia.
    assert (Hne' : q <> S d) by lia.
    assert (Hs2 : status_of w2 q = PENDING) by (subst w2; by rewrite status_of_alter).
    assert (Hq2 : queue_of w2 q = queue_of w q ++ [relay_args d (S d)]).
    { subst w2. rewrite queue_of_push, decide_True by (split; [done|lia]).
      by rewrite Hqq. }
    assert (Hd2 : heap w2 !!! d = fresh_promise).
    { subst w2. simpl. by rewrite list_lookup_total_alter_ne. }
    assert (Hd2' : heap w2 !!! S d = fresh_promise).
    { subst w2. simpl. by rewrite list_lookup_total_alter_ne. }
    assert (Ht2 : tasks w2 = tasks w) by done.
    clearbody w2.
    set (W := set_tasks (fun _ =>
       (tasks w ++ map (fun a => dispatch_task q a (fst c) (snd c)) (queue_of w q))
       ++ []) (settled q c w2)).
    assert (HW : heap W = heap (record_outcome q c w2)) by done.
    assert (HWl : length (heap W) = S (S d)).
    { rewrite HW. unfold record_outcome; simpl. by rewrite !length_alter. }
    assert (HWq : fate_of W q = snd c).
    { unfold fate_of. rewrite HW. apply fate_of_record. lia. }
    assert (HWd : heap W !!! d = fresh_promise).
    { rewrite HW. unfold record_outcome; simpl.
      by rewrite !list_lookup_total_alter_ne. }
    assert (HWd' : heap W !!! S d = fresh_promise).
    { rewrite HW. unfold record_outcome; simpl.
      by rewrite !list_lookup_total_alter_ne. }
    exists (settled q c w2),
      (settled (S d) (op_resolve, VUndefined) (settled d (fst c, fate_of W q) W)).
    split; [|split].
    + apply settle_plain; [lia|done..].
    + assert (Ht : tasks (settled q c w2) =
        (tasks w ++ map (fun a => dispatch_task q a (fst c) (snd c)) (queue_of w q))
        ++ handler_task q (relay_args d (S d)) (fst c) :: []).
      { unfold settled at 1. cbn [tasks set_tasks].
        change (tasks (record_outcome q c w2)) with (tasks w2).
        rewrite Ht2, Hq2, map_app, app_assoc. do 2 f_equal.
        by destruct (fst c). }
      replace (length (tasks w) + length (queue_of w q))%nat
        with (length (tasks w ++
               map (fun a => dispatch_task q a (fst c) (snd c)) (queue_of w q)))
        by (by rewrite length_app, length_map).
      rewrite (step_at fuel' _ _ _ _ Ht). fold W.
      rewrite (run_relay handlers fuel' q d (S d) (fst c)); try done; try lia;
        try (by rewrite HWq); unfold status_of; by rewrite ?HWd, ?HWd'.
    + change (status_of (settled ?p ?x ?y)) with (status_of (record_outcome p x y)).
      change (fate_of (settled ?p ?x ?y)) with (fate_of (record_outcome p x y)).
      assert (Hrl : (d < length (heap (settled d (fst c, fate_of W q) W)))%nat).
      { rewrite settled_heap, record_outcome_heap, length_alter. lia. }
      destruct (record_outcome_other (settled d (fst c, fate_of W q) W) (S d) d
                  (op_resolve, VUndefined)) as [-> ->]; [lia|].
      change (status_of (settled ?p ?x ?y)) with (status_of (record_outcome p x y)).
      change (fate_of (settled ?p ?x ?y)) with (fate_of (record_outcome p x y)).
      rewrite status_of_record, fate_of_record by lia. by rewrite HWq.
Qed.

End ResolveReject.

Section Catch.
Variable handlers : nat -> value -> result.

(** [catch(g)] attaches the reaction of [then(x, g)] for any [x] that is
    not callable. *)
Lemma catch_args_then (d : pid) (x g : value) :
  is_function x = false -> catch_args d g = then_args d x g.
Proof. intros Hx. unfold catch_args, then_args. by rewrite Hx. Qed.

(** The callback of a reaction whose handler returns, for a downstream
    Promise that has no reaction yet. *)
Lemma returning_handler_task (fuel : nat) (w : world) (p d : pid) (f g : value)
    (op : operation) (h : nat) (r : value) :
  args_get (then_args d f g) op = VFun (Handler h) ->
  handlers h (fate_of w p) = Returns r ->
  status_of w d = PENDING ->
  queue_of w d = [] ->
  run_task handlers fuel (handler_task p (then_args d f g) op) w =
    Ok tt (record_outcome d (op_resolve, r)
             (set_log (fun l => l ++ [(h, fate_of w p)]) w)).
Proof.
  intros Hh Hret Hs Hq. cbn [run_task]. unfold try_catch, bind at 1.
  rewrite Hh. cbn [call]. unfold bind at 1, modify. rewrite Hret. unfold ret at 1.
  unfold bind. cbn [then_args args_link link_resolve call]. unfold bind.
  change (resolver ?ch d r) with (settle ch d (op_resolve, r)).
  by rewrite settle_no_reactions.
Qed.

(** The callback of a reaction whose handler throws, likewise. *)
Lemma throwing_handler_fresh (fuel : nat) (w : world) (p d : pid) (f g : value)
    (op : operation) (h : nat) (ex : value) :
  args_get (then_args d f g) op = VFun (Handler h) ->
  handlers h (fate_of w p) = Throws ex ->
  status_of w d = PENDING ->
  queue_of w d = [] ->
  run_task handlers fuel (handler_task p (then_args d f g) op) w =
    Ok tt (record_outcome d (op_reject, ex)
             (set_log (fun l => l ++ [(h, fate_of w p)]) w)).
Proof.
  intros Hh Hret Hs Hq. cbn [run_task]. unfold try_catch, bind at 1.
  rewrite Hh. cbn [call]. unfold bind at 1, modify. rewrite Hret. unfold throw.
  cbn [then_args args_link link_reject call]. unfold bind.
  change (rejector ?ch d ex) with (settle ch d (op_reject, ex)).
  by rewrite settle_no_reactions.
Qed.

(** The callback that passes an outcome on to a downstream Promise that
    has no reaction yet. *)
Lemma settler_fresh (fuel : nat) (w : world) (d : pid) (op : operation) (v : value) :
  status_of w d = PENDING ->
  queue_of w d = [] ->
  run_task handlers fuel
    (apply_task (link_get {| link_resolve := VFun (Resolver d);
                             link_reject := VFun (Rejector d);
                             link_promise := VPromise d |} op) v) w =
    Ok tt (record_outcome d (op, v) w).
Proof.
  intros Hs Hq. cbn [run_task]. unfold bind.
  destruct op; cbn [link_get link_resolve link_reject call]; unfold bind.
  - change (resolver ?ch d v) with (settle ch d (op_resolve, v)).
    by rewrite settle_no_reactions.
  - change (rejector ?ch d v) with (settle ch d (op_reject, v)).
    by rewrite settle_no_reactions.
Qed.

(** The callback that was submitted last. *)
Lemma step_appended (fuel : nat) (w : world) (t : task) :
  step handlers fuel (length (tasks w)) (set_tasks (fun ts => ts ++ [t]) w) =
    completed (run_task handlers fuel t w).
Proof.
  rewrite (step_at handlers fuel _ (tasks w) [] t) by done.
  do 2 f_equal. destruct w as [h c ts l]. unfold set_tasks; simpl.
  by rewrite app_nil_r.
Qed.

(** [then(f, g)] on a Promise settled with an outcome that is not a
    Promise, followed by the callback of its producer and the callback of
    the reaction: without a handler for the operation the outcome is passed
    on. *)
Lemma then_passes_on (fuel : nat) (w : world) (p : pid) (f g : value)
    (op : operation) :
  (p < length (heap w))%nat ->
  status_of w p = settled_as op ->
  is_promise (fate_of w p) = false ->
  is_function (args_get (then_args (length (heap w)) f g) op) = false ->
  run_schedule handlers fuel [length (tasks w); length (tasks w)]
    (with_new_promise (then_producer p f g) w) =
    Some (record_outcome (length (heap w)) (op, fate_of w p) (grown w)).
Proof.
  intros Hp Hs Hf Hno. cbn [run_schedule].
  pose proof (then_on_settled handlers fuel w p f g op Hp Hs Hf) as Hstep.
  rewrite exec_then in Hstep. rewrite Hstep. clear Hstep.
  destruct (grown_fresh w) as (Hsd & Hqd & Hd).
  unfold dispatch_task. rewrite Hno.
  change (tasks w) with (tasks (grown w)). rewrite step_appended.
  cbn [then_args args_link]. by rewrite settler_fresh.
Qed.

(** With a handler of the caller for the operation, the handler is called
    once with the outcome, and what it does settles the new Promise. *)
Lemma then_calls_handler (fuel : nat) (w : world) (p : pid) (f g : value)
    (op : operation) (h : nat) :
  (p < length (heap w))%nat ->
  status_of w p = settled_as op ->
  is_promise (fate_of w p) = false ->
  args_get (then_args (length (heap w)) f g) op = VFun (Handler h) ->
  run_schedule handlers fuel [length (tasks w); length (tasks w)]
    (with_new_promise (then_producer p f g) w) =
    Some (record_outcome (length (heap w))
            match handlers h (fate_of w p) with
            | Returns r => (op_resolve, r)
            | Throws ex => (op_reject, ex)
            end
            (set_log (fun l => l ++ [(h, fate_of w p)]) (grown w))).
Proof.
  intros Hp Hs Hf Hget. cbn [run_schedule].
  pose proof (then_on_settled handlers fuel w p f g op Hp Hs Hf) as Hstep.
  rewrite exec_then in Hstep. rewrite Hstep. clear Hstep.
  destruct (grown_old w p Hp) as (_ & Hfg & _).
  destruct (grown_fresh w) as (Hsd & Hqd & Hd).
  unfold dispatch_task. rewrite Hget. cbn [is_function].
  change (tasks w) with (tasks (grown w)). rewrite step_appended.
  rewrite <- Hfg.
  destruct (handlers h (fate_of (grown w) p)) eqn:Hh.
  - by rewrite (returning_handler_task fuel (grown w) p _ f g op h v).
  - by rewrite (throwing_handler_fresh fuel (grown w) p _ f g op h ex).
Qed.

(** The producer of [catch(g)] is the producer of [then(x, g)]. *)
Lemma catch_producer_then (fuel : nat) (p d : pid) (x g : value) (w : world) :
  is_function x = false ->
  run_task handlers fuel (producer_task d (catch_producer p g)) w =
  run_task handlers fuel (producer_task d (then_producer p x g)) w.
Proof.
  intros Hx. cbn [run_task run_producer]. by rewrite (catch_args_then d x g Hx).
Qed.

Lemma catch_as_then (fuel : nat) (schedule : list nat) (p : pid) (x g : value)
    (w : world) :
  is_function x = false ->
  run_schedule handlers fuel (length (tasks w) :: schedule)
    (with_new_promise (catch_producer p g) w) =
  run_schedule handlers fuel (length (tasks w) :: schedule)
    (with_new_promise (then_producer p x g) w).
Proof.
  intros Hx. cbn [run_schedule].
  by rewrite !step_new_promise, (catch_producer_then fuel p _ x g _ Hx).
Qed.

End Catch.

Section PipelineFacts.
Variable handlers : nat -> value -> result.

Lemma then_chain_returns (src : pid) (stages : list stage) (w : world) :
  exists r w1,
    then_chain (VPromise src) (map stage_values stages) w = Ok r w1 /\
    heap w1 = heap w ++ replicate (length stages) fresh_promise /\
    tasks w1 = tasks w ++ chain_tasks src (length (heap w)) stages /\
    cells w1 = cells w /\ log w1 = log w.
Proof.
  revert src w. induction stages as [|s rest IH]; intros src w.
  - exists (VPromise src), w. simpl. by rewrite !app_nil_r.
  - cbn [map then_chain stage_values]. unfold bind at 1. cbn [call_then].
    unfold Promise_then, bind at 1, new_Promise, bind, modify, setImmediate,
      modify, ret. cbn.
    match goal with |- context [then_chain _ _ ?x] => set (w0 := x) end.
    destruct (IH (length (heap w)) w0) as (r & w1 & -> & Hh & Ht & Hc & Hl).
    exists r, w1. split; [done|]. subst w0. simpl in *.
    rewrite Hh, Ht, <- !app_assoc. repeat split; try done.
    rewrite length_app. simpl.
    replace (length (heap w) + 1)%nat with (S (length (heap w))) by lia. done.
Qed.


Lemma anchor_pending (fuel : nat) (w : world) (p : pid) :
  status_of w p = PENDING -> anchor fuel w p = Some p.
Proof. intros Hs. destruct fuel; simpl; by rewrite Hs. Qed.

(** The producers of the later stages each queue their reaction at the
    Promise of the stage before. *)
Lemma attach_stages (fuel : nat) (stages : list stage) (d : pid) (w : world)
    (later : list task) :
  tasks w = chain_tasks d (S d) stages ++ later ->
  (d + length stages < length (heap w))%nat ->
  (forall q, (d <= q <= d + length stages)%nat -> heap w !!! q = fresh_promise) ->
  exists w',
    run handlers fuel (length stages) w = Some w' /\
    tasks w' = later /\ waiting w' d stages /\
    log w' = log w /\ cells w' = cells w /\
    length (heap w') = length (heap w) /\
    (forall q, (q < d)%nat -> heap w' !!! q = heap w !!! q).
Proof.
  revert d w. induction stages as [|s rest IH]; intros d w Ht Hlen Hfresh.
  - exists w. simpl in *. repeat split; try done; try lia.
    + unfold status_of. rewrite Hfresh by lia. done.
    + unfold queue_of. rewrite Hfresh by lia. done.
  - cbn [chain_tasks] in Ht. rewrite <- app_comm_cons in Ht. simpl length in *.
    rewrite (run_S handlers fuel _ w _ _ Ht), (step_head handlers fuel w _ _ Ht).
    set (w0 := set_tasks (fun _ => chain_tasks (S d) (S (S d)) rest ++ later) w).
    assert (Hsd : status_of w0 d = PENDING).
    { unfold status_of. change (heap w0) with (heap w). by rewrite Hfresh by lia. }
    rewrite (run_then_producer handlers fuel d (S d) d) by (by apply anchor_pending).
    unfold deliver. rewrite Hsd.
    set (w1 := set_heap (alter (push (stage_args (S d) s)) d) w0).
    assert (Hl1 : length (heap w1) = length (heap w))
      by (subst w1 w0; simpl; by rewrite length_alter).
    assert (Hother : forall q, q <> d -> heap w1 !!! q = heap w !!! q).
    { intros q Hq. subst w1 w0. simpl. by rewrite list_lookup_total_alter_ne. }
    assert (Hd1 : heap w1 !!! d = push (stage_args (S d) s) fresh_promise).
    { subst w1 w0. simpl. rewrite list_lookup_total_alter_eq by lia.
      by rewrite Hfresh by lia. }
    destruct (IH (S d) w1) as (w' & Hrun & Ht' & Hw' & Hl' & Hc' & Hlen' & Hk').
    + done.
    + lia.
    + intros q Hq. rewrite Hother by lia. apply Hfresh. lia.
    + exists w'. split; [done|]. split; [done|].
      split; [|split; [done|split; [done|split; [lia|]]]].
      * cbn [waiting]. unfold status_of, queue_of.
        rewrite (Hk' d) by lia. rewrite Hd1. simpl.
        repeat split; try done. lia.
      * intros q Hq. rewrite Hk' by lia. apply Hother. lia.
Qed.

Lemma set_log_nil (w : world) : set_log (fun l => l ++ []) w = w.
Proof. destruct w. unfold set_log; simpl. by rewrite app_nil_r. Qed.

(** A settlement with an outcome that is not a Promise, or of a Promise
    without reactions. *)
Lemma settle_closed (fuel : nat) (p : pid) (c : operation * value) (w : world) :
  (p < length (heap w))%nat ->
  status_of w p = PENDING ->
  is_promise (snd c) = false \/ queue_of w p = [] ->
  settle (chain fuel) p c w = Ok tt (settled p c w).
Proof.
  intros Hp Hs [Hc|Hq].
  - by apply settle_plain.
  - rewrite settle_no_reactions by done. unfold settled. rewrite Hq. simpl.
    destruct w; unfold record_outcome, set_tasks, set_heap; simpl.
    by rewrite app_nil_r.
Qed.

(** The callback of the reaction of one stage. *)
Lemma run_stage (fuel : nat) (w : world) (src d : pid) (s : stage)
    (c : operation * value) :
  fate_of w src = snd c ->
  (d < length (heap w))%nat ->
  status_of w d = PENDING ->
  is_promise (snd (stage_outcome handlers s c)) = false \/ queue_of w d = [] ->
  run_task handlers fuel (dispatch_task src (stage_args d s) (fst c) (snd c)) w =
    Ok tt (settled d (stage_outcome handlers s c)
             (set_log (fun l => l ++ stage_calls s c) w)).
Proof.
  intros Hf Hd Hs Hc. unfold dispatch_task, stage_outcome, stage_calls in *.
  assert (Hget : args_get (stage_args d s) (fst c) =
            match stage_handler s (fst c) with
            | Some h => VFun (Handler h)
            | None => VNull
            end).
  { unfold stage_args, then_args, stage_handler.
    destruct (fst c), s as [[f|] [g|]]; done. }
  rewrite Hget.
  destruct (stage_handler s (fst c)) as [h|]; cbn [is_function].
  - cbn [run_task]. unfold try_catch, bind at 1. rewrite Hget, Hf. cbn [call].
    unfold bind at 1, modify.
    set (w0 := set_log _ w).
    destruct (handlers h (snd c)) as [r|ex]; unfold ret at 1, throw.
    + unfold bind at 1. cbn [stage_args then_args args_link link_resolve call].
      unfold bind.
      change (resolver ?ch d r) with (settle ch d (op_resolve, r)).
      by rewrite settle_closed.
    + cbn [stage_args then_args args_link link_reject call]. unfold bind.
      change (rejector ?ch d ex) with (settle ch d (op_reject, ex)).
      by rewrite settle_closed.
  - rewrite set_log_nil. cbn [run_task]. unfold bind.
    destruct c as [[] v]; cbn [fst snd link_get stage_args then_args args_link
      link_resolve link_reject call]; unfold bind.
    + change (resolver ?ch d v) with (settle ch d (op_resolve, v)).
      by rewrite settle_closed.
    + change (rejector ?ch d v) with (settle ch d (op_reject, v)).
      by rewrite settle_closed.
Qed.


Lemma waiting_frame (w w' : world) (d : pid) (stages : list stage) :
  length (heap w') = length (heap w) ->
  (forall q, (d <= q)%nat -> heap w' !!! q = heap w !!! q) ->
  waiting w d stages -> waiting w' d stages.
Proof.
  intros Hl. revert d. induction stages as [|s rest IH]; intros d Hk;
    cbn [waiting]; unfold status_of, queue_of; rewrite (Hk d) by lia; rewrite Hl.
  - done.
  - intros (? & ? & ? & Hw). repeat split; try done.
    apply IH; [|done]. intros q Hq. apply Hk. lia.
Qed.

Lemma settled_lookup (d q : pid) (c : operation * value) (w : world)
    (f : list (nat * value) -> list (nat * value)) :
  q <> d -> heap (settled d c (set_log f w)) !!! q = heap w !!! q.
Proof.
  intros Hq. rewrite settled_heap, record_outcome_heap. simpl.
  by rewrite list_lookup_total_alter_ne.
Qed.

(** The callbacks of the reactions run one after the other, each started by
    the settlement of the Promise before. *)
Lemma run_stages (fuel : nat) (rest : list stage) (s : stage) (src d : pid)
    (c : operation * value) (w : world) :
  tasks w = [dispatch_task src (stage_args d s) (fst c) (snd c)] ->
  fate_of w src = snd c ->
  waiting w d rest ->
  flows handlers rest (stage_outcome handlers s c) ->
  exists w',
    run handlers fuel (S (length rest)) w = Some w' /\
    tasks w' = [] /\
    log w' = log w ++ pipeline_calls handlers (s :: rest) c /\
    cells w' = cells w /\
    length (heap w') = length (heap w) /\
    settled_chain handlers w' d (s :: rest) c /\
    (forall q, (q < d)%nat -> heap w' !!! q = heap w !!! q).
Proof.
  revert s src d c w. induction rest as [|s' rest IH];
    intros s src d c w Ht Hf Hw Hflow.
  - destruct Hw as (Hd & Hs & Hq).
    rewrite (run_S handlers fuel _ w _ _ Ht), (step_head handlers fuel w _ _ Ht).
    rewrite run_stage; try done; [|by right].
    eexists. split; [simpl; reflexivity|].
    cbn [pipeline_calls settled_chain]. rewrite app_nil_r.
    change (status_of (settled ?p ?x ?y)) with (status_of (record_outcome p x y)).
    change (fate_of (settled ?p ?x ?y)) with (fate_of (record_outcome p x y)).
    rewrite status_of_record, fate_of_record by done.
    split; [|split; [done|split; [done|split; [|split; [done|]]]]].
    + unfold settled. simpl. change (queue_of ?x d) with (queue_of w d).
      by rewrite Hq.
    + rewrite settled_heap, record_outcome_heap, length_alter. done.
    + intros q Hq'. by rewrite settled_lookup by lia.
  - destruct Hw as (Hd & Hs & Hq & Hw). destruct Hflow as [Hplain Hflow].
    rewrite (run_S handlers fuel _ w _ _ Ht), (step_head handlers fuel w _ _ Ht).
    rewrite run_stage; try done; [|by left].
    set (c1 := stage_outcome handlers s c) in *.
    set (w1 := settled d c1 _).
    assert (Hl1 : length (heap w1) = length (heap w)).
    { subst w1. by rewrite settled_heap, record_outcome_heap, length_alter. }
    assert (Hother : forall q, q <> d -> heap w1 !!! q = heap w !!! q).
    { intros q Hq'. subst w1. by rewrite settled_lookup. }
    assert (Hs1 : status_of w1 d = settled_as (fst c1) /\ fate_of w1 d = snd c1).
    { subst w1.
      change (status_of (settled ?p ?x ?y)) with (status_of (record_outcome p x y)).
      change (fate_of (settled ?p ?x ?y)) with (fate_of (record_outcome p x y)).
      by rewrite status_of_record, fate_of_record. }
    assert (Ht1 : tasks w1 = [dispatch_task d (stage_args (S d) s') (fst c1) (snd c1)]).
    { subst w1. unfold settled. simpl. change (queue_of ?x d) with (queue_of w d).
      by rewrite Hq. }
    assert (Hlog1 : log w1 = log w ++ stage_calls s c) by done.
    assert (Hc1 : cells w1 = cells w) by done.
    clearbody w1.
    destruct (IH s' d (S d) c1 w1) as (w' & Hrun & Ht' & Hlog' & Hc' & Hl' & Hch & Hk');
      [done|by destruct Hs1| |done|].
    { apply (waiting_frame w); [done| |done]. intros q Hq'. apply Hother. lia. }
    exists w'. split; [done|]. split; [done|].
    split; [|split; [congruence|split; [congruence|split]]].
    + rewrite Hlog', Hlog1. cbn [pipeline_calls]. fold c1. by rewrite <- app_assoc.
    + cbn [settled_chain] in *. fold c1. unfold status_of, fate_of in *.
      rewrite (Hk' d) by lia. destruct Hs1. done.
    + intros q Hq'. rewrite Hk' by lia. apply Hother. lia.
Qed.


Lemma settled_chain_last (w : world) (d : pid) (s : stage) (rest : list stage)
    (c : operation * value) :
  settled_chain handlers w d (s :: rest) c ->
  status_of w (d + length rest) = settled_as (fst (pipeline handlers (s :: rest) c)) /\
  fate_of w (d + length rest) = snd (pipeline handlers (s :: rest) c).
Proof.
  revert s d c. induction rest as [|s' rest IH]; intros s d c (Hs & Hf & Hrest).
  - simpl. by rewrite Nat.add_0_r.
  - destruct (IH s' (S d) _ Hrest) as [H1 H2]. simpl length.
    replace (d + S (length rest))%nat with (S d + length rest)%nat by lia.
    done.
Qed.

(** The callbacks a chain leaves behind, from the producer of the first
    [then] to the reaction of the last stage. *)
Lemma chain_tasks_run (fuel : nat) (w1 : world) (p L : pid) (s : stage)
    (rest : list stage) (c : operation * value) :
  tasks w1 = chain_tasks p L (s :: rest) ->
  (p < L)%nat ->
  length (heap w1) = (L + S (length rest))%nat ->
  (forall q, (L <= q <= L + length rest)%nat -> heap w1 !!! q = fresh_promise) ->
  status_of w1 p = settled_as (fst c) ->
  fate_of w1 p = snd c ->
  flows handlers (s :: rest) c ->
  exists w',
    run handlers fuel (2 * length (s :: rest)) w1 = Some w' /\
    tasks w' = [] /\
    log w' = log w1 ++ pipeline_calls handlers (s :: rest) c /\
    cells w' = cells w1 /\
    settled_chain handlers w' L (s :: rest) c /\
    (forall q, (q < L)%nat -> heap w' !!! q = heap w1 !!! q).
Proof.
  intros Ht1 Hp Hlen1 Hnew Hs Hf [Hplain Hflow].
  cbn [chain_tasks] in Ht1. set (n := length rest) in *.
  replace (2 * length (s :: rest))%nat with (1 + (n + S n))%nat by (simpl; fold n; lia).
  rewrite (run_add handlers fuel 1).
  (* the producer of the first [then] *)
  assert (Hfirst : run handlers fuel 1 w1 =
    Some (set_tasks (fun _ => chain_tasks L (S L) rest ++
            [dispatch_task p (stage_args L s) (fst c) (snd c)]) w1)).
  { rewrite (run_S handlers fuel _ w1 _ _ Ht1), (step_head handlers fuel w1 _ _ Ht1).
    rewrite (run_then_producer handlers fuel p L p).
    - simpl. f_equal. unfold deliver.
      change (status_of (set_tasks ?f w1) p) with (status_of w1 p).
      change (fate_of (set_tasks ?f w1) p) with (fate_of w1 p).
      rewrite Hs, Hf. destruct (fst c); done.
    - apply anchor_plain.
      change (fate_of (set_tasks ?f w1) p) with (fate_of w1 p).
      by rewrite Hf. }
  rewrite Hfirst. clear Hfirst.
  set (wA0 := set_tasks _ w1).
  (* the producers of the later stages *)
  destruct (attach_stages fuel rest L wA0
              [dispatch_task p (stage_args L s) (fst c) (snd c)])
    as (wA & HrunA & HtA & HwA & HlA & HcA & HlenA & HkA).
  { done. }
  { change (heap wA0) with (heap w1). fold n. lia. }
  { intros q Hq. change (heap wA0) with (heap w1). apply Hnew. fold n in Hq. lia. }
  fold n in HrunA. rewrite (run_add handlers fuel n), HrunA.
  (* the callbacks of the reactions *)
  destruct (run_stages fuel rest s p L c wA)
    as (w' & Hrun & Ht' & Hlog' & Hc' & Hlen' & Hch & Hk'); try done.
  { unfold fate_of in *. rewrite HkA by done. done. }
  fold n in Hrun. exists w'. split; [done|]. split; [done|].
  split; [|split; [|split; [done|]]].
  - rewrite Hlog', HlA. done.
  - rewrite Hc', HcA. done.
  - intros q Hq. rewrite Hk', HkA by done. done.
Qed.

Lemma then_chain_runs (fuel : nat) (w : world) (p : pid) (s : stage)
    (rest : list stage) (c : operation * value) :
  tasks w = [] ->
  (p < length (heap w))%nat ->
  status_of w p = settled_as (fst c) ->
  fate_of w p = snd c ->
  flows handlers (s :: rest) c ->
  exists w',
    run handlers fuel (2 * length (s :: rest))
      (exec (then_chain (VPromise p) (map stage_values (s :: rest))) w) = Some w' /\
    tasks w' = [] /\
    log w' = log w ++ pipeline_calls handlers (s :: rest) c /\
    settled_chain handlers w' (length (heap w)) (s :: rest) c /\
    (forall q, (q < length (heap w))%nat -> heap w' !!! q = heap w !!! q).
Proof.
  intros Hquiet Hp Hs Hf Hflow.
  destruct (then_chain_returns p (s :: rest) w) as (r & w1 & Hexec & Hh1 & Ht1 & Hc1 & Hl1).
  unfold exec. rewrite Hexec. cbn [world_after].
  rewrite Hquiet in Ht1. cbn [app] in Ht1.
  assert (Hold : forall q, (q < length (heap w))%nat -> heap w1 !!! q = heap w !!! q).
  { intros q Hq. rewrite Hh1. by apply lookup_total_app_l. }
  destruct (chain_tasks_run fuel w1 p (length (heap w)) s rest c)
    as (w' & Hrun & Ht' & Hlog' & Hc' & Hch & Hk'); try done.
  - rewrite Hh1, length_app, length_replicate. done.
  - intros q Hq. rewrite Hh1, lookup_total_app_r by lia.
    apply lookup_total_replicate_2. simpl. lia.
  - unfold status_of in *. by rewrite Hold.
  - unfold fate_of in *. by rewrite Hold.
  - exists w'. split; [done|]. split; [done|]. split; [by rewrite Hlog', Hl1|].
    split; [done|]. intros q Hq. rewrite Hk' by done. by apply Hold.
Qed.

(** The same chain on a Promise the caller constructs: the callback of the
    caller's producer runs first and settles the Promise. *)
Lemma new_promise_chain_runs (fuel : nat) (w : world) (body : list stmt)
    (s : stage) (rest : list stage) (c : operation * value) :
  tasks w = [] ->
  first_outcome body = Some c ->
  flows handlers (s :: rest) c ->
  exists w',
    run handlers fuel (1 + 2 * length (s :: rest))
      (exec (p <- new_Promise (caller_producer body) ;;
             then_chain (VPromise p) (map stage_values (s :: rest))) w) = Some w' /\
    tasks w' = [] /\
    log w' = log w ++ pipeline_calls handlers (s :: rest) c /\
    status_of w' (length (heap w)) = settled_as (fst c) /\
    fate_of w' (length (heap w)) = snd c /\
    settled_chain handlers w' (S (length (heap w))) (s :: rest) c /\
    (forall q, (q < length (heap w))%nat -> heap w' !!! q = heap w !!! q).
Proof.
  intros Hquiet Hbody Hflow.
  set (P := length (heap w)).
  set (w0 := with_new_promise (caller_producer body) w).
  destruct (then_chain_returns P (s :: rest) w0)
    as (r & w1 & Hexec & Hh1 & Ht1 & Hc1 & Hl1).
  assert (Hex : exec (p <- new_Promise (caller_producer body) ;;
                      then_chain (VPromise p) (map stage_values (s :: rest))) w = w1).
  { assert (Hnp : new_Promise (caller_producer body) w = Ok P w0) by done.
    unfold exec, bind. by rewrite Hnp, Hexec. }
  rewrite Hex. clear Hex Hexec.
  assert (HL0 : length (heap w0) = S P).
  { subst w0. simpl. rewrite length_app. simpl. lia. }
  rewrite HL0 in Ht1.
  assert (Hh1' : heap w1 = heap w ++ replicate (S (S (length rest))) fresh_promise).
  { rewrite Hh1. subst w0. cbn [with_new_promise set_tasks set_heap heap].
    by rewrite <- app_assoc. }
  clear Hh1. rename Hh1' into Hh1.
  subst w0. cbn [with_new_promise set_tasks set_heap tasks cells log] in Ht1, Hc1, Hl1.
  rewrite Hquiet in Ht1. cbn [app] in Ht1.
  assert (Hold : forall q, (q < P)%nat -> heap w1 !!! q = heap w !!! q).
  { intros q Hq. rewrite Hh1. by apply lookup_total_app_l. }
  assert (Hnew : forall q, (P <= q <= S P + length rest)%nat ->
                           heap w1 !!! q = fresh_promise).
  { intros q Hq. rewrite Hh1, lookup_total_app_r by (fold P; lia).
    apply lookup_total_replicate_2. fold P. lia. }
  assert (Hlen1 : length (heap w1) = (S P + S (length rest))%nat).
  { rewrite Hh1, length_app, length_replicate. fold P. lia. }
  replace (1 + 2 * length (s :: rest))%nat with (1 + (2 * length (s :: rest)))%nat
    by lia.
  rewrite (run_add handlers fuel 1).
  destruct Hflow as [Hplain Hflow].
  (* the caller's producer *)
  set (w2 := set_tasks (fun _ => chain_tasks P (S P) (s :: rest)) w1).
  assert (Hfirst : run handlers fuel 1 w1 = Some (settled P c w2)).
  { rewrite (run_S handlers fuel _ w1 _ _ Ht1), (step_head handlers fuel w1 _ _ Ht1).
    change (set_tasks _ w1) with w2. fold P.
    rewrite (producer_task_plain handlers fuel P body c w2); try done.
    - change (heap w2) with (heap w1). lia.
    - unfold status_of. change (heap w2) with (heap w1). by rewrite Hnew by lia. }
  rewrite Hfirst. clear Hfirst.
  assert (HP2 : heap w2 !!! P = fresh_promise) by (apply Hnew; lia).
  destruct (chain_tasks_run fuel (settled P c w2) P (S P) s rest c)
    as (w' & Hrun & Ht' & Hlog' & Hc' & Hch & Hk').
  - unfold settled. simpl. unfold queue_of. rewrite HP2. simpl.
    by rewrite app_nil_r.
  - lia.
  - rewrite settled_heap, record_outcome_heap, length_alter. done.
  - intros q Hq. rewrite settled_heap, record_outcome_heap.
    rewrite list_lookup_total_alter_ne by lia. apply Hnew. lia.
  - change (status_of (settled ?p ?x ?y)) with (status_of (record_outcome p x y)).
    apply status_of_record. change (heap w2) with (heap w1). lia.
  - change (fate_of (settled ?p ?x ?y)) with (fate_of (record_outcome p x y)).
    apply fate_of_record. change (heap w2) with (heap w1). lia.
  - done.
  - exists w'. split; [done|]. split; [done|].
    split; [rewrite Hlog'; simpl; by rewrite Hl1|].
    assert (HP' : heap w' !!! P = heap (settled P c w2) !!! P) by (apply Hk'; lia).
    unfold status_of, fate_of. rewrite HP'.
    change (state (heap (settled P c w2) !!! P))
      with (status_of (record_outcome P c w2) P).
    change (fate (heap (settled P c w2) !!! P))
      with (fate_of (record_outcome P c w2) P).
    rewrite status_of_record, fate_of_record by (change (heap w2) with (heap w1); lia).
    split; [done|]. split; [done|]. split; [done|].
    intros q Hq. rewrite Hk' by lia.
    rewrite settled_heap, record_outcome_heap.
    rewrite list_lookup_total_alter_ne by lia. by apply Hold.
Qed.

End PipelineFacts.

Section Results.

Lemma length_array_set (i : nat) (v : value) (l : list (option value)) :
  length (array_set i v l) = (length l `max` S i)%nat.
Proof.
  unfold array_set. case_decide.
  - rewrite length_insert. lia.
  - rewrite !length_app, length_replicate. simpl. lia.
Qed.

Lemma array_get_set (i j : nat) (v : value) (l : list (option value)) :
  array_get j (array_set i v l) = if decide (i = j) then Some v else array_get j l.
Proof.
  unfold array_get, array_set. case_decide as Hi.
  - case_decide as Hij.
    + subst. by rewrite list_lookup_insert_eq.
    + by rewrite list_lookup_insert_ne.
  - case_decide as Hij.
    + subst j. rewrite lookup_app_r by lia.
      rewrite lookup_app_r by (rewrite length_replicate; lia).
      rewrite length_replicate.
      by replace (i - length l - (i - length l))%nat with 0%nat by lia.
    + destruct (decide (j < length l)%nat) as [Hj|Hj].
      * by rewrite lookup_app_l.
      * rewrite lookup_app_r by lia.
        rewrite (lookup_ge_None_2 l) by lia. simpl.
        destruct (decide (j - length l < i - length l)%nat) as [Hlt|Hge].
        -- rewrite lookup_app_l by (by rewrite length_replicate).
           by rewrite lookup_replicate_2.
        -- rewrite lookup_app_r by (rewrite length_replicate; lia).
           rewrite length_replicate.
           rewrite lookup_ge_None_2; [done|]. simpl. lia.
Qed.

Lemma array_get_fill_other (j : nat) (reports : list (nat * value))
    (l : list (option value)) :
  j ∉ reports.*1 -> array_get j (fill l reports) = array_get j l.
Proof.
  revert l. induction reports as [|[i v] rest IH]; intros l Hj; [done|].
  simpl in *. apply not_elem_of_cons in Hj as [Hne Hj].
  unfold fill in *. simpl. rewrite IH by done.
  rewrite array_get_set. by rewrite decide_False.
Qed.

Lemma array_get_fill (j : nat) (x : value) (reports : list (nat * value))
    (l : list (option value)) :
  (forall v, (j, v) ∈ reports -> v = x) ->
  j ∈ reports.*1 ->
  array_get j (fill l reports) = Some x.
Proof.
  revert l. induction reports as [|[i v] rest IH]; intros l Hfun Hj.
  - by apply elem_of_nil in Hj.
  - unfold fill in *. simpl.
    destruct (decide (j ∈ rest.*1)) as [Hin|Hout].
    + apply IH; [|done]. intros v' Hv'. apply Hfun. by right.
    + pose proof (array_get_fill_other j rest (array_set i v l) Hout) as H.
      unfold fill in H. rewrite H, array_get_set.
      simpl in Hj. apply elem_of_cons in Hj as [->|Hj]; [|done].
      rewrite decide_True by done. f_equal. apply Hfun. by left.
Qed.

Lemma length_fill (n : nat) (reports : list (nat * value)) (l : list (option value)) :
  (forall i, i ∈ reports.*1 -> (i < n)%nat) ->
  (length l <= n)%nat ->
  (length (fill l reports) <= n)%nat.
Proof.
  revert l. induction reports as [|[i v] rest IH]; intros l Hi Hl; [done|].
  unfold fill in *. simpl. apply IH.
  - intros i' Hi'. apply Hi. simpl. by right.
  - rewrite length_array_set. assert (i < n)%nat by (apply Hi; simpl; by left).
    lia.
Qed.

(** Whatever the order of the reports, the array ends up holding the value
    of every input at the input's index. *)
Lemma fill_any_order (vs : list value) (reports : list (nat * value)) :
  reports ≡ₚ imap (fun i v => (i, v)) vs ->
  fill [] reports = map Some vs.
Proof.
  intros Hperm.
  assert (Hin : forall i v, (i, v) ∈ reports <-> vs !! i = Some v).
  { intros i v. rewrite Hperm, elem_of_lookup_imap. split.
    - intros (i' & v' & [= -> ->] & ?). done.
    - intros ?. by exists i, v. }
  assert (Hidx : forall i, i ∈ reports.*1 <-> (i < length vs)%nat).
  { intros i. rewrite list_elem_of_fmap. split.
    - intros ([i' v] & -> & Hiv). apply Hin in Hiv. by eapply lookup_lt_Some.
    - intros Hi. destruct (lookup_lt_is_Some_2 vs i Hi) as [v Hv].
      exists (i, v). split; [done|]. by apply Hin. }
  assert (Hlen : (length (fill [] reports) <= length vs)%nat).
  { apply length_fill; [|simpl; lia]. intros i Hi. by apply Hidx. }
  apply list_eq. intros j. rewrite list_lookup_fmap.
  destruct (vs !! j) as [v|] eqn:Hv; simpl.
  - assert (Hget : array_get j (fill [] reports) = Some v).
    { apply array_get_fill.
      - intros v' Hv'. apply Hin in Hv'. congruence.
      - apply Hidx. by eapply lookup_lt_Some. }
    unfold array_get in Hget.
    destruct (fill [] reports !! j) as [x|]; simpl in Hget; by subst.
  - apply lookup_ge_None_2. apply lookup_ge_None_1 in Hv. lia.
Qed.


(** Fewer fulfilments than [remaining] fill the array and count down, and
    nothing else. *)
Lemma notify_fills (ch : chain_fn) (c : nat) (reports : list (nat * value))
    (w : world) :
  (c < length (cells w))%nat ->
  all_status (cells w !!! c) = true ->
  Z.of_nat (length reports) < remaining (cells w !!! c) ->
  exists w1,
    notify_all ch c (fulfilments reports) w = Ok tt w1 /\
    heap w1 = heap w /\ tasks w1 = tasks w /\ log w1 = log w /\
    length (cells w1) = length (cells w) /\
    cells w1 !!! c =
      {| results := fill (results (cells w !!! c)) reports;
         remaining := remaining (cells w !!! c) - Z.of_nat (length reports);
         all_status := true;
         all_owner := all_owner (cells w !!! c) |}.
Proof.
  revert w. induction reports as [|[i v] rest IH]; intros w Hc Hst Hlen.
  - exists w. repeat split; try done. simpl. rewrite Z.sub_0_r.
    destruct (cells w !!! c); simpl in *. by subst.
  - cbn [fulfilments map notify_all notify fst snd]. unfold bind at 1.
    unfold all_resolved. rewrite Hst. unfold bind, update_cell, modify.
    set (w' := set_cells (alter (set_remaining _) c) (set_cells _ w)).
    assert (Hcell : cells w' !!! c =
      set_remaining (fun r => r - 1)
        (set_results (array_set i v) (cells w !!! c))).
    { subst w'. simpl.
      rewrite list_lookup_total_alter_eq by (by rewrite length_alter).
      by rewrite list_lookup_total_alter_eq. }
    assert (Hc' : (c < length (cells w'))%nat).
    { subst w'. simpl. by rewrite !length_alter. }
    assert (Hl' : length (cells w') = length (cells w)).
    { subst w'. simpl. by rewrite !length_alter. }
    simpl length in Hlen.
    destruct (Z.eqb_spec (remaining (cells w' !!! c)) 0) as [H0|_].
    { rewrite Hcell in H0. simpl in H0. lia. }
    destruct (IH w' Hc') as (w1 & Hrun & Hh & Ht & Hl & Hlc & Hcell1).
    { by rewrite Hcell. }
    { rewrite Hcell. simpl. lia. }
    exists w1. fold (fulfilments rest). rewrite Hrun.
    split; [done|]. split; [done|]. split; [done|]. split; [done|].
    split; [congruence|].
    rewrite Hcell1, Hcell. simpl. f_equal. lia.
Qed.

(** The last fulfilment fulfils the result with the array. *)
Lemma notify_last (fuel : nat) (c : nat) (i : nat) (v : value) (w : world) :
  (c < length (cells w))%nat ->
  all_status (cells w !!! c) = true ->
  remaining (cells w !!! c) = 1 ->
  (all_owner (cells w !!! c) < length (heap w))%nat ->
  status_of w (all_owner (cells w !!! c)) = PENDING ->
  exists w1,
    notify (chain fuel) c (fulfilled i v) w = Ok tt w1 /\
    results (cells w1 !!! c) = array_set i v (results (cells w !!! c)) /\
    status_of w1 (all_owner (cells w !!! c)) = RESOLVED /\
    fate_of w1 (all_owner (cells w !!! c)) = VArray c.
Proof.
  intros Hc Hst Hrem Ho Hs. cbn [notify]. unfold all_resolved. rewrite Hst.
  unfold bind, update_cell, modify.
  set (w' := set_cells (alter (set_remaining _) c) (set_cells _ w)).
  assert (Hcell : cells w' !!! c =
    set_remaining (fun r => r - 1)
      (set_results (array_set i v) (cells w !!! c))).
  { subst w'. simpl.
    rewrite list_lookup_total_alter_eq by (by rewrite length_alter).
    by rewrite list_lookup_total_alter_eq. }
  rewrite Hcell. cbn [set_remaining set_results remaining all_owner].
  rewrite Hrem. simpl Z.eqb. cbv iota.
  change (resolver ?ch ?p ?x) with (settle ch p (op_resolve, x)).
  rewrite settle_plain; try done.
  eexists. split; [done|].
  change (cells (set_tasks ?f (record_outcome ?p ?x w'))) with (cells w').
  rewrite Hcell. split; [done|].
  change (status_of (set_tasks ?f ?x)) with (status_of x).
  change (fate_of (set_tasks ?f ?x)) with (fate_of x).
  by rewrite status_of_record, fate_of_record.
Qed.

Lemma fill_app (l : list (option value)) (r1 r2 : list (nat * value)) :
  fill l (r1 ++ r2) = fill (fill l r1) r2.
Proof. apply foldl_app. Qed.

End Results.

Section Race.
Variable handlers : nat -> value -> result.

Lemma race_found (ch : chain_fn) (owner : pid) (reports : list (operation * value))
    (w : world) :
  race_reports ch owner reports true w = Some (true, w).
Proof.
  induction reports as [|[[] v] rest IH]; simpl; [done|apply IH..].
Qed.

Lemma race_handler_settles (ch : chain_fn) (owner : pid) (c : operation * value) :
  race_handler ch owner c false = (true, settle ch owner c).
Proof. by destruct c as [[] v]. Qed.

End Race.

Section FanOut.
Variable handlers : nat -> value -> result.

Lemma then_each_returns (p : pid) (stages : list stage) (w : world) :
  exists w1,
    then_each p (map stage_values stages) w = Ok tt w1 /\
    heap w1 = heap w ++ replicate (length stages) fresh_promise /\
    tasks w1 = tasks w ++ each_tasks p (length (heap w)) stages /\
    cells w1 = cells w /\ log w1 = log w.
Proof.
  revert w. induction stages as [|s rest IH]; intros w.
  - exists w. simpl. by rewrite !app_nil_r.
  - cbn [map then_each stage_values]. unfold bind at 1.
    unfold Promise_then, bind at 1, new_Promise, bind, modify, setImmediate,
      modify, ret. cbn.
    match goal with |- context [then_each _ _ ?x] => set (w0 := x) end.
    destruct (IH w0) as (w1 & -> & Hh & Ht & Hc & Hl).
    exists w1. split; [done|]. subst w0. simpl in *.
    rewrite Hh, Ht, <- !app_assoc. repeat split; try done.
    rewrite length_app. simpl.
    replace (length (heap w) + 1)%nat with (S (length (heap w))) by lia. done.
Qed.

(** On a settled Promise every producer hands its reaction to
    [setImmediate], behind what is pending. *)
Lemma attach_each (fuel : nat) (stages : list stage) (p : pid)
    (c : operation * value) (d : pid) (w : world) (later : list task) :
  tasks w = each_tasks p d stages ++ later ->
  status_of w p = settled_as (fst c) ->
  fate_of w p = snd c ->
  is_promise (snd c) = false ->
  run handlers fuel (length stages) w =
    Some (set_tasks (fun _ => later ++ each_reactions p c d stages) w).
Proof.
  revert d w later. induction stages as [|s rest IH]; intros d w later Ht Hs Hf Hc.
  - simpl in *. rewrite app_nil_r. f_equal. destruct w. unfold set_tasks. simpl in *.
    by subst.
  - cbn [each_tasks] in Ht. rewrite <- app_comm_cons in Ht. simpl length.
    rewrite (run_S handlers fuel _ w _ _ Ht), (step_head handlers fuel w _ _ Ht).
    rewrite (run_then_producer handlers fuel p d p)
      by (apply anchor_plain; change (fate_of (set_tasks ?f w) p) with (fate_of w p);
          by rewrite Hf).
    unfold deliver.
    change (status_of (set_tasks ?f w) p) with (status_of w p).
    change (fate_of (set_tasks ?f w) p) with (fate_of w p).
    rewrite Hs, Hf.
    set (w1 := set_tasks (fun ts => ts ++
                 [dispatch_task p (stage_args d s) (fst c) (snd c)])
                 (set_tasks (fun _ => each_tasks p (S d) rest ++ later) w)).
    assert (Hw1 : forall other, match settled_as (fst c) with
                  | PENDING => other
                  | RESOLVED =>
                      set_tasks (fun ts => ts ++
                        [dispatch_task p (stage_args d s) op_resolve (snd c)])
                        (set_tasks (fun _ => each_tasks p (S d) rest ++ later) w)
                  | REJECTED =>
                      set_tasks (fun ts => ts ++
                        [dispatch_task p (stage_args d s) op_reject (snd c)])
                        (set_tasks (fun _ => each_tasks p (S d) rest ++ later) w)
                  end = w1) by (by destruct (fst c)).
    unfold stage_args in Hw1 at 1 2. rewrite Hw1.
    rewrite (IH (S d) w1 (later ++ [dispatch_task p (stage_args d s) (fst c) (snd c)])).
    + f_equal. subst w1. unfold set_tasks. simpl. f_equal.
      by rewrite <- app_assoc.
    + subst w1. simpl. by rewrite app_assoc.
    + done.
    + done.
    + done.
Qed.


(** The callbacks of the reactions run in the order of the [then] calls;
    each calls its handler, if it has one for the operation, and settles
    its own Promise. *)
Lemma run_each (fuel : nat) (stages : list stage) (p : pid)
    (c : operation * value) (d : pid) (w : world) :
  tasks w = each_reactions p c d stages ->
  fate_of w p = snd c ->
  (p < d)%nat ->
  (d + length stages <= length (heap w))%nat ->
  (forall q, (d <= q < d + length stages)%nat -> heap w !!! q = fresh_promise) ->
  exists w',
    run handlers fuel (length stages) w = Some w' /\
    tasks w' = [] /\
    log w' = log w ++ concat (map (fun s => stage_calls s c) stages) /\
    cells w' = cells w /\
    length (heap w') = length (heap w) /\
    (forall i s, stages !! i = Some s ->
       status_of w' (d + i) = settled_as (fst (stage_outcome handlers s c)) /\
       fate_of w' (d + i) = snd (stage_outcome handlers s c)) /\
    (forall q, (q < d)%nat -> heap w' !!! q = heap w !!! q).
Proof.
  revert d w. induction stages as [|s rest IH]; intros d w Ht Hf Hpd Hlen Hfresh.
  - exists w. simpl. rewrite app_nil_r. repeat split; try done.
  - cbn [each_reactions] in Ht. simpl length in *.
    rewrite (run_S handlers fuel _ w _ _ Ht), (step_head handlers fuel w _ _ Ht).
    assert (Hd : heap w !!! d = fresh_promise) by (apply Hfresh; lia).
    set (w0 := set_tasks (fun _ => each_reactions p c (S d) rest) w).
    assert (Hd0 : heap w0 !!! d = fresh_promise) by done.
    rewrite (run_stage handlers fuel w0 p d s c); [|done|simpl; lia| |].
    2:{ unfold status_of. by rewrite Hd0. }
    2:{ right. unfold queue_of. by rewrite Hd0. }
    set (c1 := stage_outcome handlers s c).
    set (w1 := settled d c1 _).
    assert (Hl1 : length (heap w1) = length (heap w)).
    { subst w1. by rewrite settled_heap, record_outcome_heap, length_alter. }
    assert (Hother : forall q, q <> d -> heap w1 !!! q = heap w !!! q).
    { intros q Hq'. subst w1. by rewrite settled_lookup. }
    assert (Hs1 : status_of w1 d = settled_as (fst c1) /\ fate_of w1 d = snd c1).
    { subst w1.
      change (status_of (settled ?p ?x ?y)) with (status_of (record_outcome p x y)).
      change (fate_of (settled ?p ?x ?y)) with (fate_of (record_outcome p x y)).
      rewrite status_of_record, fate_of_record; [done| |]; simpl; lia. }
    assert (Ht1 : tasks w1 = each_reactions p c (S d) rest).
    { subst w1. unfold settled. simpl.
      change (queue_of ?x d) with (queue_of w d). unfold queue_of. rewrite Hd.
      simpl. by rewrite app_nil_r. }
    assert (Hlog1 : log w1 = log w ++ stage_calls s c) by done.
    assert (Hc1 : cells w1 = cells w) by done.
    clearbody w1.
    destruct (IH (S d) w1) as (w' & Hrun & Ht' & Hlog' & Hc' & Hl' & Hall & Hk').
    + done.
    + unfold fate_of in *. rewrite Hother by lia. done.
    + lia.
    + lia.
    + intros q Hq. rewrite Hother by lia. apply Hfresh. lia.
    + exists w'. split; [done|]. split; [done|].
      split; [|split; [congruence|split; [congruence|split]]].
      * rewrite Hlog', Hlog1. simpl. by rewrite <- app_assoc.
      * intros [|i] s0 Hi; simpl in Hi.
        -- simplify_eq. rewrite Nat.add_0_r. unfold status_of, fate_of in *.
           rewrite (Hk' d) by lia. done.
        -- replace (d + S i)%nat with (S d + i)%nat by lia. by apply Hall.
      * intros q Hq'. rewrite Hk' by lia. apply Hother. lia.
Qed.

Lemma then_each_runs (fuel : nat) (w : world) (p : pid) (stages : list stage)
    (c : operation * value) :
  tasks w = [] ->
  (p < length (heap w))%nat ->
  status_of w p = settled_as (fst c) ->
  fate_of w p = snd c ->
  is_promise (snd c) = false ->
  exists w',
    run handlers fuel (2 * length stages)
      (exec (then_each p (map stage_values stages)) w) = Some w' /\
    tasks w' = [] /\
    log w' = log w ++ concat (map (fun s => stage_calls s c) stages) /\
    (forall i s, stages !! i = Some s ->
       status_of w' (length (heap w) + i) =
         settled_as (fst (stage_outcome handlers s c)) /\
       fate_of w' (length (heap w) + i) = snd (stage_outcome handlers s c)) /\
    (forall q, (q < length (heap w))%nat -> heap w' !!! q = heap w !!! q).
Proof.
  intros Hquiet Hp Hs Hf Hc.
  destruct (then_each_returns p stages w) as (w1 & Hexec & Hh1 & Ht1 & Hc1 & Hl1).
  unfold exec. rewrite Hexec. cbn [world_after].
  rewrite Hquiet in Ht1. cbn [app] in Ht1.
  set (L := length (heap w)) in *.
  assert (Hold : forall q, (q < L)%nat -> heap w1 !!! q = heap w !!! q).
  { intros q Hq. rewrite Hh1. by apply lookup_total_app_l. }
  assert (Hnew : forall q, (L <= q < L + length stages)%nat -> heap w1 !!! q = fresh_promise).
  { intros q Hq. rewrite Hh1, lookup_total_app_r by (fold L; lia).
    apply lookup_total_replicate_2. fold L. lia. }
  assert (Hlen1 : length (heap w1) = (L + length stages)%nat).
  { rewrite Hh1, length_app, length_replicate. done. }
  replace (2 * length stages)%nat with (length stages + length stages)%nat by lia.
  rewrite (run_add handlers fuel (length stages)).
  rewrite (attach_each fuel stages p c L w1 []).
  - cbn [app].
    destruct (run_each fuel stages p c L
                (set_tasks (fun _ => each_reactions p c L stages) w1))
      as (w' & Hrun & Ht' & Hlog' & Hc' & Hlen' & Hall & Hk'); try done.
    + change (fate_of (set_tasks ?f w1) p) with (fate_of w1 p).
      unfold fate_of in *. by rewrite Hold.
    + change (heap (set_tasks ?f w1)) with (heap w1). lia.
    + exists w'. split; [done|]. split; [done|].
      split; [|split; [done|]].
      * rewrite Hlog'. simpl. by rewrite Hl1.
      * intros q Hq. rewrite Hk' by done. simpl. by apply Hold.
  - by rewrite Ht1, app_nil_r.
  - unfold status_of in *. by rewrite Hold.
  - unfold fate_of in *. by rewrite Hold.
  - done.
Qed.

End FanOut.

Section AllOfValues.
Open Scope nat_scope.
Variable handlers : nat -> value -> result.

Lemma falsy_wrapped (v : value) : truthy v = false -> plain_truthy v = false.
Proof. intros Hv. unfold plain_truthy. by rewrite Hv. Qed.

Lemma falsy_plain (v : value) : truthy v = false -> is_promise v = false.
Proof. by destruct v. Qed.

Lemma forEach_wraps (c : nat) (vs : list value) (index : nat) (w : world) :
  Forall (fun v => plain_truthy v = false) vs ->
  forEach (all_each c) vs index w = Ok tt (wrapped c vs index w).
Proof.
  revert index w. induction vs as [|v rest IH]; intros index w Hvs; [done|].
  apply Forall_cons in Hvs as [Hv Hrest].
  cbn [forEach wrapped]. unfold bind.
  rewrite (all_each_wraps c v index w Hv). by rewrite IH.
Qed.

Lemma wrapped_world (c : nat) (vs : list value) (index : nat) (w : world) :
  heap (wrapped c vs index w) = heap w ++ replicate (2 * length vs) fresh_promise /\
  tasks (wrapped c vs index w) = tasks w ++ wrap_tasks c vs index (length (heap w)) /\
  cells (wrapped c vs index w) = cells w /\
  log (wrapped c vs index w) = log w.
Proof.
  revert index w. induction vs as [|v rest IH]; intros index w.
  - simpl. by rewrite !app_nil_r.
  - cbn [wrapped]. destruct (IH (S index)
      (with_new_promise
         (then_producer (length (heap w)) (VFun (AllResolved c index))
            (VFun (AllRejected c)))
         (with_new_promise (resolve_producer v) w))) as (Hh & Ht & Hc & Hl).
    rewrite Hh, Ht, Hc, Hl.
    cbn [with_new_promise set_tasks set_heap heap tasks cells log wrap_tasks].
    rewrite <- !app_assoc, !length_app. cbn [length app].
    replace (length (heap w) + (1 + 1)) with (S (S (length (heap w)))) by lia.
    replace (length (heap w) + 1) with (S (length (heap w))) by lia.
    replace (2 * S (length rest)) with (S (S (2 * length rest))) by lia.
    done.
Qed.

Lemma report_tasks_wrapper (w0 : world) (c : nat) (ins : list pid) (index : nat)
    (wrapper : pid) :
  Forall (fun i => status_of w0 i = RESOLVED) ins ->
  wrapper_tasks w0 c ins index wrapper = report_tasks c (length ins) index wrapper.
Proof.
  revert index wrapper. induction ins as [|i rest IH]; intros index wrapper Hin;
    [done|].
  apply Forall_cons in Hin as [Hi Hrest]. simpl. rewrite Hi. simpl.
  by rewrite IH.
Qed.

(** The producers of the wrappers and of their reactions, for falsy
    values: each wrapper is fulfilled with its value at once, and the
    reaction becomes a pending callback. *)
Lemma run_wrappers (fuel : nat) (c : nat) (vs : list value) (index : nat)
    (wrapper : pid) (w : world) (later : list task) :
  tasks w = wrap_tasks c vs index wrapper ++ later ->
  Forall (fun v => truthy v = false) vs ->
  wrapper + 2 * length vs <= length (heap w) ->
  (forall q, wrapper <= q < wrapper + 2 * length vs -> heap w !!! q = fresh_promise) ->
  exists w',
    run handlers fuel (2 * length vs) w = Some w' /\
    tasks w' = later ++ report_tasks c (length vs) index wrapper /\
    (forall j v, vs !! j = Some v ->
       heap w' !!! (wrapper + 2 * j) =
         {| fate := v; queue := []; state := RESOLVED |}) /\
    (forall q, ~ (wrapper <= q < wrapper + 2 * length vs /\
                  Nat.Even (q - wrapper)) ->
       heap w' !!! q = heap w !!! q) /\
    cells w' = cells w /\ log w' = log w /\
    length (heap w') = length (heap w).
Proof.
  revert index wrapper w later.
  induction vs as [|v rest IH]; intros index wrapper w later Ht Hvs Hlen Hfresh.
  - exists w. simpl in *. rewrite app_nil_r. repeat split; try done.
  - apply Forall_cons in Hvs as [Hv Hrest]. simpl length in *.
    cbn [wrap_tasks] in Ht. rewrite <- !app_comm_cons in Ht.
    replace (2 * S (length rest)) with (1 + (1 + 2 * length rest)) by lia.
    rewrite (run_add handlers fuel 1), (run_S handlers fuel 0 w _ _ Ht),
      (step_head handlers fuel w _ _ Ht).
    (* the producer of the wrapper *)
    set (w0 := set_tasks _ w).
    assert (Hw0 : heap w0 !!! wrapper = fresh_promise) by (apply Hfresh; lia).
    assert (Hrun0 : run_task handlers fuel
              (producer_task wrapper (resolve_producer v)) w0 =
            Ok tt (record_outcome wrapper (op_resolve, v) w0)).
    { cbn [run_task run_producer]. rewrite Hv. cbn [andb]. unfold try_catch.
      change (resolver ?ch ?p v) with (settle ch p (op_resolve, v)).
      rewrite settle_no_reactions; [done| |].
      - unfold status_of. by rewrite Hw0.
      - unfold queue_of. by rewrite Hw0. }
    rewrite Hrun0. cbn [run].
    set (w1 := record_outcome wrapper (op_resolve, v) w0).
    assert (Ht1 : tasks w1 = producer_task (S wrapper)
              (then_producer wrapper (VFun (AllResolved c index))
                 (VFun (AllRejected c))) ::
              (wrap_tasks c rest (S index) (S (S wrapper)) ++ later)) by done.
    assert (Hh1 : heap w1 = alter (fun pr => {| fate := v; queue := queue pr;
                                                state := RESOLVED |}) wrapper (heap w)).
    { subst w1. by rewrite record_outcome_heap. }
    rewrite (run_add handlers fuel 1), (run_S handlers fuel 0 w1 _ _ Ht1),
      (step_head handlers fuel w1 _ _ Ht1).
    (* the producer of its reaction *)
    set (w1' := set_tasks _ w1).
    assert (Hs1 : status_of w1' wrapper = RESOLVED /\ fate_of w1' wrapper = v).
    { unfold status_of, fate_of. change (heap w1') with (heap w1).
      rewrite Hh1, list_lookup_total_alter_eq by lia. done. }
    destruct Hs1 as [Hs1 Hf1].
    rewrite (run_then_producer handlers fuel wrapper (S wrapper) wrapper)
      by (apply anchor_plain; rewrite Hf1; by apply falsy_plain).
    unfold deliver. rewrite Hs1, Hf1. cbn [run].
    set (w2 := set_tasks _ w1').
    assert (Ht2 : tasks w2 = wrap_tasks c rest (S index) (S (S wrapper)) ++
              (later ++ [handler_task wrapper (all_args c index wrapper) op_resolve])).
    { subst w2 w1'. simpl. by rewrite <- app_assoc. }
    assert (Hh2 : heap w2 = heap w1) by done.
    assert (Hc2 : cells w2 = cells w /\ log w2 = log w) by done.
    clearbody w2.
    destruct (IH (S index) (S (S wrapper)) w2 _ Ht2 Hrest)
      as (w' & Hrun & Ht' & Hres & Hk & Hc' & Hl' & Hlen').
    { rewrite Hh2, Hh1, length_alter. lia. }
    { intros q Hq. rewrite Hh2, Hh1, list_lookup_total_alter_ne by lia.
      apply Hfresh. lia. }
    exists w'. split; [done|]. split; [|split; [|split; [|split; [|split]]]].
    + rewrite Ht'. simpl. by rewrite <- app_assoc.
    + intros [|j] v' Hj; simpl in Hj.
      * simplify_eq. rewrite Nat.add_0_r, Hk.
        -- rewrite Hh2, Hh1, list_lookup_total_alter_eq by lia. by rewrite Hfresh by lia.
        -- intros [Hq _]. lia.
      * replace (wrapper + 2 * S j) with (S (S wrapper) + 2 * j) by lia.
        by apply Hres.
    + intros q Hq. rewrite Hk.
      * rewrite Hh2, Hh1. apply list_lookup_total_alter_ne. intros ->. apply Hq.
        split; [lia|]. rewrite Nat.sub_diag. by exists 0.
      * intros [Hq1 Hq2]. apply Hq. split; [lia|].
        replace (q - wrapper) with (S (S (q - S (S wrapper)))) by lia.
        destruct Hq2 as [k Hk2]. exists (S k). lia.
    + by rewrite Hc'; destruct Hc2.
    + by rewrite Hl'; destruct Hc2.
    + by rewrite Hlen', Hh2, Hh1, length_alter.
Qed.


Lemma fulfilled_with_lookup (vs : list value) (i : nat) (v : value) :
  vs !! i = Some v ->
  heap (fulfilled_with vs) !!! i = {| fate := v; queue := []; state := RESOLVED |}.
Proof.
  intros Hi. apply list_lookup_total_correct. simpl.
  by rewrite list_lookup_fmap, Hi.
Qed.

Lemma fulfilled_with_settled (vs : list value) (ins : list pid) :
  Forall (fun i => i < length vs) ins ->
  Forall (fun v => truthy v = false) vs ->
  Forall (fun i => status_of (fulfilled_with vs) i = RESOLVED) ins /\
  Forall (fun i => status_of (fulfilled_with vs) i <> PENDING /\
                   is_promise (fate_of (fulfilled_with vs) i) = false) ins /\
  first_rejection (fulfilled_with vs) ins = None.
Proof.
  intros Hin Hvs. induction Hin as [|i rest Hi Hrest IH]; [done|].
  destruct IH as (IH1 & IH2 & IH3).
  destruct (lookup_lt_is_Some_2 vs i Hi) as [v Hv].
  pose proof (fulfilled_with_lookup vs i v Hv) as Hl.
  assert (Hfalsy : truthy v = false).
  { rewrite Forall_forall in Hvs. apply Hvs. by eapply list_elem_of_lookup_2. }
  split; [|split].
  - constructor; [|done]. unfold status_of. by rewrite Hl.
  - constructor; [|done]. unfold status_of, fate_of. rewrite Hl. simpl.
    split; [done|]. by apply falsy_plain.
  - cbn [first_rejection]. unfold status_of. by rewrite Hl.
Qed.

Lemma fulfilled_with_fates (vs : list value) :
  map (fun i => Some (fate_of (fulfilled_with vs) i)) (seq 0 (length vs)) =
  map Some vs.
Proof.
  apply list_eq. intros j. rewrite !list_lookup_fmap.
  destruct (vs !! j) as [v|] eqn:Hv; simpl.
  - rewrite lookup_seq_lt by (by eapply lookup_lt_Some). simpl.
    unfold fate_of. by rewrite (fulfilled_with_lookup vs j v Hv).
  - rewrite lookup_seq_ge; [done|]. by apply lookup_ge_None_1.
Qed.

(** [Promise.all] over falsy values, from the call to quiescence. *)
Lemma all_of_falsy_values (fuel : nat) (w : world) (vs : list value) :
  tasks w = [] ->
  vs <> [] ->
  Forall (fun v => truthy v = false) vs ->
  exists w5,
    run handlers fuel (1 + 3 * length vs) (exec (Promise_all vs) w) = Some w5 /\
    tasks w5 = [] /\ log w5 = log w /\
    status_of w5 (length (heap w)) = RESOLVED /\
    fate_of w5 (length (heap w)) = VArray (length (cells w)) /\
    results (cells w5 !!! length (cells w)) = map Some vs.
Proof.
  intros Hquiet Hne Hvs.
  set (n := length vs). set (h := length (heap w)). set (c := length (cells w)).
  rewrite exec_all.
  replace (1 + 3 * n) with (1 + (2 * n + n)) by lia.
  rewrite (run_add handlers).
  assert (Ht0 : tasks (with_new_promise (all_producer vs) w) =
                [producer_task h (all_producer vs)])
    by (simpl; by rewrite Hquiet).
  rewrite (run_S handlers fuel _ _ _ _ Ht0), (step_head handlers fuel _ _ _ Ht0).
  cbn [run_task run_producer]. unfold try_catch, bind, modify.
  rewrite forEach_wraps
    by (eapply Forall_impl; [exact Hvs|]; intros v; apply falsy_wrapped).
  match goal with |- context [wrapped ?cc vs 0 ?x] =>
    change cc with c; set (wbase := x) end.
  assert (Hhb : heap wbase = heap w ++ [fresh_promise]) by done.
  assert (Htb : tasks wbase = []) by done.
  assert (Hcb : cells wbase = cells w ++
            [{| results := []; remaining := Z.of_nat n;
                all_status := true; all_owner := h |}] /\ log wbase = log w)
    by done.
  clearbody wbase.
  destruct (wrapped_world c vs 0 wbase) as (Hh1 & Ht1 & Hc1 & Hg1).
  set (w1 := wrapped c vs 0 wbase) in *.
  rewrite Hhb in Hh1. rewrite Htb, Hhb in Ht1. cbn [app] in Ht1.
  rewrite length_app in Ht1. cbn [length] in Ht1. fold h in Ht1.
  replace (h + 1) with (S h) in Ht1 by lia. fold n in Hh1.
  assert (Hl1 : length (heap w1) = S h + 2 * n).
  { rewrite Hh1, !length_app, length_replicate. simpl. fold h. lia. }
  clearbody w1. cbn [run]. rewrite (run_add handlers).
  (* the producers of the wrappers and of their reactions *)
  destruct (run_wrappers fuel c vs 0 (S h) w1 [])
    as (w4 & Hrun4 & Ht4 & Hres4 & Hk4 & Hc4 & Hg4 & Hl4).
  { by rewrite app_nil_r. }
  { done. }
  { fold n. lia. }
  { intros q Hq. rewrite Hh1, lookup_total_app_r
      by (rewrite length_app; simpl; fold h; lia).
    apply lookup_total_replicate_2. rewrite length_app. simpl. fold n h in Hq |- *.
    lia. }
  fold n in Hrun4. rewrite Hrun4. cbn [app] in Ht4.
  (* the wrappers report *)
  assert (Hseq : Forall (fun i => i < length vs) (seq 0 n)).
  { apply Forall_forall. intros i Hi. apply elem_of_seq in Hi. fold n. lia. }
  destruct (fulfilled_with_settled vs (seq 0 n) Hseq Hvs) as (Hres0 & Hset0 & Hnone0).
  assert (Hcells4 : cells w4 = cells w ++
            [{| results := []; remaining := Z.of_nat n;
                all_status := true; all_owner := h |}]).
  { rewrite Hc4, Hc1. by destruct Hcb. }
  assert (Hcell4 : cells w4 !!! c =
            {| results := []; remaining := Z.of_nat n;
               all_status := true; all_owner := h |}).
  { rewrite Hcells4. by apply list_lookup_total_middle. }
  assert (HA4 : heap w4 !!! h = fresh_promise).
  { rewrite Hk4 by (intros [? _]; lia).
    rewrite Hh1, lookup_total_app_l by (rewrite length_app; simpl; fold h; lia).
    by apply list_lookup_total_middle. }
  destruct (phase_wrappers handlers fuel (fulfilled_with vs) c n (seq 0 n) []
              (S h) w4)
    as (w5 & Hrun5 & Ht5 & Hst5 & Hg5 & Ho5 & Hk5).
  { rewrite Ht4, report_tasks_wrapper by done. by rewrite length_seq. }
  { unfold all_state_after. cbn [first_rejection]. rewrite Hcell4.
    cbn [all_status remaining results all_owner length map].
    unfold queue_of, status_of. rewrite HA4.
    repeat split; try done.
    - lia.
    - case_decide as Hd; [lia|done]. }
  { rewrite Hcells4, length_app. simpl. fold c. lia. }
  { rewrite Hcell4. simpl. lia. }
  { rewrite Hl4, Hl1, length_seq. lia. }
  { by rewrite length_seq. }
  { done. }
  { intros j i Hi. apply lookup_seq in Hi as [-> Hj]. change (0 + j) with j.
    destruct (lookup_lt_is_Some_2 vs j) as [v Hv]; [by fold n|].
    unfold fate_of. by rewrite (Hres4 j v Hv), (fulfilled_with_lookup vs j v Hv). }
  { intros j Hj. rewrite length_seq in Hj. rewrite Hk4.
    - rewrite Hh1, lookup_total_app_r by (rewrite length_app; simpl; fold h; lia).
      apply lookup_total_replicate_2. rewrite length_app. simpl. fold n h. lia.
    - intros [_ [k Hk]]. lia. }
  rewrite length_seq in Hrun5. exists w5. split; [done|]. split; [done|].
  split; [by rewrite Hg5, Hg4, Hg1; destruct Hcb|].
  unfold all_state_after in Hst5. cbn [app] in Hst5.
  rewrite Hnone0, Ho5, Hcell4 in Hst5. cbn [all_owner] in Hst5.
  destruct Hst5 as (_ & _ & Hres5 & _ & Hdone).
  rewrite length_seq in Hdone.
  assert (Hpos : 0 < n) by (subst n; destruct vs; [done|simpl; lia]).
  rewrite decide_True in Hdone by done.
  destruct Hdone as [Hs5 Hf5]. split; [done|]. split; [done|].
  rewrite Hres5. apply fulfilled_with_fates.
Qed.

End AllOfValues.

Section PendingSource.
Variable handlers : nat -> value -> result.

(** A chain on a pending Promise: the producers queue every reaction, the
    first at the Promise itself, and call no handler. *)
Lemma then_chain_waits (fuel : nat) (w : world) (p : pid) (s : stage)
    (rest : list stage) :
  tasks w = [] ->
  (p < length (heap w))%nat ->
  status_of w p = PENDING ->
  exists w1,
    run handlers fuel (length (s :: rest))
      (exec (then_chain (VPromise p) (map stage_values (s :: rest))) w) = Some w1 /\
    tasks w1 = [] /\ log w1 = log w /\
    length (heap w1) = (length (heap w) + S (length rest))%nat /\
    status_of w1 p = PENDING /\
    queue_of w1 p = queue_of w p ++ [stage_args (length (heap w)) s] /\
    waiting w1 (length (heap w)) rest.
Proof.
  intros Hquiet Hp Hs.
  destruct (then_chain_returns p (s :: rest) w) as (r & w0 & Hexec & Hh0 & Ht0 & Hc0 & Hl0).
  unfold exec. rewrite Hexec. cbn [world_after].
  rewrite Hquiet in Ht0. cbn [app chain_tasks] in Ht0.
  set (L := length (heap w)) in *.
  assert (Hold : forall q, (q < L)%nat -> heap w0 !!! q = heap w !!! q).
  { intros q Hq. rewrite Hh0. by apply lookup_total_app_l. }
  assert (Hnew : forall q, (L <= q <= L + length rest)%nat ->
                           heap w0 !!! q = fresh_promise).
  { intros q Hq. rewrite Hh0, lookup_total_app_r by (fold L; lia).
    apply lookup_total_replicate_2. fold L. simpl. lia. }
  assert (Hlen0 : length (heap w0) = (L + S (length rest))%nat).
  { rewrite Hh0, length_app, length_replicate. done. }
  change (length (s :: rest)) with (1 + length rest)%nat.
  rewrite (run_add handlers fuel 1).
  rewrite (run_S handlers fuel 0 w0 _ _ Ht0), (step_head handlers fuel w0 _ _ Ht0).
  set (w0' := set_tasks (fun _ => chain_tasks L (S L) rest) w0).
  assert (Hsp : status_of w0' p = PENDING).
  { unfold status_of in *. change (heap w0') with (heap w0). by rewrite Hold. }
  rewrite (run_then_producer handlers fuel p L p) by (by apply anchor_pending).
  unfold deliver. rewrite Hsp. cbn [run].
  set (wA := set_heap (alter (push (then_args L (handler_value (fst s))
                                      (handler_value (snd s)))) p) w0').
  assert (HhA : forall q, q <> p -> heap wA !!! q = heap w0 !!! q).
  { intros q Hq. subst wA. simpl. by rewrite list_lookup_total_alter_ne. }
  assert (HlenA : length (heap wA) = length (heap w0))
    by (subst wA; simpl; by rewrite length_alter).
  destruct (attach_stages handlers fuel rest L wA [])
    as (w1 & Hrun & Ht1 & Hw1 & Hl1 & Hc1 & Hlen1 & Hk1).
  { subst wA w0'. simpl. by rewrite app_nil_r. }
  { rewrite HlenA. lia. }
  { intros q Hq. rewrite HhA by lia. apply Hnew. lia. }
  exists w1. split; [done|]. split; [done|].
  split; [by rewrite Hl1|]. split; [by rewrite Hlen1, HlenA|].
  unfold status_of, queue_of. rewrite (Hk1 p) by (fold L; lia).
  subst wA. simpl. rewrite list_lookup_total_alter_eq by (rewrite Hlen0; lia).
  simpl. rewrite (Hold p Hp). split; [done|]. split; [done|]. done.
Qed.

(** When the Promise is settled afterwards, the callbacks of the reactions
    run as for a chain on a settled Promise. *)
Lemma then_chain_resumes (fuel : nat) (w1 : world) (p L : pid) (s : stage)
    (rest : list stage) (c : operation * value) :
  tasks w1 = [] ->
  (p < L)%nat ->
  status_of w1 p = PENDING ->
  queue_of w1 p = [stage_args L s] ->
  waiting w1 L rest ->
  flows handlers (s :: rest) c ->
  exists w2 w',
    settle (chain fuel) p c w1 = Ok tt w2 /\
    run handlers fuel (length (s :: rest)) w2 = Some w' /\
    tasks w' = [] /\
    log w' = log w1 ++ pipeline_calls handlers (s :: rest) c /\
    status_of w' p = settled_as (fst c) /\ fate_of w' p = snd c /\
    settled_chain handlers w' L (s :: rest) c.
Proof.
  intros Hquiet Hp Hs Hq Hw [Hplain Hflow].
  assert (Hp1 : (p < length (heap w1))%nat).
  { destruct rest; destruct Hw as (HL & _); lia. }
  exists (settled p c w1).
  assert (Hrec : status_of (settled p c w1) p = settled_as (fst c) /\
                 fate_of (settled p c w1) p = snd c).
  { change (status_of (settled ?x ?y ?z)) with (status_of (record_outcome x y z)).
    change (fate_of (settled ?x ?y ?z)) with (fate_of (record_outcome x y z)).
    by rewrite status_of_record, fate_of_record. }
  destruct Hrec as [Hs2 Hf2].
  destruct (run_stages handlers fuel rest s p L c (settled p c w1))
    as (w' & Hrun & Ht' & Hlog' & Hc' & Hlen' & Hch & Hk'); try done.
  { unfold settled. simpl. by rewrite Hquiet, Hq. }
  { apply (waiting_frame w1); [|  |done].
    - by rewrite settled_heap, record_outcome_heap, length_alter.
    - intros q Hq'. rewrite settled_heap, record_outcome_heap.
      by rewrite list_lookup_total_alter_ne by lia. }
  exists w'. split; [by apply settle_plain|]. split; [done|]. split; [done|].
  split; [done|]. unfold status_of, fate_of in *. rewrite (Hk' p Hp). done.
Qed.

End PendingSource.

(** ** From attachment to the handler call *)

Section Dispatch.
Variable handlers : nat -> value -> result.

Lemma each_reactions_args (p : pid) (c : operation * value) (d : pid)
    (stages : list stage) :
  map (fun a => dispatch_task p a (fst c) (snd c)) (each_args d stages) =
  each_reactions p c d stages.
Proof.
  revert d. induction stages as [|s rest IH]; intros d; simpl; [done|].
  by rewrite IH.
Qed.

Lemma each_args_valid (d : pid) (stages : list stage) :
  Forall (fun a => valid a = true) (each_args d stages).
Proof.
  revert d. induction stages as [|s rest IH]; intros d; simpl; constructor;
    [apply then_args_valid|apply IH].
Qed.




(** Settling the pending [p] with the pending Promise [q]: the world. *)
Lemma settle_with_pending_exact (fuel : nat) (w : world) (p q : pid)
    (op : operation) :
  (p < length (heap w))%nat ->
  (q < length (heap w))%nat ->
  p <> q ->
  status_of w p = PENDING ->
  status_of w q = PENDING ->
  Forall (fun a => valid a = true) (queue_of w p) ->
  settle (chain fuel) p (op, VPromise q) w =
    Ok tt (set_heap (alter (fun pr => {| fate := fate pr;
                                         queue := queue pr ++ queue_of w p;
                                         state := state pr |}) q)
             (record_outcome p (op, VPromise q) w)).
Proof.
  intros Hp Hq Hne Hsp Hsq Hv.
  set (c := (op, VPromise q)).
  destruct (record_outcome_other w p q c Hne) as [Hsq0 Hfq0].
  assert (Ha : anchor (S fuel) (record_outcome p c w) p = Some q).
  { simpl. rewrite status_of_record, fate_of_record by done. simpl.
    destruct op; simpl; destruct fuel; simpl; by rewrite Hsq0, Hsq. }
  rewrite (settle_delivers fuel p q c w Hp Hsp (fun _ => Hv) Ha).
  by rewrite deliver_all_pending by congruence.
Qed.

(** A Promise fulfilled with a pending Promise: its reactions wait at the
    inner Promise and run when that one settles. *)
Lemma forwarded_reactions_run (fuel : nat) (w : world) (p q : pid)
    (op : operation) (stages : list stage) (d : pid) (c : operation * value) :
  (p < length (heap w))%nat ->
  status_of w p = PENDING ->
  (q < length (heap w))%nat -> p <> q ->
  status_of w q = PENDING -> queue_of w q = [] ->
  queue_of w p = each_args d stages ->
  tasks w = [] ->
  (p < d)%nat -> (q < d)%nat -> (d + length stages <= length (heap w))%nat ->
  (forall x, (d <= x < d + length stages)%nat -> heap w !!! x = fresh_promise) ->
  is_promise (snd c) = false ->
  exists w1 w2 w3,
    settle (chain fuel) p (op, VPromise q) w = Ok tt w1 /\
    status_of w1 p = settled_as op /\ fate_of w1 p = VPromise q /\
    status_of w1 q = PENDING /\ queue_of w1 q = each_args d stages /\
    tasks w1 = [] /\ log w1 = log w /\
    settle (chain fuel) q c w1 = Ok tt w2 /\
    tasks w2 = each_reactions q c d stages /\ log w2 = log w /\
    run handlers fuel (length stages) w2 = Some w3 /\
    tasks w3 = [] /\
    log w3 = log w ++ concat (map (fun s => stage_calls s c) stages) /\
    (forall i s, stages !! i = Some s ->
       status_of w3 (d + i) = settled_as (fst (stage_outcome handlers s c)) /\
       fate_of w3 (d + i) = snd (stage_outcome handlers s c)) /\
    status_of w3 p = settled_as op /\ fate_of w3 p = VPromise q.
Proof.
  intros Hp Hsp Hq Hne Hsq Hqq Hqp Hquiet Hpd Hqd Hlen Hfresh Hc.
  pose proof (settle_with_pending_exact fuel w p q op Hp Hq Hne Hsp Hsq) as Hw1.
  rewrite Hqp in Hw1. specialize (Hw1 (each_args_valid d stages)).
  set (w0 := record_outcome p (op, VPromise q) w) in *.
  set (w1 := set_heap _ w0) in *.
  destruct (record_outcome_other w p q (op, VPromise q) Hne) as [Hsq0 Hfq0].
  fold w0 in Hsq0, Hfq0.
  assert (Hl0 : length (heap w0) = length (heap w)).
  { subst w0. simpl. by rewrite !length_alter. }
  assert (Hl1 : length (heap w1) = length (heap w)).
  { subst w1. simpl. by rewrite length_alter. }
  assert (Hp1 : status_of w1 p = settled_as op /\ fate_of w1 p = VPromise q).
  { subst w1. unfold status_of, fate_of. simpl.
    rewrite list_lookup_total_alter_ne by done.
    split; [apply (status_of_record w p (op, VPromise q) Hp)
           |apply (fate_of_record w p (op, VPromise q) Hp)]. }
  assert (Hs1 : status_of w1 q = PENDING).
  { subst w1. rewrite status_of_alter by done. congruence. }
  assert (Hq1 : queue_of w1 q = each_args d stages).
  { subst w1. unfold queue_of. cbn [heap set_heap].
    rewrite list_lookup_total_alter_eq by lia. cbn [queue].
    change (queue (heap w0 !!! q)) with (queue_of w0 q).
    subst w0. by rewrite queue_of_record, Hqq. }
  assert (Ho1 : forall x, x <> p -> x <> q -> heap w1 !!! x = heap w !!! x).
  { intros x Hxp Hxq. subst w1 w0. simpl.
    by rewrite !list_lookup_total_alter_ne. }
  set (w2 := set_tasks (fun ts => ts ++
                 map (fun a => dispatch_task q a (fst c) (snd c)) (queue_of w1 q))
               (record_outcome q c w1)).
  assert (Hw2 : settle (chain fuel) q c w1 = Ok tt w2).
  { apply settle_plain; [lia|done|done]. }
  assert (Ht2 : tasks w2 = each_reactions q c d stages).
  { subst w2. cbn [tasks set_tasks].
    change (tasks (record_outcome q c w1)) with (tasks w).
    by rewrite Hquiet, Hq1, each_reactions_args. }
  assert (Hf2 : fate_of w2 q = snd c).
  { subst w2. change (fate_of (set_tasks ?f ?x)) with (fate_of x).
    rewrite fate_of_record; [done|lia]. }
  assert (Hl2 : length (heap w2) = length (heap w)).
  { subst w2. unfold record_outcome. cbn [heap set_tasks set_heap].
    by rewrite !length_alter. }
  assert (Ho2 : forall x, x <> q -> heap w2 !!! x = heap w1 !!! x).
  { intros x Hx. subst w2. unfold record_outcome. cbn [heap set_tasks set_heap].
    by rewrite !list_lookup_total_alter_ne. }
  destruct (run_each handlers fuel stages q c d w2)
    as (w3 & Hrun3 & Ht3 & Hlog3 & Hc3 & Hl3 & Hall & Hk3); try done.
  { lia. }
  { intros x Hx. rewrite Ho2, Ho1 by lia. by apply Hfresh. }
  exists w1, w2, w3. split; [done|]. split; [apply Hp1|]. split; [apply Hp1|].
  split; [done|]. split; [done|]. split; [done|]. split; [done|].
  split; [done|]. split; [done|]. split; [done|]. split; [done|].
  split; [done|]. split; [done|]. split; [done|].
  unfold status_of, fate_of in *. rewrite (Hk3 p Hpd), Ho2 by done. apply Hp1.
Qed.

(** A reaction attached to a Promise that is settled with a settled
    Promise: one callback, which settles the downstream Promise with what
    the stage makes of the inner Promise's outcome. *)
Lemma late_reaction_follows (fuel : nat) (w : world) (p q d : pid) (s : stage)
    (c : operation * value) :
  status_of w p <> PENDING ->
  fate_of w p = VPromise q ->
  status_of w q = settled_as (fst c) ->
  fate_of w q = snd c ->
  is_promise (snd c) = false ->
  (d < length (heap w))%nat ->
  status_of w d = PENDING ->
  queue_of w d = [] ->
  exists w1 w2,
    chain (S fuel) p (stage_args d s) w = Ok tt w1 /\
    tasks w1 = tasks w ++ [dispatch_task q (stage_args d s) (fst c) (snd c)] /\
    step handlers fuel (length (tasks w)) w1 = Some w2 /\
    status_of w2 d = settled_as (fst (stage_outcome handlers s c)) /\
    fate_of w2 d = snd (stage_outcome handlers s c) /\
    log w2 = log w ++ stage_calls s c.
Proof.
  intros Hsp Hfp Hsq Hfq Hc Hd Hsd Hqd.
  assert (Ha : anchor (S fuel) w p = Some q).
  { simpl. rewrite Hfp. destruct (status_of w p); [done| |];
      apply anchor_plain; by rewrite Hfq. }
  rewrite (chain_delivers (S fuel) p q (stage_args d s) w
             (then_args_valid d _ _) Ha).
  unfold deliver. rewrite Hsq, Hfq.
  set (t := dispatch_task q (stage_args d s) (fst c) (snd c)).
  exists (set_tasks (fun ts => ts ++ [t]) w).
  assert (Hw1 : forall other, match settled_as (fst c) with
                | PENDING => other
                | RESOLVED => set_tasks (fun ts => ts ++
                    [dispatch_task q (stage_args d s) op_resolve (snd c)]) w
                | REJECTED => set_tasks (fun ts => ts ++
                    [dispatch_task q (stage_args d s) op_reject (snd c)]) w
                end = set_tasks (fun ts => ts ++ [t]) w)
    by (subst t; by destruct (fst c)).
  rewrite Hw1.
  erewrite (step_last handlers fuel _ (tasks w)) by done.
  change (set_tasks (fun _ => tasks w) (set_tasks _ w)) with
    (set_tasks (fun _ => tasks w) w).
  assert (Hw : set_tasks (fun _ => tasks w) w = w) by (by destruct w).
  rewrite Hw. subst t.
  rewrite (run_stage handlers fuel w q d s c); [|done|done|done|by right].
  eexists. split; [done|]. split; [done|]. split; [done|].
  change (status_of (settled ?x ?y ?z)) with (status_of (record_outcome x y z)).
  change (fate_of (settled ?x ?y ?z)) with (fate_of (record_outcome x y z)).
  rewrite status_of_record, fate_of_record by done. done.
Qed.

(** ** C2 *)


(** ** C9 *)

(** C9: [resolver] called with a Promise [q] on the pending Promise [p]
    records [q] itself as the fate and makes the status [RESOLVED] at once,
    also while [q] is still pending.  The queued reactions are then handed to
    [q]: they join its queue in order, and when [q] settles they are
    dispatched with the operation and outcome of [q].  Every reaction
    attached to [p] later is handed to [q] in the same way.  The callbacks
    this leads to settle the downstream Promises from the outcome of [q]:
    each reaction's handler for the operation of [q] is called with the
    outcome of [q] and its downstream Promise is fulfilled with what it
    returns or rejected with what it throws, and the downstream Promise of a
    reaction without such a handler is settled as [q] is; [p] itself stays
    [RESOLVED] with [q] as fate throughout. *)
Theorem promise_valued_fulfilment_forwards (fuel : nat) (w : world) (p q : pid) :
  (p < length (heap w))%nat ->
  status_of w p = PENDING ->
  ends_in (fun w1 => status_of w1 p = RESOLVED /\ fate_of w1 p = VPromise q)
          (resolver (chain fuel) p (VPromise q) w) /\
  ((q < length (heap w))%nat -> p <> q -> status_of w q = PENDING ->
   Forall (fun a => valid a = true) (queue_of w p) ->
   exists w1,
     resolver (chain fuel) p (VPromise q) w = Ok tt w1 /\
     status_of w1 p = RESOLVED /\ fate_of w1 p = VPromise q /\
     status_of w1 q = PENDING /\
     queue_of w1 q = queue_of w q ++ queue_of w p /\
     tasks w1 = tasks w /\ log w1 = log w /\
     forall fuel' c, is_promise (snd c) = false ->
       exists w2,
         settle (chain fuel') q c w1 = Ok tt w2 /\
         tasks w2 = tasks w ++
           map (fun a => dispatch_task q a (fst c) (snd c))
               (queue_of w q ++ queue_of w p) /\
         log w2 = log w) /\
  (forall w1 a, valid a = true ->
     status_of w1 p = RESOLVED -> fate_of w1 p = VPromise q ->
     chain (S fuel) p a w1 = chain fuel q a w1) /\
  (forall stages d c,
     (q < length (heap w))%nat -> p <> q ->
     status_of w q = PENDING -> queue_of w q = [] ->
     queue_of w p = each_args d stages ->
     tasks w = [] ->
     (p < d)%nat -> (q < d)%nat -> (d + length stages <= length (heap w))%nat ->
     (forall x, (d <= x < d + length stages)%nat -> heap w !!! x = fresh_promise) ->
     is_promise (snd c) = false ->
     exists w1 w2 w3,
       resolver (chain fuel) p (VPromise q) w = Ok tt w1 /\
       status_of w1 p = RESOLVED /\ fate_of w1 p = VPromise q /\
       status_of w1 q = PENDING /\ queue_of w1 q = each_args d stages /\
       tasks w1 = [] /\ log w1 = log w /\
       settle (chain fuel) q c w1 = Ok tt w2 /\
       tasks w2 = each_reactions q c d stages /\ log w2 = log w /\
       run handlers fuel (length stages) w2 = Some w3 /\
       tasks w3 = [] /\
       log w3 = log w ++ concat (map (fun s => stage_calls s c) stages) /\
       (forall i s, stages !! i = Some s ->
          status_of w3 (d + i) = settled_as (fst (stage_outcome handlers s c)) /\
          fate_of w3 (d + i) = snd (stage_outcome handlers s c)) /\
       status_of w3 p = RESOLVED /\ fate_of w3 p = VPromise q) /\
  (forall w1 d s c,
     status_of w1 p = RESOLVED -> fate_of w1 p = VPromise q ->
     status_of w1 q = settled_as (fst c) -> fate_of w1 q = snd c ->
     is_promise (snd c) = false ->
     (d < length (heap w1))%nat -> status_of w1 d = PENDING ->
     queue_of w1 d = [] ->
     exists w2 w3,
       chain (S fuel) p (stage_args d s) w1 = Ok tt w2 /\
       tasks w2 = tasks w1 ++ [dispatch_task q (stage_args d s) (fst c) (snd c)] /\
       step handlers fuel (length (tasks w1)) w2 = Some w3 /\
       status_of w3 d = settled_as (fst (stage_outcome handlers s c)) /\
       fate_of w3 d = snd (stage_outcome handlers s c) /\
       log w3 = log w1 ++ stage_calls s c).
Proof.
  intros Hp Hs.
  destruct (nested_settlement fuel w p q op_resolve Hp Hs) as (H1 & H2 & H3).
  split; [exact H1|]. split; [exact H2|]. split; [exact H3|]. split.
  - intros stages d c Hq Hne Hsq Hqq Hqp Hquiet Hpd Hqd Hlen Hfresh Hc.
    by apply (forwarded_reactions_run fuel w p q op_resolve stages d c).
  - intros w1 d s c Hs1 Hf1 Hsq Hfq Hc Hd Hsd Hqd.
    apply late_reaction_follows; try done. by rewrite Hs1.
Qed.

End Dispatch.

Section AtMostOnce.
Open Scope nat_scope.
Variable handlers : nat -> value -> result.
Variable h : nat.

Lemma sum_list_with_alter {A} (f : A -> nat) (g : A -> A) (l : list A) (i : nat)
    (x : A) :
  l !! i = Some x ->
  sum_list_with f (alter g i l) + f x = sum_list_with f l + f (g x).
Proof.
  revert i. induction l as [|y l IH]; intros [|i] Hi; simplify_eq/=.
  - lia.
  - specialize (IH i Hi). lia.
Qed.

Lemma sum_list_with_delete {A} (f : A -> nat) (l : list A) (i : nat) (x : A) :
  l !! i = Some x ->
  sum_list_with f (delete i l) + f x = sum_list_with f l.
Proof.
  revert i. induction l as [|y l IH]; intros [|i] Hi; simplify_eq/=.
  - lia.
  - specialize (IH i Hi). lia.
Qed.

Lemma spent_refl (k : nat) (w : world) : spent h k w w.
Proof. unfold spent. lia. Qed.

Lemma spent_trans (k1 k2 : nat) (w1 w2 w3 : world) :
  spent h k1 w1 w2 -> spent h k2 w2 w3 -> spent h (k1 + k2) w1 w3.
Proof. unfold spent. lia. Qed.

Lemma spent_weaken (k k' : nat) (w w' : world) :
  k <= k' -> spent h k w w' -> spent h k' w w'.
Proof. unfold spent. lia. Qed.

Lemma ends_in_spent_bind {A B} (k1 k2 : nat) (m : M A) (f : A -> M B) (w : world) :
  ends_in (spent h k1 w) (m w) ->
  (forall a w', ends_in (spent h k2 w') (f a w')) ->
  ends_in (spent h (k1 + k2) w) (bind m f w).
Proof.
  intros Hm Hf. unfold bind. destruct (m w) as [a w'|ex w'|]; simpl in *; try done.
  - specialize (Hf a w'). destruct (f a w'); simpl in *; try done;
      by eapply spent_trans.
  - eapply spent_weaken; [|done]. lia.
Qed.

Lemma ends_in_weaken {A} (k k' : nat) (r : outcome A) (w : world) :
  k <= k' -> ends_in (spent h k w) r -> ends_in (spent h k' w) r.
Proof. intros Hk. destruct r; simpl; try done; by apply spent_weaken. Qed.

Lemma spent_task (w : world) (t : task) :
  spent h (one_if (task_mentions h t)) w (set_tasks (fun ts => ts ++ [t]) w).
Proof.
  unfold spent, owed, calls. simpl. rewrite sum_list_with_app. simpl. lia.
Qed.

Lemma spent_cells (w : world) (f : list all_vars -> list all_vars) :
  spent h 0 w (set_cells f w).
Proof. unfold spent, owed, calls. simpl. lia. Qed.

Lemma spent_log (w : world) (h' : nat) (v : value) :
  spent h (one_if (Nat.eqb h h')) w (set_log (fun l => l ++ [(h', v)]) w).
Proof.
  unfold spent, owed, calls. simpl. rewrite sum_list_with_app. simpl. lia.
Qed.

Lemma spent_grown (w : world) :
  spent h 0 w (set_heap (fun hp => hp ++ [fresh_promise]) w).
Proof.
  unfold spent, owed, calls. simpl. rewrite sum_list_with_app. simpl. lia.
Qed.

Lemma owed_alter (w : world) (p : pid) (f : promise -> promise) :
  sum_list_with (owed_by h) (alter f p (heap w)) + owed_by h (heap w !!! p) =
  sum_list_with (owed_by h) (heap w) +
  (if decide (p < length (heap w)) then owed_by h (f (heap w !!! p))
   else owed_by h (heap w !!! p)).
Proof.
  case_decide as Hp.
  - destruct (lookup_lt_is_Some_2 (heap w) p Hp) as [pr Hpr].
    rewrite (list_lookup_total_correct _ _ _ Hpr).
    by apply sum_list_with_alter.
  - rewrite alter_fixed; [done|]. intros x Hx.
    rewrite lookup_ge_None_2 in Hx by lia. done.
Qed.

Lemma spent_push (w : world) (p : pid) (a : args) :
  status_of w p = PENDING ->
  spent h (one_if (mentions h a)) w (set_heap (alter (push a) p) w).
Proof.
  intros Hs. unfold spent, owed, calls. simpl.
  pose proof (owed_alter w p (push a)) as H.
  unfold status_of in Hs.
  assert (Ho' : owed_by h (push a (heap w !!! p)) =
                owed_by h (heap w !!! p) + one_if (mentions h a)).
  { unfold owed_by. cbn [push state queue]. rewrite Hs, sum_list_with_app.
    simpl. lia. }
  rewrite Ho' in H. case_decide; lia.
Qed.

Lemma spent_record (w : world) (p : pid) (c : operation * value) :
  status_of w p = PENDING ->
  calls h (record_outcome p c w) + owed h (record_outcome p c w) +
    sum_list_with (fun a => one_if (mentions h a)) (queue_of w p) <=
  calls h w + owed h w.
Proof.
  intros Hs. unfold owed, calls. rewrite record_outcome_heap. simpl.
  pose proof (owed_alter w p (fun pr => {| fate := snd c; queue := queue pr;
                                           state := settled_as (fst c) |})) as H.
  unfold status_of, queue_of in *.
  assert (Ho : owed_by h (heap w !!! p) =
               sum_list_with (fun a => one_if (mentions h a)) (queue (heap w !!! p))).
  { unfold owed_by. by rewrite Hs. }
  assert (Ho' : owed_by h {| fate := snd c; queue := queue (heap w !!! p);
                             state := settled_as (fst c) |} = 0).
  { unfold owed_by. simpl. by destruct (fst c). }
  assert (Hq : ~ (p < length (heap w)) -> queue (heap w !!! p) = []).
  { intros Hp. by rewrite list_lookup_total_alt, lookup_ge_None_2 by lia. }
  rewrite Ho' in H. rewrite <- Ho.
  case_decide as Hp; [lia|].
  rewrite Ho, (Hq Hp) in *. simpl in *. lia.
Qed.

Lemma spent_trans_0 (w1 w2 w3 : world) :
  spent h 0 w1 w2 -> spent h 0 w2 w3 -> spent h 0 w1 w3.
Proof. unfold spent. lia. Qed.

Lemma ends_in_spent_try_catch {A} (k1 k2 : nat) (m : M A) (hd : value -> M A)
    (w : world) :
  ends_in (spent h k1 w) (m w) ->
  (forall ex w', ends_in (spent h k2 w') (hd ex w')) ->
  ends_in (spent h (k1 + k2) w) (try_catch m hd w).
Proof.
  intros Hm Hh. unfold try_catch. destruct (m w) as [a w'|ex w'|]; simpl in *; try done.
  - eapply spent_weaken; [|done]. lia.
  - specialize (Hh ex w'). destruct (hd ex w'); simpl in *; try done;
      by eapply spent_trans.
Qed.

(** A reaction that is dispatched, forwarded or queued is owed once. *)
Lemma envoy_spent (ch : chain_fn) (p : pid) (a : args) (op : operation)
    (w : world) :
  (forall q w', ends_in (spent h (one_if (mentions h a)) w') (ch q a w')) ->
  ends_in (spent h (one_if (mentions h a)) w) (envoy ch p a op w).
Proof.
  intros Hch. unfold envoy.
  destruct (fate_of w p); try apply Hch;
    destruct (is_function (args_get a op)); unfold setImmediate, modify; simpl;
    try apply (spent_task w (handler_task p a op));
    (eapply spent_weaken; [|apply spent_task]; simpl; lia).
Qed.

Lemma chain_spent (fuel : nat) (p : pid) (a : args) (w : world) :
  ends_in (spent h (one_if (mentions h a)) w) (chain fuel p a w).
Proof.
  revert p w. induction fuel as [|k IH]; intros p w; simpl; unfold bind;
    destruct (validate_cases a w) as [[-> _]|[[msg ->] _]];
    try (simpl; apply spent_refl);
    destruct (status_of w p) eqn:Hs;
    try (unfold update_promise, modify; simpl; by apply spent_push);
    apply envoy_spent; intros; try apply IH; done.
Qed.

(** The reactions of a settled Promise from position [i] on are owed once
    each. *)
Lemma enlighten_loop_spent (fuel : nat) (p : pid) (op : operation)
    (n i : nat) (w : world) :
  status_of w p <> PENDING ->
  ends_in (spent h (sum_list_with (fun a => one_if (mentions h a))
                      (take n (drop i (queue_of w p)))) w)
    (enlighten_loop (chain fuel) p op i n w).
Proof.
  revert i w. induction n as [|n IH]; intros i w Hs; simpl.
  - apply spent_refl.
  - destruct (queue_of w p !! i) as [a|] eqn:Hi;
      [|simpl; apply spent_refl].
    rewrite (drop_S _ _ _ Hi). simpl.
    pose proof (envoy_spent (chain fuel) p a op w
                  (fun q w' => chain_spent fuel q a w')) as He.
    pose proof (envoy_history (chain fuel) p a op w
                  (fun q w' => chain_history fuel q a w')) as Hh.
    unfold bind. destruct (envoy _ _ _ _ _) as [[] w1|ex w1|]; simpl in *;
      [|eapply spent_weaken; [|done]; lia|done].
    destruct Hh as (_ & Hfix & _ & _). specialize (Hfix p Hs).
    specialize (IH (S i) w1). unfold status_of, queue_of in *.
    rewrite Hfix in IH. specialize (IH Hs).
    destruct (enlighten_loop _ _ _ _ _ _); simpl in *; try done;
      by eapply spent_trans.
Qed.

(** A settlement moves the reactions of the queue to callbacks or to the
    queue of the Promise it was resolved with; none is added. *)
Lemma settle_spent (fuel : nat) (p : pid) (c : operation * value) (w : world) :
  ends_in (spent h 0 w) (settle (chain fuel) p c w).
Proof.
  destruct (status_of w p) eqn:Hs;
    [|rewrite settle_settled by congruence; apply spent_refl..].
  rewrite settle_pending by done. unfold enlighten.
  pose proof (spent_record w p c Hs) as Hr.
  rewrite queue_of_record.
  destruct (decide (p < length (heap w))) as [Hp|Hp].
  - pose proof (enlighten_loop_spent fuel p (fst c) (length (queue_of w p)) 0
                  (record_outcome p c w)) as Hl.
    rewrite queue_of_record, drop_0, firstn_all in Hl.
    assert (Hst : status_of (record_outcome p c w) p <> PENDING).
    { rewrite status_of_record by done. by destruct (fst c). }
    specialize (Hl Hst).
    destruct (enlighten_loop _ _ _ _ _ _); simpl in *; try done;
      unfold spent in *; lia.
  - assert (Hq : queue_of w p = []).
    { unfold queue_of. by rewrite list_lookup_total_alt, lookup_ge_None_2 by lia. }
    rewrite Hq in *. simpl in *. unfold spent. lia.
Qed.

Lemma resolver_spent (fuel : nat) (p : pid) (v : value) (w : world) :
  ends_in (spent h 0 w) (resolver (chain fuel) p v w).
Proof. apply (settle_spent fuel p (op_resolve, v)). Qed.

Lemma rejector_spent (fuel : nat) (p : pid) (v : value) (w : world) :
  ends_in (spent h 0 w) (rejector (chain fuel) p v w).
Proof. apply (settle_spent fuel p (op_reject, v)). Qed.

Ltac spent_step :=
  lazymatch goal with
  | |- ends_in _ (bind _ _ _) =>
      apply (ends_in_bind (spent h 0)); [apply spent_trans_0| |intros]
  | |- ends_in _ (try_catch _ _ _) =>
      apply (ends_in_try_catch (spent h 0)); [apply spent_trans_0| |intros]
  | |- ends_in _ (resolver _ _ _ _) => apply resolver_spent
  | |- ends_in _ (rejector _ _ _ _) => apply rejector_spent
  | |- _ =>
      first [ apply spent_refl | apply spent_cells | apply spent_grown ]
  end.

Lemma all_resolved_spent (fuel : nat) (c index : nat) (v : value) (w : world) :
  ends_in (spent h 0 w) (all_resolved (chain fuel) c index v w).
Proof.
  unfold all_resolved. destruct (all_status _); [|spent_step].
  unfold update_cell, modify. repeat spent_step.
  destruct (Z.eqb _ _); spent_step.
Qed.

Lemma all_rejected_spent (fuel : nat) (c : nat) (v : value) (w : world) :
  ends_in (spent h 0 w) (all_rejected (chain fuel) c v w).
Proof. unfold all_rejected, update_cell, modify. repeat spent_step. Qed.

(** A call of [f] is a call of [h] when [f] is [h], and otherwise none. *)
Lemma call_spent (fuel : nat) (f v : value) (w : world) :
  ends_in (spent h (one_if (is_handler h f)) w)
    (call handlers (chain fuel) f v w).
Proof.
  destruct f as [| | | | | |[p|p|c index|c|h']| |]; cbn [call is_handler one_if];
    unfold ret, throw, modify; try apply spent_refl.
  - spent_step; [spent_step|spent_step].
  - spent_step; [spent_step|spent_step].
  - spent_step; [apply all_resolved_spent|spent_step].
  - spent_step; [apply all_rejected_spent|spent_step].
  - unfold bind. destruct (handlers h' v); simpl; apply spent_log.
Qed.

Lemma call_settlement_spent (fuel : nat) (f v : value) (w : world) :
  settlement_function f ->
  ends_in (spent h 0 w) (call handlers (chain fuel) f v w).
Proof.
  intros [d [->| ->]].
  - apply (call_spent fuel (VFun (Resolver d)) v w).
  - apply (call_spent fuel (VFun (Rejector d)) v w).
Qed.

Lemma new_Promise_spent (func : producer) (w : world) :
  ends_in (spent h (one_if (task_mentions h (producer_task (length (heap w)) func))) w)
    (new_Promise func w).
Proof.
  unfold new_Promise, setImmediate, modify, ret, bind. simpl.
  pose proof (spent_grown w) as Hg.
  pose proof (spent_task (set_heap (fun hp => hp ++ [fresh_promise]) w)
                (producer_task (length (heap w)) func)) as Ht.
  unfold spent in *. simpl in *. lia.
Qed.

Lemma call_then_spent (v f g : value) (w : world) :
  ends_in (spent h (one_if (is_handler h f || is_handler h g)) w)
    (call_then v f g w).
Proof.
  destruct v; cbn [call_then]; unfold throw;
    try (simpl; apply spent_refl).
  unfold Promise_then, ret, bind.
  pose proof (new_Promise_spent (then_producer p f g) w) as H.
  by destruct (new_Promise _ _).
Qed.

Lemma all_each_spent (c : nat) (v : value) (index : nat) (w : world) :
  ends_in (spent h 0 w) (all_each c v index w).
Proof.
  unfold all_each. spent_step.
  - destruct (truthy v && negb (has_then v)); unfold ret; [spent_step|].
    unfold Promise_resolve, bind.
    pose proof (new_Promise_spent (resolve_producer v) w) as H.
    by destruct (new_Promise _ _).
  - spent_step; [|unfold ret; spent_step].
    apply (call_then_spent a (VFun (AllResolved c index)) (VFun (AllRejected c))).
Qed.

Lemma forEach_spent (c : nat) (iterable : list value) (index : nat) (w : world) :
  ends_in (spent h 0 w) (forEach (all_each c) iterable index w).
Proof.
  revert index w. induction iterable as [|v rest IH]; intros index w; simpl.
  - spent_step.
  - spent_step; [apply all_each_spent|apply IH].
Qed.

Lemma run_body_spent (fuel : nat) (p : pid) (body : list stmt) (w : world) :
  ends_in (spent h 0 w) (run_body (chain fuel) p body w).
Proof.
  revert w. induction body as [|[v|v|ex] rest IH]; intros w; simpl;
    unfold ret, throw; repeat spent_step; apply IH.
Qed.

Lemma mentions_then_args (d : pid) (f g : value) :
  mentions h (then_args d f g) = is_handler h f || is_handler h g.
Proof.
  unfold mentions, then_args. simpl.
  by destruct f as [| | | | | |[]| |], g as [| | | | | |[]| |].
Qed.

Lemma mentions_catch_args (d : pid) (g : value) :
  mentions h (catch_args d g) = is_handler h g.
Proof.
  unfold mentions, catch_args. simpl. by destruct g as [| | | | | |[]| |].
Qed.

(** A producer of the library makes a reaction owed only when it is the
    producer of a [then] or [catch] that was given [h]. *)
Lemma run_producer_spent (fuel : nat) (p : pid) (func : producer) (w : world) :
  ends_in (spent h (one_if (task_mentions h (producer_task p func))) w)
    (run_producer fuel p func w).
Proof.
  destruct func; cbn [run_producer task_mentions one_if].
  - apply run_body_spent.
  - destruct (truthy v && has_then v); [|spent_step].
    spent_step; [|unfold ret; spent_step].
    apply (call_then_spent v (VFun (Resolver p)) (VFun (Rejector p))).
  - spent_step.
  - unfold modify. spent_step; [spent_step|apply forEach_spent].
  - rewrite <- (mentions_then_args p). apply chain_spent.
  - rewrite <- (mentions_catch_args p). apply chain_spent.
Qed.

(** A callback calls [h] or makes a reaction with [h] owed at most once,
    and only when it was itself counted. *)
Lemma run_task_spent (fuel : nat) (t : task) (w : world) :
  task_ok w t ->
  ends_in (spent h (one_if (task_mentions h t)) w) (run_task handlers fuel t w).
Proof.
  intros Hok. destruct t as [p func|p a op|f v]; cbn [run_task].
  - apply (ends_in_weaken (one_if (task_mentions h (producer_task p func)) + 0));
      [lia|].
    apply ends_in_spent_try_catch; [apply run_producer_spent|].
    intros. apply rejector_spent.
  - destruct Hok as ((d & f & g & ->) & _ & _).
    apply (ends_in_weaken (one_if (is_handler h (args_get (then_args d f g) op)) + 0)).
    { cbn [task_mentions]. unfold mentions.
      destruct op; simpl;
        destruct (is_handler h _), (is_handler h _); simpl; lia. }
    apply ends_in_spent_try_catch.
    + apply (ends_in_weaken (one_if (is_handler h (args_get (then_args d f g) op)) + 0));
        [lia|].
      apply ends_in_spent_bind; [apply call_spent|].
      intros r w'. spent_step; [|unfold ret; spent_step].
      apply (call_spent fuel (VFun (Resolver d))).
    + intros ex w'. spent_step; [|unfold ret; spent_step].
      apply (call_spent fuel (VFun (Rejector d))).
  - destruct Hok as [Hf _]. cbn [task_mentions one_if].
    spent_step; [by apply call_settlement_spent|unfold ret; spent_step].
Qed.

Lemma step_spent (fuel i : nat) (w w' : world) :
  well_formed w -> step handlers fuel i w = Some w' -> spent h 0 w w'.
Proof.
  intros (_ & Ht & _). unfold step.
  destruct (tasks w !! i) as [t|] eqn:Hi; [|done].
  assert (Hok : task_ok (set_tasks (delete i) w) t).
  { pose proof (proj1 (Forall_lookup _ _) Ht i t Hi) as Hok.
    by destruct t. }
  pose proof (run_task_spent fuel t _ Hok) as H.
  pose proof (sum_list_with_delete (fun t => one_if (task_mentions h t))
                (tasks w) i t Hi) as Hd.
  destruct (run_task _ _ _ _) as [x w1|ex w1|]; simpl in *; intros ?;
    simplify_eq; unfold spent, owed, calls in *; simpl in *; lia.
Qed.

Lemma perform_spent (fuel : nat) (a : action) (w w' : world) :
  well_formed w -> perform handlers fuel a w = Some w' ->
  spent h (one_if (action_mentions h a)) w w'.
Proof.
  intros Hw.
  assert (Hc : forall A k (r : outcome A), ends_in (spent h k w) r ->
            completed r = Some w' -> spent h k w w').
  { intros A k [x w1|ex w1|]; simpl; intros H ?; by simplify_eq. }
  destruct a; cbn [perform action_mentions one_if].
  - apply Hc. apply (new_Promise_spent (caller_producer body)).
  - apply Hc. apply settle_spent.
  - apply Hc. unfold Promise_resolve, ret, bind.
    pose proof (new_Promise_spent (resolve_producer v) w) as H.
    by destruct (new_Promise _ _).
  - apply Hc. unfold Promise_reject, ret, bind.
    pose proof (new_Promise_spent (reject_producer reason) w) as H.
    by destruct (new_Promise _ _).
  - apply Hc. unfold Promise_all, ret, bind.
    pose proof (new_Promise_spent (all_producer iterable) w) as H.
    by destruct (new_Promise _ _).
  - apply Hc. unfold Promise_then, ret, bind.
    pose proof (new_Promise_spent (then_producer p f g) w) as H.
    by destruct (new_Promise _ _).
  - apply Hc. unfold Promise_catch, ret, bind.
    pose proof (new_Promise_spent (catch_producer p g) w) as H.
    by destruct (new_Promise _ _).
  - by apply step_spent.
Qed.

Lemma play_spent (fuel : nat) (script : list action) (w w' : world) :
  well_formed w -> play handlers fuel script w = Some w' ->
  spent h (attachments h script) w w'.
Proof.
  revert w. induction script as [|a rest IH]; intros w Hw; simpl.
  - intros ?; simplify_eq. apply spent_refl.
  - destruct (perform handlers fuel a w) as [w1|] eqn:Hp; [|done].
    intros H. eapply spent_trans.
    + by eapply perform_spent.
    + apply IH; [by eapply perform_well_formed|done].
Qed.

End AtMostOnce.

Section Library.
Variable handlers : nat -> value -> result.

(** X1: whatever the caller and the host do next (construct Promises, call
    settlement functions, call [Promise.resolve], [Promise.reject],
    [Promise.all], [then] or [catch], run pending callbacks in any order), a
    Promise that is settled keeps its status, its fate and its queue; every
    queue keeps the reactions it holds, in front; the record of handler calls
    keeps its entries, in front; and no Promise disappears. *)
Theorem settled_promises_never_change (fuel : nat) (script : list action)
    (w w' : world) :
  play handlers fuel script w = Some w' ->
  (forall p, status_of w p <> PENDING ->
     status_of w' p = status_of w p /\ fate_of w' p = fate_of w p /\
     queue_of w' p = queue_of w p) /\
  (forall p, queue_of w p `prefix_of` queue_of w' p) /\
  log w `prefix_of` log w' /\
  (length (heap w) <= length (heap w'))%nat.
Proof.
  intros Hplay. destruct (play_history handlers fuel script w w' Hplay)
    as (Hl & Hs & Hq & Hg).
  split; [|done]. intros p Hp. unfold status_of, fate_of, queue_of.
  by rewrite (Hs p Hp).
Qed.

(** X2: in every world reached from the empty one by such a script, no
    pending callback lets an exception escape to the host when it runs, and
    no call of a settlement function throws. *)
Theorem no_exception_escapes_a_callback (fuel : nat) (script : list action)
    (w : world) :
  play handlers fuel script empty_world = Some w ->
  (forall fuel' i t, tasks w !! i = Some t ->
     forall ex w', run_task handlers fuel' t (set_tasks (delete i) w) <> Throw ex w') /\
  (forall fuel' p c ex w', settle (chain fuel') p c w <> Throw ex w').
Proof.
  intros Hplay.
  pose proof (play_well_formed handlers fuel script _ _ empty_world_well_formed Hplay)
    as Hw.
  split.
  - intros fuel' i t Hi ex w' Hthrow.
    assert (Ht : task_ok (set_tasks (delete i) w) t).
    { destruct Hw as (_ & Ht & _). by apply (Forall_lookup_1 _ _ _ _ Ht Hi). }
    pose proof (run_task_well_formed handlers fuel' t _
                  (well_formed_tasks_delete w i Hw) Ht) as H.
    by rewrite Hthrow in H.
  - intros fuel' p c ex w' Hthrow.
    pose proof (settle_well_formed fuel' p c w Hw) as H. by rewrite Hthrow in H.
Qed.

(** X3: in every world reached from the empty one by such a script, no
    handler of the caller was ever called with a Promise as its argument. *)
Theorem handlers_never_receive_a_promise (fuel : nat) (script : list action)
    (w : world) :
  play handlers fuel script empty_world = Some w ->
  Forall (fun entry => is_promise (snd entry) = false) (log w).
Proof.
  intros Hplay.
  by destruct (play_well_formed handlers fuel script _ _
                 empty_world_well_formed Hplay) as (_ & _ & ?).
Qed.

(** X4: the callback of a caller's producer settles the new Promise with
    the producer's first outcome: the first call of [resolve] or [reject], or
    a rejection with the value of a [throw] that comes before any such call.
    Later calls and a later [throw] change nothing, and a producer that does
    neither leaves the Promise pending. *)
Theorem producer_settles_with_first_outcome (fuel : nat) (w : world) (p : pid)
    (body : list stmt) :
  (p < length (heap w))%nat ->
  status_of w p = PENDING ->
  match first_outcome body with
  | None =>
      run_task handlers fuel (producer_task p (caller_producer body)) w = Ok tt w
  | Some c =>
      ends_in (fun w1 => status_of w1 p = settled_as (fst c) /\
                         fate_of w1 p = snd c /\ log w1 = log w)
        (run_task handlers fuel (producer_task p (caller_producer body)) w) /\
      (is_promise (snd c) = false ->
       run_task handlers fuel (producer_task p (caller_producer body)) w =
         Ok tt (settled p c w))
  end.
Proof.
  intros Hp Hs. destruct (first_outcome body) as [c|] eqn:Hc.
  - split.
    + by apply producer_task_ends.
    + intros Hv. by apply producer_task_plain.
  - by destruct body as [|[] ?].
Qed.

(** X5: [Promise.resolve(v)] for a value without a [then] method, also
    [undefined], [null], [0], [false] and the empty string, returns a Promise
    that is still pending; the callback of its producer fulfils it with
    [v]. *)
Theorem resolve_fulfils_with_plain_value (fuel : nat) (w : world) (v : value) :
  is_promise v = false ->
  exists w1 w2,
    Promise_resolve v w = Ok (VPromise (length (heap w))) w1 /\
    status_of w1 (length (heap w)) = PENDING /\
    step handlers fuel (length (tasks w)) w1 = Some w2 /\
    status_of w2 (length (heap w)) = RESOLVED /\
    fate_of w2 (length (heap w)) = v /\
    tasks w2 = tasks w /\ log w2 = log w.
Proof.
  intros Hv. eexists _, _. split; [reflexivity|].
  destruct (grown_fresh w) as (Hs & _).
  split; [exact Hs|]. split; [by apply resolve_plain|].
  destruct (record_fresh (op_resolve, v) w) as [H1 H2]. by rewrite H1, H2.
Qed.

(** X6: [Promise.reject(reason)] returns a Promise that is still pending;
    the callback of its producer rejects it with the reason as it is given,
    also when the reason is a Promise. *)
Theorem reject_rejects_with_given_reason (fuel : nat) (w : world) (reason : value) :
  exists w1 w2,
    Promise_reject reason w = Ok (VPromise (length (heap w))) w1 /\
    status_of w1 (length (heap w)) = PENDING /\
    step handlers fuel (length (tasks w)) w1 = Some w2 /\
    status_of w2 (length (heap w)) = REJECTED /\
    fate_of w2 (length (heap w)) = reason /\
    tasks w2 = tasks w /\ log w2 = log w.
Proof.
  eexists _, _. split; [reflexivity|].
  destruct (grown_fresh w) as (Hs & _).
  split; [exact Hs|]. split; [by apply reject_any|].
  destruct (record_fresh (op_reject, reason) w) as [H1 H2]. by rewrite H1, H2.
Qed.

(** X7: [Promise.resolve(q)] for a Promise [q] of this library follows
    [q].  When [q] is settled with an outcome that is not a Promise, the new
    Promise is settled like [q] after three callbacks: its producer, the
    producer of the [then] it called on [q], and the reaction.  When [q] is
    pending, the reaction waits at the end of the queue of [q], and the
    callback of the reaction, once [q] is settled, settles the new Promise
    like [q]. *)
Theorem resolve_adopts_promise (fuel : nat) (w : world) (q : pid) :
  (q < length (heap w))%nat ->
  (forall op, status_of w q = settled_as op -> is_promise (fate_of w q) = false ->
     exists w3,
       run_schedule handlers fuel
         [length (tasks w); length (tasks w); length (tasks w)]
         (exec (Promise_resolve (VPromise q)) w) = Some w3 /\
       status_of w3 (length (heap w)) = status_of w q /\
       fate_of w3 (length (heap w)) = fate_of w q /\
       tasks w3 = tasks w /\ log w3 = log w) /\
  (status_of w q = PENDING ->
     exists w2,
       run_schedule handlers fuel [length (tasks w); length (tasks w)]
         (exec (Promise_resolve (VPromise q)) w) = Some w2 /\
       status_of w2 (length (heap w)) = PENDING /\
       queue_of w2 q =
         queue_of w q ++ [relay_args (length (heap w)) (S (length (heap w)))] /\
       forall fuel' c, is_promise (snd c) = false ->
         exists w3 w4,
           settle (chain fuel') q c w2 = Ok tt w3 /\
           step handlers fuel' (length (tasks w) + length (queue_of w q)) w3 = Some w4 /\
           status_of w4 (length (heap w)) = settled_as (fst c) /\
           fate_of w4 (length (heap w)) = snd c).
Proof.
  intros Hq. split.
  - intros op Hs Hf. eexists. split; [by apply resolve_promise_settled|].
    destruct (grown_twice_fresh w) as (Hd & Hd' & Hlen).
    set (d := length (heap w)) in *. set (g := grown (grown w)) in *.
    destruct (settled_twice d (S d) (op, fate_of w q) (op_resolve, VUndefined) g)
      as (Ht & Hh & _ & Hl).
    split; [|split; [|split]].
    + rewrite Hs. unfold status_of. rewrite Hh, list_lookup_total_alter_ne by lia.
      by rewrite list_lookup_total_alter_eq by lia.
    + unfold fate_of at 1. rewrite Hh, list_lookup_total_alter_ne by lia.
      by rewrite list_lookup_total_alter_eq by lia.
    + rewrite Ht. unfold queue_of. rewrite Hd, Hd'. simpl. by rewrite app_nil_r.
    + by rewrite Hl.
  - by apply resolve_promise_pending.
Qed.


(** X8: [catch(g)] is [then] without a handler for fulfilments: its
    producer attaches the reaction [then(x, g)] attaches for any [x] that is
    not callable.  On a Promise fulfilled with a value that is not a Promise
    the new Promise is fulfilled with the same value and [g] is not called;
    on one rejected with such a reason, a handler [g] of the caller is called
    once with the reason, and the new Promise is fulfilled with what [g]
    returns or rejected with what [g] throws; when [g] is not callable the
    rejection is passed on. *)
Theorem catch_is_then_without_fulfilment_handler (fuel : nat) (w : world)
    (p : pid) (g : value) :
  (forall x d w0, is_function x = false ->
     catch_args d g = then_args d x g /\
     run_task handlers fuel (producer_task d (catch_producer p g)) w0 =
     run_task handlers fuel (producer_task d (then_producer p x g)) w0) /\
  ((p < length (heap w))%nat -> is_promise (fate_of w p) = false ->
   (status_of w p = RESOLVED ->
    exists w2,
      run_schedule handlers fuel [length (tasks w); length (tasks w)]
        (exec (Promise_catch p g) w) = Some w2 /\
      status_of w2 (length (heap w)) = RESOLVED /\
      fate_of w2 (length (heap w)) = fate_of w p /\
      log w2 = log w) /\
   (status_of w p = REJECTED -> is_function g = false ->
    exists w2,
      run_schedule handlers fuel [length (tasks w); length (tasks w)]
        (exec (Promise_catch p g) w) = Some w2 /\
      status_of w2 (length (heap w)) = REJECTED /\
      fate_of w2 (length (heap w)) = fate_of w p /\
      log w2 = log w) /\
   (forall h, status_of w p = REJECTED -> g = VFun (Handler h) ->
    exists w2,
      run_schedule handlers fuel [length (tasks w); length (tasks w)]
        (exec (Promise_catch p g) w) = Some w2 /\
      log w2 = log w ++ [(h, fate_of w p)] /\
      match handlers h (fate_of w p) with
      | Returns r =>
          status_of w2 (length (heap w)) = RESOLVED /\
          fate_of w2 (length (heap w)) = r
      | Throws ex =>
          status_of w2 (length (heap w)) = REJECTED /\
          fate_of w2 (length (heap w)) = ex
      end)).
Proof.
  split.
  - intros x d w0 Hx. split; [by apply catch_args_then|].
    by apply catch_producer_then.
  - intros Hp Hf.
    assert (Hexec : exec (Promise_catch p g) w =
                    with_new_promise (catch_producer p g) w) by done.
    rewrite Hexec, (catch_as_then handlers fuel _ p VNull g w eq_refl).
    split; [|split].
    + intros Hs. eexists. split.
      * by apply (then_passes_on handlers fuel w p VNull g op_resolve).
      * destruct (record_fresh (op_resolve, fate_of w p) w) as [H1 H2].
        by rewrite H1, H2.
    + intros Hs Hg. eexists. split.
      * apply (then_passes_on handlers fuel w p VNull g op_reject); try done.
        unfold then_args; simpl. by rewrite Hg.
      * destruct (record_fresh (op_reject, fate_of w p) w) as [H1 H2].
        by rewrite H1, H2.
    + intros h Hs ->. eexists. split.
      * by apply (then_calls_handler handlers fuel w p VNull _ op_reject h).
      * split; [done|].
        assert (Hrec : forall c,
          status_of (record_outcome (length (heap w)) c
             (set_log (fun l => l ++ [(h, fate_of w p)]) (grown w)))
             (length (heap w)) = settled_as (fst c) /\
          fate_of (record_outcome (length (heap w)) c
             (set_log (fun l => l ++ [(h, fate_of w p)]) (grown w)))
             (length (heap w)) = snd c).
        { intros c. apply (record_fresh c w). }
        destruct (handlers h (fate_of w p)); apply Hrec.
Qed.

(** X9: a chain [p.then(f1, g1).then(f2, g2)...] on a Promise settled with
    an outcome that is not a Promise composes the handlers: each stage calls
    its handler for the operation it receives, if it has one, fulfils its
    Promise with what the handler returns and rejects it with what the
    handler throws, and passes the outcome on unchanged without one.  While
    every stage receives an outcome that is not a Promise, two callbacks per
    stage, run in submission order, leave every Promise of the chain settled
    with the outcome of its stage, the handlers having been called once
    each, in the order of the stages. *)
Theorem then_chain_composes_handlers (fuel : nat) (w : world) (p : pid)
    (s : stage) (rest : list stage) (c : operation * value) :
  tasks w = [] ->
  (p < length (heap w))%nat ->
  status_of w p = settled_as (fst c) ->
  fate_of w p = snd c ->
  flows handlers (s :: rest) c ->
  exists w',
    run handlers fuel (2 * length (s :: rest))
      (exec (then_chain (VPromise p) (map stage_values (s :: rest))) w) = Some w' /\
    tasks w' = [] /\
    log w' = log w ++ pipeline_calls handlers (s :: rest) c /\
    settled_chain handlers w' (length (heap w)) (s :: rest) c /\
    status_of w' (length (heap w) + length rest) =
      settled_as (fst (pipeline handlers (s :: rest) c)) /\
    fate_of w' (length (heap w) + length rest) =
      snd (pipeline handlers (s :: rest) c).
Proof.
  intros Hquiet Hp Hs Hf Hflow.
  destruct (then_chain_runs handlers fuel w p s rest c Hquiet Hp Hs Hf Hflow)
    as (w' & Hrun & Ht & Hl & Hch & _).
  destruct (settled_chain_last handlers w' _ s rest c Hch) as [H1 H2].
  by exists w'.
Qed.

(** X10: the same for a Promise the caller constructs: after the callback
    of the caller's producer, which settles the Promise with the producer's
    first outcome, and two callbacks per stage, the Promise and every Promise
    of the chain [new Promise(producer).then(f1, g1).then(f2, g2)...] are
    settled, the last one with the outcome of the whole chain. *)
Theorem new_promise_feeds_then_chain (fuel : nat) (w : world) (body : list stmt)
    (s : stage) (rest : list stage) (c : operation * value) :
  tasks w = [] ->
  first_outcome body = Some c ->
  flows handlers (s :: rest) c ->
  exists w',
    run handlers fuel (1 + 2 * length (s :: rest))
      (exec (p <- new_Promise (caller_producer body) ;;
             then_chain (VPromise p) (map stage_values (s :: rest))) w) = Some w' /\
    tasks w' = [] /\
    log w' = log w ++ pipeline_calls handlers (s :: rest) c /\
    status_of w' (length (heap w)) = settled_as (fst c) /\
    fate_of w' (length (heap w)) = snd c /\
    settled_chain handlers w' (S (length (heap w))) (s :: rest) c /\
    status_of w' (S (length (heap w)) + length rest) =
      settled_as (fst (pipeline handlers (s :: rest) c)) /\
    fate_of w' (S (length (heap w)) + length rest) =
      snd (pipeline handlers (s :: rest) c).
Proof.
  intros Hquiet Hbody Hflow.
  destruct (new_promise_chain_runs handlers fuel w body s rest c Hquiet Hbody Hflow)
    as (w' & Hrun & Ht & Hl & Hs & Hf & Hch & _).
  destruct (settled_chain_last handlers w' _ s rest c Hch) as [H1 H2].
  by exists w'.
Qed.

(** X11: several [then] calls on one Promise that is settled with an
    outcome that is not a Promise: two callbacks per call, run in submission
    order, call the handlers in the order of the [then] calls, each once with
    the outcome, and settle the Promise each call returned with what its
    handler made of the outcome. *)
Theorem reactions_of_one_promise_run_in_order (fuel : nat) (w : world) (p : pid)
    (stages : list stage) (c : operation * value) :
  tasks w = [] ->
  (p < length (heap w))%nat ->
  status_of w p = settled_as (fst c) ->
  fate_of w p = snd c ->
  is_promise (snd c) = false ->
  exists w',
    run handlers fuel (2 * length stages)
      (exec (then_each p (map stage_values stages)) w) = Some w' /\
    tasks w' = [] /\
    log w' = log w ++ concat (map (fun s => stage_calls s c) stages) /\
    (forall i s, stages !! i = Some s ->
       status_of w' (length (heap w) + i) =
         settled_as (fst (stage_outcome handlers s c)) /\
       fate_of w' (length (heap w) + i) = snd (stage_outcome handlers s c)).
Proof.
  intros Hquiet Hp Hs Hf Hc.
  destruct (then_each_runs handlers fuel w p stages c Hquiet Hp Hs Hf Hc)
    as (w' & Hrun & Ht & Hl & Hall & _).
  by exists w'.
Qed.

(** X12: the fulfilment handlers of a [Promise.all] call store each value
    at the index of its input, so when every input has reported, in whatever
    order, the array holds the values in input order.  The result stays
    pending until the last report and is then fulfilled with the array. *)
Theorem all_results_follow_input_order (fuel : nat) (w : world) (c : nat)
    (vs : list value) (reports : list (nat * value)) (last : nat * value) :
  (c < length (cells w))%nat ->
  results (cells w !!! c) = [] ->
  remaining (cells w !!! c) = Z.of_nat (length vs) ->
  all_status (cells w !!! c) = true ->
  (all_owner (cells w !!! c) < length (heap w))%nat ->
  status_of w (all_owner (cells w !!! c)) = PENDING ->
  reports ++ [last] ≡ₚ imap (fun i v => (i, v)) vs ->
  exists w0 w1,
    notify_all (chain fuel) c (fulfilments reports) w = Ok tt w0 /\
    status_of w0 (all_owner (cells w !!! c)) = PENDING /\
    notify (chain fuel) c (fulfilled (fst last) (snd last)) w0 = Ok tt w1 /\
    results (cells w1 !!! c) = map Some vs /\
    status_of w1 (all_owner (cells w !!! c)) = RESOLVED /\
    fate_of w1 (all_owner (cells w !!! c)) = VArray c.
Proof.
  intros Hc Hres Hrem Hst Ho Hs Hperm.
  assert (Hlen : length vs = S (length reports)).
  { apply Permutation_length in Hperm.
    rewrite length_app, length_imap in Hperm. simpl in Hperm. lia. }
  destruct (notify_fills (chain fuel) c reports w Hc Hst)
    as (w0 & Hrun & Hh & Ht & Hl & Hlc & Hcell); [lia|].
  assert (Hown : all_owner (cells w0 !!! c) = all_owner (cells w !!! c))
    by (by rewrite Hcell).
  destruct (notify_last fuel c (fst last) (snd last) w0)
    as (w1 & Hlast & Hres1 & Hs1 & Hf1).
  - by rewrite Hlc.
  - by rewrite Hcell.
  - rewrite Hcell. simpl. lia.
  - by rewrite Hown, Hh.
  - rewrite Hown. unfold status_of in *. by rewrite Hh.
  - exists w0, w1. split; [done|]. split; [unfold status_of in *; by rewrite Hh|].
    split; [done|]. rewrite Hown in Hs1, Hf1. split; [|done].
    rewrite Hres1, Hcell. simpl. rewrite Hres.
    change (array_set (fst last) (snd last) (fill [] reports))
      with (fill (fill [] reports) [last]).
    rewrite <- fill_app. by apply fill_any_order.
Qed.

(** X15: of the reports that reach the two handlers of a [Promise.race]
    call, the first settles the result, under the operation and with the
    value of that report, and sets [found]; every later report, fulfilment
    or rejection, changes nothing.  A report that finds the result settled
    already, with [found] still unset, only sets [found]. *)
Theorem race_settles_with_first_report (fuel : nat) (w : world) (owner : pid)
    (c : operation * value) (rest : list (operation * value)) :
  (owner < length (heap w))%nat ->
  (status_of w owner = PENDING -> is_promise (snd c) = false ->
   race_reports (chain fuel) owner (c :: rest) false w =
     Some (true, settled owner c w) /\
   status_of (settled owner c w) owner = settled_as (fst c) /\
   fate_of (settled owner c w) owner = snd c) /\
  (status_of w owner <> PENDING ->
   race_reports (chain fuel) owner (c :: rest) false w = Some (true, w)) /\
  race_reports (chain fuel) owner (c :: rest) true w = Some (true, w).
Proof.
  intros Ho. split; [|split].
  - intros Hs Hc. cbn [race_reports]. rewrite race_handler_settles. cbn [fst snd].
    rewrite (settle_plain fuel owner c w Ho Hs Hc). cbn [completed].
    fold (settled owner c w). rewrite race_found. split; [done|].
    change (status_of (settled ?p ?x ?y)) with (status_of (record_outcome p x y)).
    change (fate_of (settled ?p ?x ?y)) with (fate_of (record_outcome p x y)).
    by rewrite status_of_record, fate_of_record.
  - intros Hs. cbn [race_reports]. rewrite race_handler_settles. cbn [fst snd].
    rewrite settle_settled by done. cbn [completed]. apply race_found.
  - apply race_found.
Qed.

(** X16: [Promise.all] over a non-empty list of falsy values, such as [0],
    the empty string, [null], [undefined] and [false], wraps each in
    [Promise.resolve]; run from the call until no callback is pending, one
    callback for the call and three per value, the result is fulfilled with
    the array of the values in input order. *)
Theorem all_fulfils_falsy_values (fuel : nat) (w : world) (vs : list value) :
  tasks w = [] ->
  vs <> [] ->
  Forall (fun v => truthy v = false) vs ->
  exists w5,
    run handlers fuel (1 + 3 * length vs) (exec (Promise_all vs) w) = Some w5 /\
    tasks w5 = [] /\ log w5 = log w /\
    status_of w5 (length (heap w)) = RESOLVED /\
    fate_of w5 (length (heap w)) = VArray (length (cells w)) /\
    results (cells w5 !!! length (cells w)) = map Some vs.
Proof. apply all_of_falsy_values. Qed.

(** X13: [Promise.all] over a non-empty list of Promises that are all
    fulfilled with values that are not Promises, run from the call until no
    callback is pending (one callback for the call and five per input), ends
    fulfilled with the array of the inputs' values in input order.  An input
    may occur more than once; no handler of the caller is called and the
    inputs stay as they are. *)
Theorem all_fulfils_settled_inputs_in_order (fuel : nat) (w : world)
    (ins : list pid) :
  tasks w = [] ->
  Forall (settled_plain w) ins ->
  ins <> [] ->
  first_rejection w ins = None ->
  exists w5,
    run handlers fuel (1 + 5 * length ins)
      (exec (Promise_all (map VPromise ins)) w) = Some w5 /\
    tasks w5 = [] /\ log w5 = log w /\
    status_of w5 (length (heap w)) = RESOLVED /\
    fate_of w5 (length (heap w)) = VArray (length (cells w)) /\
    results (cells w5 !!! length (cells w)) = map (fun i => Some (fate_of w i)) ins /\
    (forall p, (p < length (heap w))%nat -> heap w5 !!! p = heap w !!! p).
Proof.
  intros Hquiet Hin Hne Hnone.
  destruct (all_of_settled_promises handlers fuel w ins Hquiet Hin)
    as (w5 & Hrun & Ht & Hl & Ho & Hst & Hk).
  exists w5. split; [done|]. split; [done|]. split; [done|].
  unfold all_state_after in Hst. rewrite Hnone, Ho in Hst.
  destruct Hst as (_ & _ & Hres & _ & Hdone).
  rewrite decide_True in Hdone by (split; [done|]; destruct ins; [done|simpl; lia]).
  by destruct Hdone.
Qed.

(** X17: a chain [p.then(f1, g1).then(f2, g2)...] on a Promise that is
    still pending and has no reaction yet: one callback per stage queues the
    reactions, the first at [p], and calls no handler.  When [p] is settled
    afterwards with an outcome that is not a Promise, one more callback per
    stage, run in submission order, calls the handlers in the order of the
    stages and settles every Promise of the chain with the outcome of its
    stage, as for a chain on a settled Promise. *)
Theorem pending_promise_feeds_then_chain (fuel : nat) (w : world) (p : pid)
    (s : stage) (rest : list stage) :
  tasks w = [] ->
  (p < length (heap w))%nat ->
  status_of w p = PENDING ->
  queue_of w p = [] ->
  exists w1,
    run handlers fuel (length (s :: rest))
      (exec (then_chain (VPromise p) (map stage_values (s :: rest))) w) = Some w1 /\
    tasks w1 = [] /\ log w1 = log w /\ status_of w1 p = PENDING /\
    forall fuel' c, flows handlers (s :: rest) c ->
      exists w2 w',
        settle (chain fuel') p c w1 = Ok tt w2 /\
        run handlers fuel' (length (s :: rest)) w2 = Some w' /\
        tasks w' = [] /\
        log w' = log w ++ pipeline_calls handlers (s :: rest) c /\
        status_of w' p = settled_as (fst c) /\ fate_of w' p = snd c /\
        settled_chain handlers w' (length (heap w)) (s :: rest) c /\
        status_of w' (length (heap w) + length rest) =
          settled_as (fst (pipeline handlers (s :: rest) c)) /\
        fate_of w' (length (heap w) + length rest) =
          snd (pipeline handlers (s :: rest) c).
Proof.
  intros Hquiet Hp Hs Hq.
  destruct (then_chain_waits handlers fuel w p s rest Hquiet Hp Hs)
    as (w1 & Hrun & Ht1 & Hl1 & Hlen1 & Hs1 & Hq1 & Hw1).
  exists w1. split; [done|]. split; [done|]. split; [done|]. split; [done|].
  intros fuel' c Hflow. rewrite Hq in Hq1. cbn [app] in Hq1.
  destruct (then_chain_resumes handlers fuel' w1 p (length (heap w)) s rest c
              Ht1 Hp Hs1 Hq1 Hw1 Hflow)
    as (w2 & w' & Hset & Hrun' & Ht' & Hlog' & Hs' & Hf' & Hch).
  destruct (settled_chain_last handlers w' _ s rest c Hch) as [H1 H2].
  exists w2, w'. rewrite Hl1 in Hlog'. done.
Qed.

(** X18: in every world reached from the empty one by such a script, each
    handler of the caller has been called at most as many times as the
    script passed it to [then] or [catch]: one attachment pays for at most
    one call, whatever the order of settlements and callbacks. *)
Theorem handler_calls_bounded_by_attachments (fuel : nat) (script : list action)
    (w : world) (h : nat) :
  play handlers fuel script empty_world = Some w ->
  (calls h w <= attachments h script)%nat.
Proof.
  intros Hplay.
  pose proof (play_spent handlers h fuel script _ _ empty_world_well_formed Hplay)
    as H.
  unfold spent in H. change (calls h empty_world) with 0%nat in H.
  change (owed h empty_world) with 0%nat in H. lia.
Qed.

End Library.

(** * The statements at concrete programs *)

Open Scope nat_scope.

(** C1 at [waiting_world]: [resolve(1)], then [reject("late")] and
    [resolve(2)]. *)
Lemma first_settle_wins_witness :
  ends_in (fun w1 =>
      status_of w1 0 = RESOLVED /\ fate_of w1 0 = VNum 1 /\
      forall fuel', settle_all (chain fuel') 0
        [(op_reject, VStr "late"); (op_resolve, VNum 2)] w1 = Ok tt w1)
    (settle (chain 0) 0 (op_resolve, VNum 1) waiting_world) /\
  (exists w1, settle (chain 0) 0 (op_resolve, VNum 1) waiting_world = Ok tt w1).
Proof.
  destruct (first_settle_wins 0 waiting_world 0 (op_resolve, VNum 1)
              [(op_reject, VStr "late"); (op_resolve, VNum 2)])
    as (Hfirst & Hreturns & _).
  - cbn. lia.
  - reflexivity.
  - split; [exact Hfirst|]. apply Hreturns. reflexivity.
Defined.


(** Two reactions attached to a pending Promise run in attachment order:
    [p.then(h0)] and [p.then(h2)], then [resolve(9)].  The settlement itself
    calls neither handler. *)
Example reactions_run_in_attachment_order :
  exists w1 w2 w3,
    run demo_handlers 1 20
      (exec (p <- new_Promise (caller_producer []) ;;
             Promise_then p (VFun (Handler 0)) VUndefined ;;;
             Promise_then p (VFun (Handler 2)) VUndefined) empty_world) = Some w1 /\
    tasks w1 = [] /\ log w1 = [] /\
    resolver (chain 1) 0 (VNum 9) w1 = Ok tt w2 /\
    length (tasks w2) = 2 /\ log w2 = [] /\
    run demo_handlers 1 20 w2 = Some w3 /\
    tasks w3 = [] /\ log w3 = [(0, VNum 9); (2, VNum 9)].
Proof.
  eexists _, _, _. split; [vm_compute; reflexivity|].
  split; [reflexivity|]. split; [reflexivity|].
  split; [vm_compute; reflexivity|].
  split; [reflexivity|]. split; [reflexivity|].
  split; [vm_compute; reflexivity|].
  split; reflexivity.
Qed.

(** C7 at [throwing_world]: the handler of [Promise.resolve(1).then(h1)]
    throws ["boom"], and Promise 1, the downstream one, is rejected with it;
    and at [settled_world], from the call [then(h1)] on. *)
Lemma handler_failure_rejects_downstream_witness :
  (ends_in (fun w1 => status_of w1 1 = REJECTED /\ fate_of w1 1 = VStr "boom" /\
                      log w1 = log throwing_world ++ [(1, fate_of throwing_world 0)])
           (run_task demo_handlers 0
              (handler_task 0 (then_args 1 (VFun (Handler 1)) VUndefined) op_resolve)
              throwing_world) /\
   (is_promise (VStr "boom") = false \/ queue_of throwing_world 1 = [] ->
    exists w1,
      run_task demo_handlers 0
        (handler_task 0 (then_args 1 (VFun (Handler 1)) VUndefined) op_resolve)
        throwing_world = Ok tt w1)) /\
  (exists w2,
     run_schedule demo_handlers 0
       [length (tasks settled_world); length (tasks settled_world)]
       (exec (Promise_then 0 (VFun (Handler 1)) VUndefined) settled_world) = Some w2 /\
     status_of w2 (length (heap settled_world)) = REJECTED /\
     fate_of w2 (length (heap settled_world)) = VStr "boom" /\
     log w2 = log settled_world ++ [(1, fate_of settled_world 0)]).
Proof.
  split.
  - apply (proj1 (handler_failure_rejects_downstream demo_handlers 0)
             throwing_world 0 1
             (then_args 1 (VFun (Handler 1)) VUndefined) op_resolve 1 (VStr "boom")).
    + reflexivity.
    + reflexivity.
    + reflexivity.
    + cbn. lia.
    + reflexivity.
  - apply (proj2 (handler_failure_rejects_downstream demo_handlers 0)
             settled_world 0 (VFun (Handler 1)) VUndefined op_resolve 1 (VStr "boom")).
    + cbn. lia.
    + reflexivity.
    + reflexivity.
    + reflexivity.
    + reflexivity.
Defined.

(** C8 fails when the outcome of the source is a Promise:
    [Promise.reject(Promise.resolve(5)).then()] is fulfilled with [5], while
    its source, Promise 1, is rejected with Promise 0. *)
Lemma then_without_handlers_counterexample :
  exists w,
    run demo_handlers 3 30 (exec nested_rejection empty_world) = Some w /\
    tasks w = [] /\
    status_of w 1 = REJECTED /\ fate_of w 1 = VPromise 0 /\
    status_of w 2 = RESOLVED /\ fate_of w 2 = VNum 5 /\
    ~ settles_identically w 1 2.
Proof.
  eexists. split; [vm_compute; reflexivity|].
  repeat split; try reflexivity.
  intros [H _]. discriminate H.
Qed.

(** C8, amended: [Promise.resolve(7).then()] at [settled_world], and
    [p.then()] at [waiting_world] followed by [reject("no")] on [p]. *)
Lemma then_without_handlers_passes_through_witness :
  (exists w2,
     run_schedule demo_handlers 0
       [length (tasks settled_world); length (tasks settled_world)]
       (exec (Promise_then 0 VUndefined VUndefined) settled_world) = Some w2 /\
     settles_identically w2 0 (length (heap settled_world)) /\
     status_of w2 (length (heap settled_world)) = RESOLVED /\
     fate_of w2 (length (heap settled_world)) = VNum 7) /\
  (exists w1 w2 w3,
     step demo_handlers 0 (length (tasks waiting_world))
       (exec (Promise_then 0 VUndefined VUndefined) waiting_world) = Some w1 /\
     settle (chain 0) 0 (op_reject, VStr "no") w1 = Ok tt w2 /\
     step demo_handlers 0
       (length (tasks waiting_world) + length (queue_of waiting_world 0)) w2 =
       Some w3 /\
     settles_identically w3 0 (length (heap waiting_world)) /\
     status_of w3 (length (heap waiting_world)) = REJECTED /\
     fate_of w3 (length (heap waiting_world)) = VStr "no").
Proof.
  split.
  - destruct (then_without_handlers_passes_through demo_handlers 0 settled_world 0
                VUndefined VUndefined) as [Hsettled _].
    + cbn. lia.
    + reflexivity.
    + reflexivity.
    + apply (Hsettled op_resolve); reflexivity.
  - destruct (then_without_handlers_passes_through demo_handlers 0 waiting_world 0
                VUndefined VUndefined) as [_ Hpending].
    + cbn. lia.
    + reflexivity.
    + reflexivity.
    + apply (Hpending (op_reject, VStr "no")); reflexivity.
Defined.

(** C9 at [waiting_world]: Promise 0, with the reaction of [then(h0)]
    queued, is resolved with the pending Promise 1.  It is [RESOLVED] at
    once; when Promise 1 is fulfilled with [5], the callback of the reaction
    calls [h0] with [5] and fulfils the downstream Promise 2 with what [h0]
    returns, which is [5]. *)
Lemma promise_valued_fulfilment_forwards_witness :
  let w := waiting_world in
  ends_in (fun w1 => status_of w1 0 = RESOLVED /\ fate_of w1 0 = VPromise 1)
          (resolver (chain 0) 0 (VPromise 1) w) /\
  (exists w1,
     resolver (chain 0) 0 (VPromise 1) w = Ok tt w1 /\
     status_of w1 0 = RESOLVED /\ fate_of w1 0 = VPromise 1 /\
     status_of w1 1 = PENDING /\
     queue_of w1 1 = queue_of w 1 ++ queue_of w 0 /\
     tasks w1 = tasks w /\ log w1 = log w /\
     forall fuel' c, is_promise (snd c) = false ->
       exists w2,
         settle (chain fuel') 1 c w1 = Ok tt w2 /\
         tasks w2 = tasks w ++
           map (fun a => dispatch_task 1 a (fst c) (snd c))
               (queue_of w 1 ++ queue_of w 0) /\
         log w2 = log w) /\
  (forall w1 a, valid a = true ->
     status_of w1 0 = RESOLVED -> fate_of w1 0 = VPromise 1 ->
     chain 1 0 a w1 = chain 0 1 a w1) /\
  (exists w1 w2 w3,
     resolver (chain 0) 0 (VPromise 1) w = Ok tt w1 /\
     status_of w1 0 = RESOLVED /\ status_of w1 1 = PENDING /\ tasks w1 = [] /\
     settle (chain 0) 1 (op_resolve, VNum 5) w1 = Ok tt w2 /\
     run demo_handlers 0 1 w2 = Some w3 /\
     tasks w3 = [] /\ log w3 = [(0, VNum 5)] /\
     status_of w3 2 = RESOLVED /\ fate_of w3 2 = VNum 5 /\
     status_of w3 0 = RESOLVED /\ fate_of w3 0 = VPromise 1).
Proof.
  destruct (promise_valued_fulfilment_forwards demo_handlers 0 waiting_world 0 1)
    as (Hflip & Hforward & Hlater & Hrun & _).
  - cbn. lia.
  - reflexivity.
  - split; [exact Hflip|]. split; [|split; [exact Hlater|]].
    + apply Hforward.
      * cbn. lia.
      * discriminate.
      * reflexivity.
      * repeat constructor.
    + destruct (Hrun [(Some 0, None)] 2 (op_resolve, VNum 5))
        as (w1 & w2 & w3 & Hw1 & Hs1 & _ & Hq1 & _ & Ht1 & _ & Hw2 & _ & _ &
            Hr3 & Ht3 & Hl3 & Hall & Hs3 & Hf3).
      * cbn. lia.
      * discriminate.
      * reflexivity.
      * reflexivity.
      * reflexivity.
      * reflexivity.
      * lia.
      * lia.
      * cbn. lia.
      * intros x Hx. assert (x = 2) as -> by (cbn in Hx; lia). reflexivity.
      * reflexivity.
      * destruct (Hall 0 (Some 0, None) eq_refl) as [Hs2 Hf2].
        exists w1, w2, w3. repeat split; assumption.
Defined.

(** C10 at [waiting_world]: Promise 0 is rejected with the pending
    Promise 1. *)
Lemma promise_valued_rejection_forwards_witness :
  let w := waiting_world in
  ends_in (fun w1 => status_of w1 0 = REJECTED /\ fate_of w1 0 = VPromise 1)
          (rejector (chain 0) 0 (VPromise 1) w) /\
  (exists w1,
     rejector (chain 0) 0 (VPromise 1) w = Ok tt w1 /\
     status_of w1 0 = REJECTED /\ fate_of w1 0 = VPromise 1 /\
     status_of w1 1 = PENDING /\
     queue_of w1 1 = queue_of w 1 ++ queue_of w 0 /\
     tasks w1 = tasks w /\ log w1 = log w /\
     forall fuel' v, is_promise v = false ->
       exists w2,
         resolver (chain fuel') 1 v w1 = Ok tt w2 /\
         tasks w2 = tasks w ++
           map (fun a => dispatch_task 1 a op_resolve v)
               (queue_of w 1 ++ queue_of w 0) /\
         log w2 = log w) /\
  (forall w1 a, valid a = true ->
     status_of w1 0 = REJECTED -> fate_of w1 0 = VPromise 1 ->
     chain 1 0 a w1 = chain 0 1 a w1) /\
  (forall w1 d g v,
     status_of w1 0 = REJECTED -> fate_of w1 0 = VPromise 1 ->
     status_of w1 1 = RESOLVED -> fate_of w1 1 = v -> is_promise v = false ->
     d < length (heap w1) -> status_of w1 d = PENDING ->
     exists w2 w3,
       chain 1 0 (catch_args d g) w1 = Ok tt w2 /\
       tasks w2 = tasks w1 ++ [apply_task (VFun (Resolver d)) v] /\
       step demo_handlers 0 (length (tasks w1)) w2 = Some w3 /\
       status_of w3 d = RESOLVED /\ fate_of w3 d = v /\ log w3 = log w1).
Proof.
  destruct (promise_valued_rejection_forwards demo_handlers 0 waiting_world 0 1)
    as (Hflip & Hforward & Hlater).
  - cbn. lia.
  - reflexivity.
  - split; [exact Hflip|]. split; [|exact Hlater].
    apply Hforward.
    + cbn. lia.
    + discriminate.
    + reflexivity.
    + repeat constructor.
Defined.

(** C5 fails when an input rejects with a Promise:
    [Promise.all([Promise.reject(Promise.resolve(5))])] is fulfilled, with the
    results [[5]], although its only input, Promise 1, is rejected. *)
Lemma all_rejects_counterexample :
  exists w,
    run demo_handlers 3 30 (exec all_of_nested_rejection empty_world) = Some w /\
    tasks w = [] /\
    status_of w 1 = REJECTED /\ fate_of w 1 = VPromise 0 /\
    status_of w 2 = RESOLVED /\ fate_of w 2 = VArray 0 /\
    results (cells w !!! 0) = [Some (VNum 5)].
Proof.
  eexists. split; [vm_compute; reflexivity|].
  repeat split; reflexivity.
Qed.

(** C5, amended, at [all_subscribed_world]: of the three inputs the first
    reports [1], the second rejects with ["x"], the third reports [3]; and at
    [three_settled_world], for [Promise.all] of its three Promises. *)
Lemma all_rejects_with_first_reason_witness :
  (exists w1,
     notify_all (chain 0) 0 ([fulfilled 0 (VNum 1)] ++ [rejected (VStr "x")])
       all_subscribed_world = Ok tt w1 /\
     status_of w1 (all_owner (cells all_subscribed_world !!! 0)) = REJECTED /\
     fate_of w1 (all_owner (cells all_subscribed_world !!! 0)) = VStr "x" /\
     forall fuel', notify_all (chain fuel') 0 [fulfilled 2 (VNum 3)] w1 = Ok tt w1) /\
  (exists w5,
     run demo_handlers 0 (1 + 5 * length [0; 1; 2])
       (exec (Promise_all (map VPromise [0; 1; 2])) three_settled_world) = Some w5 /\
     tasks w5 = [] /\
     status_of w5 (length (heap three_settled_world)) = REJECTED /\
     fate_of w5 (length (heap three_settled_world)) = VStr "x").
Proof.
  split.
  - apply (proj1 (all_rejects_with_first_reason demo_handlers 0)
             all_subscribed_world 0
             [fulfilled 0 (VNum 1)] [fulfilled 2 (VNum 3)] (VStr "x")).
    + cbn. lia.
    + cbn. lia.
    + reflexivity.
    + reflexivity.
    + cbn. lia.
    + reflexivity.
  - apply (proj2 (all_rejects_with_first_reason demo_handlers 0)
             three_settled_world [0; 1; 2] (VStr "x")).
    + reflexivity.
    + repeat constructor; cbn; try lia; discriminate.
    + reflexivity.
Defined.

(** The scheduler run of the same program ends with the result, Promise 3,
    rejected with ["x"] and nothing left to run. *)
Example all_rejects_with_first_reason_run :
  exists w,
    run demo_handlers 1 50 all_subscribed_world = Some w /\
    tasks w = [] /\
    status_of w 3 = REJECTED /\ fate_of w 3 = VStr "x".
Proof.
  eexists. split; [vm_compute; reflexivity|]. repeat split; reflexivity.
Qed.

(** C4 at [Promise.all([1])]. *)
Lemma all_rejects_plain_values_witness :
  exists w1,
    step demo_handlers 0 (length (tasks empty_world))
      (exec (Promise_all [VNum 1]) empty_world) = Some w1 /\
    status_of w1 (length (heap empty_world)) = REJECTED /\
    fate_of w1 (length (heap empty_world)) = VTypeError "then is not a function".
Proof.
  apply (all_rejects_plain_values demo_handlers 0 empty_world [VNum 1]).
  reflexivity.
Defined.

(** When every input is a Promise the results come in input order, also
    when the second input settles first: Promise 0 is pending until the
    caller resolves it with [1], after [Promise.resolve(2)] has settled. *)
Example all_keeps_input_order :
  exists w1 w2 w3,
    run demo_handlers 1 50
      (exec (new_Promise (caller_producer []) ;;;
             Promise_resolve (VNum 2) ;;;
             Promise_all [VPromise 0; VPromise 1]) empty_world) = Some w1 /\
    tasks w1 = [] /\ status_of w1 2 = PENDING /\
    results (cells w1 !!! 0) = [None; Some (VNum 2)] /\
    resolver (chain 1) 0 (VNum 1) w1 = Ok tt w2 /\
    run demo_handlers 1 50 w2 = Some w3 /\
    tasks w3 = [] /\ status_of w3 2 = RESOLVED /\ fate_of w3 2 = VArray 0 /\
    results (cells w3 !!! 0) = [Some (VNum 1); Some (VNum 2)].
Proof.
  eexists _, _, _. split; [vm_compute; reflexivity|].
  split; [reflexivity|]. split; [reflexivity|]. split; [reflexivity|].
  split; [vm_compute; reflexivity|].
  split; [vm_compute; reflexivity|].
  repeat split; reflexivity.
Qed.

(** C6 fails: [Promise.resolve(7).then(42, "no")] raises nothing.  It
    returns Promise 1, which ends fulfilled with [7]. *)
Lemma non_callable_handlers_counterexample :
  exists w1 w2,
    Promise_then 0 (VNum 42) (VStr "no") settled_world = Ok (VPromise 1) w1 /\
    run demo_handlers 1 10 w1 = Some w2 /\
    tasks w2 = [] /\
    status_of w2 1 = RESOLVED /\ fate_of w2 1 = VNum 7.
Proof.
  eexists _, _. split; [reflexivity|].
  split; [vm_compute; reflexivity|]. repeat split; reflexivity.
Qed.

(** ** Further statements at concrete programs *)


(** X1 at [late_script]: Promise 0 stays fulfilled with [7]. *)
Lemma settled_promises_never_change_witness :
  (forall p, status_of settled_world p <> PENDING ->
     status_of late_world p = status_of settled_world p /\
     fate_of late_world p = fate_of settled_world p /\
     queue_of late_world p = queue_of settled_world p) /\
  (forall p, queue_of settled_world p `prefix_of` queue_of late_world p) /\
  log settled_world `prefix_of` log late_world /\
  length (heap settled_world) <= length (heap late_world).
Proof.
  apply (settled_promises_never_change demo_handlers 1 late_script).
  vm_compute. reflexivity.
Defined.

(** X2 at [demo_script]. *)
Lemma no_exception_escapes_a_callback_witness :
  (forall fuel' i t, tasks played_world !! i = Some t ->
     forall ex w',
       run_task demo_handlers fuel' t (set_tasks (delete i) played_world)
         <> Throw ex w') /\
  (forall fuel' p c ex w', settle (chain fuel') p c played_world <> Throw ex w').
Proof.
  apply (no_exception_escapes_a_callback demo_handlers 1 demo_script).
  vm_compute. reflexivity.
Defined.

(** X3 at [demo_script]: [h0] was called with [7]. *)
Lemma handlers_never_receive_a_promise_witness :
  log played_world = [(0, VNum 7)] /\
  Forall (fun entry => is_promise (snd entry) = false) (log played_world).
Proof.
  split; [reflexivity|].
  apply (handlers_never_receive_a_promise demo_handlers 1 demo_script).
  vm_compute. reflexivity.
Defined.

(** X4 at Promise 1 of [waiting_world], for a producer that calls
    [resolve(1)], then [reject("late")], then throws. *)
Lemma producer_settles_with_first_outcome_witness :
  run_task demo_handlers 1
    (producer_task 1 (caller_producer
       [call_resolve (VNum 1); call_reject (VStr "late"); throw_stmt (VStr "oops")]))
    waiting_world =
  Ok tt (settled 1 (op_resolve, VNum 1) waiting_world).
Proof.
  apply (producer_settles_with_first_outcome demo_handlers 1 waiting_world 1
    [call_resolve (VNum 1); call_reject (VStr "late"); throw_stmt (VStr "oops")]).
  - vm_compute. lia.
  - reflexivity.
  - reflexivity.
Defined.

(** X5 at [Promise.resolve(0)] in the empty world. *)
Lemma resolve_fulfils_with_plain_value_witness :
  exists w1 w2,
    Promise_resolve (VNum 0) empty_world = Ok (VPromise 0) w1 /\
    status_of w1 0 = PENDING /\
    step demo_handlers 1 0 w1 = Some w2 /\
    status_of w2 0 = RESOLVED /\ fate_of w2 0 = VNum 0 /\
    tasks w2 = [] /\ log w2 = [].
Proof.
  apply (resolve_fulfils_with_plain_value demo_handlers 1 empty_world (VNum 0)).
  reflexivity.
Defined.

(** X7 at [Promise.resolve(p0)] for Promise 0 of [settled_world]. *)
Lemma resolve_adopts_promise_witness :
  exists w3,
    run_schedule demo_handlers 1 [0; 0; 0]
      (exec (Promise_resolve (VPromise 0)) settled_world) = Some w3 /\
    status_of w3 1 = RESOLVED /\ fate_of w3 1 = VNum 7 /\
    tasks w3 = [] /\ log w3 = [].
Proof.
  apply (proj1 (resolve_adopts_promise demo_handlers 1 settled_world 0
                  ltac:(vm_compute; lia)) op_resolve); reflexivity.
Defined.

(** X8 at Promise 1 of [three_settled_world], rejected with ["x"]:
    [catch(h0)] yields a Promise fulfilled with ["x"]. *)
Lemma catch_is_then_without_fulfilment_handler_witness :
  exists w2,
    run_schedule demo_handlers 1 [0; 0]
      (exec (Promise_catch 1 (VFun (Handler 0))) three_settled_world) = Some w2 /\
    log w2 = [(0, VStr "x")] /\
    status_of w2 3 = RESOLVED /\ fate_of w2 3 = VStr "x".
Proof.
  apply (proj2 (proj2 (proj2
    (catch_is_then_without_fulfilment_handler demo_handlers 1
       three_settled_world 1 (VFun (Handler 0)))
    ltac:(vm_compute; lia) eq_refl)) 0); reflexivity.
Defined.

(** X9 at [p0.then(h0).then(h1).then(undefined, h0)] for Promise 0 of
    [settled_world]: [h0] returns [7], [h1] throws ["boom"], and [h0] turns
    the rejection into a fulfilment with ["boom"]. *)
Lemma then_chain_composes_handlers_witness :
  exists w',
    run demo_handlers 1 6
      (exec (then_chain (VPromise 0) (map stage_values demo_stages)) settled_world)
      = Some w' /\
    tasks w' = [] /\
    log w' = [(0, VNum 7); (1, VNum 7); (0, VStr "boom")] /\
    settled_chain demo_handlers w' 1 demo_stages (op_resolve, VNum 7) /\
    status_of w' 3 = RESOLVED /\ fate_of w' 3 = VStr "boom".
Proof.
  apply (then_chain_composes_handlers demo_handlers 1 settled_world 0
           (Some 0, None) [(Some 1, None); (None, Some 0)] (op_resolve, VNum 7));
    try reflexivity.
  - vm_compute. lia.
  - vm_compute. repeat split.
Defined.

(** X10 at [new Promise(function (resolve) { resolve(7); throw "late"; })]
    followed by the same chain, in the empty world. *)
Lemma new_promise_feeds_then_chain_witness :
  exists w',
    run demo_handlers 1 7
      (exec (p <- new_Promise (caller_producer
                     [call_resolve (VNum 7); throw_stmt (VStr "late")]) ;;
             then_chain (VPromise p) (map stage_values demo_stages)) empty_world)
      = Some w' /\
    tasks w' = [] /\
    log w' = [(0, VNum 7); (1, VNum 7); (0, VStr "boom")] /\
    status_of w' 0 = RESOLVED /\ fate_of w' 0 = VNum 7 /\
    settled_chain demo_handlers w' 1 demo_stages (op_resolve, VNum 7) /\
    status_of w' 3 = RESOLVED /\ fate_of w' 3 = VStr "boom".
Proof.
  apply (new_promise_feeds_then_chain demo_handlers 1 empty_world
           [call_resolve (VNum 7); throw_stmt (VStr "late")]
           (Some 0, None) [(Some 1, None); (None, Some 0)] (op_resolve, VNum 7));
    try reflexivity.
  vm_compute. repeat split.
Defined.

(** X11 at [p0.then(h0); p0.then(h1); p0.then(undefined, h0)] for Promise 0
    of [settled_world]. *)
Lemma reactions_of_one_promise_run_in_order_witness :
  exists w',
    run demo_handlers 1 6
      (exec (then_each 0 (map stage_values demo_stages)) settled_world) = Some w' /\
    tasks w' = [] /\
    log w' = [(0, VNum 7); (1, VNum 7)] /\
    (forall i s, demo_stages !! i = Some s ->
       status_of w' (1 + i) =
         settled_as (fst (stage_outcome demo_handlers s (op_resolve, VNum 7))) /\
       fate_of w' (1 + i) = snd (stage_outcome demo_handlers s (op_resolve, VNum 7))).
Proof.
  apply (reactions_of_one_promise_run_in_order demo_handlers 1 settled_world 0
           demo_stages (op_resolve, VNum 7)); try reflexivity.
  vm_compute. lia.
Defined.

(** X12 at the call of [all_subscribed_world], for the values [1], [2],
    [3] reported in the order of the indices 2, 0, 1. *)
Lemma all_results_follow_input_order_witness :
  exists w0 w1,
    notify_all (chain 1) 0 (fulfilments [(2, VNum 3); (0, VNum 1)])
      all_subscribed_world = Ok tt w0 /\
    status_of w0 3 = PENDING /\
    notify (chain 1) 0 (fulfilled 1 (VNum 2)) w0 = Ok tt w1 /\
    results (cells w1 !!! 0) = [Some (VNum 1); Some (VNum 2); Some (VNum 3)] /\
    status_of w1 3 = RESOLVED /\ fate_of w1 3 = VArray 0.
Proof.
  apply (all_results_follow_input_order 1 all_subscribed_world 0
           [VNum 1; VNum 2; VNum 3] [(2, VNum 3); (0, VNum 1)] (1, VNum 2));
    try reflexivity.
  - vm_compute. lia.
  - vm_compute. lia.
  - apply (Permutation_cons_append [(0, VNum 1); (1, VNum 2)] (2, VNum 3)).
Defined.

(** X13 at [Promise.all([p1, p0])] for the Promises of
    [two_fulfilled_world]. *)
Lemma all_fulfils_settled_inputs_in_order_witness :
  exists w5,
    run demo_handlers 1 11
      (exec (Promise_all [VPromise 1; VPromise 0]) two_fulfilled_world) = Some w5 /\
    tasks w5 = [] /\ log w5 = [] /\
    status_of w5 2 = RESOLVED /\ fate_of w5 2 = VArray 0 /\
    results (cells w5 !!! 0) = [Some (VNum 2); Some (VNum 1)] /\
    (forall p, p < 2 -> heap w5 !!! p = heap two_fulfilled_world !!! p).
Proof.
  apply (all_fulfils_settled_inputs_in_order demo_handlers 1 two_fulfilled_world
           [1; 0]); try reflexivity; try done.
  repeat constructor; vm_compute; try lia; discriminate.
Defined.

(** X15 at Promise 1 of [waiting_world]: a fulfilment with [1], then a
    rejection and another fulfilment. *)
Lemma race_settles_with_first_report_witness :
  race_reports (chain 1) 1
    [(op_resolve, VNum 1); (op_reject, VStr "x"); (op_resolve, VNum 2)]
    false waiting_world =
    Some (true, settled 1 (op_resolve, VNum 1) waiting_world) /\
  status_of (settled 1 (op_resolve, VNum 1) waiting_world) 1 = RESOLVED /\
  fate_of (settled 1 (op_resolve, VNum 1) waiting_world) 1 = VNum 1.
Proof.
  apply (proj1 (race_settles_with_first_report 1 waiting_world 1
                  (op_resolve, VNum 1) [(op_reject, VStr "x"); (op_resolve, VNum 2)]
                  ltac:(vm_compute; lia))); reflexivity.
Defined.

(** X16 at [Promise.all([0, null, "", undefined, false])] in the empty
    world. *)
Lemma all_fulfils_falsy_values_witness :
  exists w5,
    run demo_handlers 1 16
      (exec (Promise_all [VNum 0; VNull; VStr ""; VUndefined; VBool false])
         empty_world) = Some w5 /\
    tasks w5 = [] /\ log w5 = [] /\
    status_of w5 0 = RESOLVED /\ fate_of w5 0 = VArray 0 /\
    results (cells w5 !!! 0) =
      [Some (VNum 0); Some VNull; Some (VStr ""); Some VUndefined;
       Some (VBool false)].
Proof.
  apply (all_fulfils_falsy_values demo_handlers 1 empty_world
           [VNum 0; VNull; VStr ""; VUndefined; VBool false]);
    [reflexivity|discriminate|repeat constructor].
Defined.

(** X17 at [p1.then(h0).then(h1).then(undefined, h0)] for the pending
    Promise 1 of [waiting_world], which is resolved with [7] afterwards. *)
Lemma pending_promise_feeds_then_chain_witness :
  exists w1,
    run demo_handlers 1 3
      (exec (then_chain (VPromise 1) (map stage_values demo_stages)) waiting_world)
      = Some w1 /\
    tasks w1 = [] /\ log w1 = [] /\ status_of w1 1 = PENDING /\
    exists w2 w',
      settle (chain 1) 1 (op_resolve, VNum 7) w1 = Ok tt w2 /\
      run demo_handlers 1 3 w2 = Some w' /\
      tasks w' = [] /\
      log w' = [(0, VNum 7); (1, VNum 7); (0, VStr "boom")] /\
      status_of w' 1 = RESOLVED /\ fate_of w' 1 = VNum 7 /\
      settled_chain demo_handlers w' 3 demo_stages (op_resolve, VNum 7) /\
      status_of w' 5 = RESOLVED /\ fate_of w' 5 = VStr "boom".
Proof.
  destruct (pending_promise_feeds_then_chain demo_handlers 1 waiting_world 1
              (Some 0, None) [(Some 1, None); (None, Some 0)]
              eq_refl ltac:(vm_compute; lia) eq_refl eq_refl)
    as (w1 & Hrun & Ht & Hl & Hs & Hlater).
  exists w1. split; [exact Hrun|]. split; [exact Ht|]. split; [exact Hl|].
  split; [exact Hs|].
  apply (Hlater 1 (op_resolve, VNum 7)). vm_compute. repeat split.
Defined.

(** X18 at [demo_script]: [h0] was passed to one [then] and called once;
    [h1] was passed to one [catch] and its call is still to come. *)
Lemma handler_calls_bounded_by_attachments_witness :
  play demo_handlers 1 demo_script empty_world = Some played_world /\
  calls 0 played_world = 1 /\ attachments 0 demo_script = 1 /\
  calls 0 played_world <= attachments 0 demo_script /\
  calls 1 played_world <= attachments 1 demo_script.
Proof.
  split; [vm_compute; reflexivity|]. split; [reflexivity|]. split; [reflexivity|].
  split.
  - apply (handler_calls_bounded_by_attachments demo_handlers 1 demo_script).
    vm_compute. reflexivity.
  - vm_compute. lia.
Defined.
